(** * Secure File Vault: content-addressed deduplication core

    A shallow embedding of the upload and delete paths of the vault:
    the edge function (Hono server: [POST /upload], [DELETE /files/:fileId],
    [POST /signup], with the helpers [checkRateLimit], [calculateFileHash]
    and [getMimeTypeFromBuffer]) and the browser-side twins
    ([uploadFilesClientSide], [deleteFileClientSide] over [fileOperations.ts]).

    The key-value table is split by key prefix ([user:], [quota:], [file:],
    [file_ref:]); the prefixes are pairwise incomparable, so the four
    families never alias and each is a finite map of its own.  The storage
    bucket is a finite map from object path to content type and bytes.
    In the histories of the vault requests are handled one after the other;
    a key-value call itself never fails.  JavaScript numbers are integers
    here (byte counts, counters, millisecond clocks), and an ISO timestamp
    is the clock reading it renders.

    Requests in flight together are modelled apart: the upload and the
    delete route as programs that yield at each awaited call ([Steps]), run
    in turns over one store; run alone they are the handlers of the
    histories.  Nothing in the routes serialises two requests, so the
    properties of reclamation and of removing twice hold of requests handled
    one after another, and fail for requests in flight together.

    The routes that hand out and open up what the ledgers hold (download,
    share, [GET /user], the browser-side download, share and limiter) come after
    the histories; the share route works on the store extended with the
    [share:] keys of the table.

    Left out: the routes that list and filter ([GET /files], [GET /stats],
    the admin listings), and the demo mode, which works on the browser's
    local storage. *)

From Stdlib Require Import ZArith Lia List String Ascii.
From Stdlib.Strings Require Import Byte.
From stdpp Require Import base gmap strings list fin_maps pretty.

Open Scope string_scope.
Open Scope Z_scope.

(** ** JavaScript string helpers *)

(** [a || b] on strings: the empty string is falsy. *)
Definition js_or (a b : string) : string :=
  if String.eqb a EmptyString then b else a.

(** [s.startsWith(p)] *)
Definition startsWith (s p : string) : bool := String.prefix p s.

(** [s.includes(p)] *)
Definition includes (s p : string) : bool :=
  match String.index 0 p s with Some _ => true | None => false end.

(** [s.split(sep)[0]]: the characters before the first separator. *)
Fixpoint split_head (sep : ascii) (s : string) : string :=
  match s with
  | EmptyString => EmptyString
  | String c rest =>
      if Ascii.eqb c sep then EmptyString else String c (split_head sep rest)
  end.

(** [s.padStart(n, c)] for a one-character pad. *)
Definition padStart (n : nat) (c : ascii) (s : string) : string :=
  string_of_list_ascii (repeat c (n - String.length s)) ++ s.

Definition hex_digit (n : N) : ascii :=
  match n with
  | 0 => "0" | 1 => "1" | 2 => "2" | 3 => "3" | 4 => "4" | 5 => "5"
  | 6 => "6" | 7 => "7" | 8 => "8" | 9 => "9" | 10 => "a" | 11 => "b"
  | 12 => "c" | 13 => "d" | 14 => "e" | _ => "f"
  end%N%char.

(** [b.toString(16)] for a byte. *)
Definition toString16 (b : byte) : string :=
  let n := Byte.to_N b in
  if (n <? 16)%N then String (hex_digit n) EmptyString
  else String (hex_digit (n / 16)) (String (hex_digit (n mod 16)) EmptyString).

(** [bytes.map(b => b.toString(16).padStart(2, '0')).join('')] *)
Definition hex_of_bytes (bytes : list byte) : string :=
  String.concat EmptyString (map (fun b => padStart 2 "0" (toString16 b)) bytes).

(** ** Helper: validate MIME type (magic numbers) *)

Definition getMimeTypeFromBuffer (buffer : list byte) : string :=
  if (length buffer <? 4)%nat then "application/octet-stream"
  else
    let hex := hex_of_bytes (firstn 4 buffer) in
    if startsWith hex "89504e47" then "image/png"
    else if startsWith hex "ffd8ff" then "image/jpeg"
    else if startsWith hex "47494638" then "image/gif"
    else if startsWith hex "25504446" then "application/pdf"
    else if startsWith hex "504b0304" then "application/zip"
    else "application/octet-stream".

(** The condition guarding the [console.warn] of the upload loop. *)
Definition mime_mismatch (declaredMimeType actualMimeType : string) : bool :=
  negb (String.eqb declaredMimeType EmptyString)
  && negb (startsWith declaredMimeType (split_head "/" actualMimeType))
  && negb (String.eqb actualMimeType "application/octet-stream").

(** ** Data model *)

Definition DEFAULT_STORAGE_LIMIT : Z := 10 * 1024 * 1024.
Definition DEFAULT_RATE_LIMIT : Z := 2.

(** [user:{id}] *)
Record UserRecord := {
  u_id : string;
  u_email : string;
  u_name : string;
  u_is_admin : bool;
  u_created_at : Z
}.

(** [quota:{userId}].  The record written by [checkRateLimit] for a user
    without quota carries no [user_id]. *)
Record Quota := {
  q_user_id : option string;
  storage_used : Z;
  storage_limit : Z;
  rate_limit : Z;
  last_request_time : Z;
  request_count : Z
}.

(** [file:{hash}]: one record per stored content. *)
Record FileMeta := {
  fm_hash : string;
  fm_mime_type : string;
  fm_size : Z;
  fm_storage_path : string;
  fm_reference_count : Z;
  fm_created_at : Z
}.

(** [file_ref:{fileId}]: one record per upload action. *)
Record FileRef := {
  fr_id : string;
  fr_hash : string;
  fr_filename : string;
  fr_mime_type : string;
  fr_size : Z;
  fr_upload_date : Z;
  fr_uploader_id : string;
  fr_uploader_name : string;
  fr_is_public : bool;
  fr_folder_id : option string;
  fr_tags : list string;
  fr_storage_path : string;
  fr_download_count : Z;
  fr_is_deduplicated : bool;
  fr_reference_count : Z
}.

(** Calls made to the storage bucket, in order. *)
Inductive StorageCall :=
| StorageUpload (path : string)
| StorageRemove (path : string).

Inductive LogLine :=
| ConsoleWarn (msg : string)
| ConsoleError (msg : string).

Record Store := {
  kv_user : gmap string UserRecord;
  kv_quota : gmap string Quota;
  kv_file : gmap string FileMeta;
  kv_file_ref : gmap string FileRef;
  bucket : gmap string (string * list byte);
  storage_calls : list StorageCall;
  console : list LogLine
}.

Definition empty_store : Store :=
  {| kv_user := ∅; kv_quota := ∅; kv_file := ∅; kv_file_ref := ∅;
     bucket := ∅; storage_calls := []; console := [] |}.

(** The caller as the identity provider reports it. *)
Record AuthUser := { au_id : string; au_email : string }.

Inductive Auth :=
| NoToken
| InvalidToken
| Authenticated (user : AuthUser).

(** A [File] of the multipart form. *)
Record File := {
  file_name : string;
  file_type : string;
  file_data : list byte
}.

(** One iteration of the upload loop: the file, the clock read in that
    iteration, and the fault (if any) the storage service answers with. *)
Record UploadItem := {
  item_file : File;
  item_now : Z;
  item_fault : option string
}.

Inductive ParsedTags :=
| TagsAbsent
| TagsMalformed (msg : string)
| TagsJson (tags : list string).

Record UploadRequest := {
  req_auth : Auth;
  req_files : list UploadItem;
  req_tags : ParsedTags;
  req_folder_id : option string;
  req_is_public : bool
}.

(** JSON answers: [{success: true, files}], [{success: true, message}],
    [{success: true, user}] and [{error}] with its status code. *)
Inductive Response :=
| OkFiles (files : list FileRef)
| OkMessage (message : string)
| OkUser (user_id : string)
| JsonError (status : Z) (error : string).

(** ** Handlers: state threading with early [return] and [throw] *)

Inductive Flow (A : Type) :=
| Next (a : A)
| Return (r : Response)
| Throw (msg : string).
Arguments Next {A} a.
Arguments Return {A} r.
Arguments Throw {A} msg.

Definition Handler (A : Type) : Type := Store → Flow A * Store.

Definition pure {A} (a : A) : Handler A := fun st => (Next a, st).

Definition bind {A B} (m : Handler A) (k : A → Handler B) : Handler B :=
  fun st =>
    match m st with
    | (Next a, st') => k a st'
    | (Return r, st') => (Return r, st')
    | (Throw msg, st') => (Throw msg, st')
    end.

Notation "x <- m ;; k" := (bind m (fun x => k))
  (at level 20, m at level 99, k at level 200, only parsing).
Notation "m ;;; k" := (bind m (fun _ => k))
  (at level 100, k at level 200, right associativity, only parsing).

Definition return_json {A} (r : Response) : Handler A := fun st => (Return r, st).
Definition throw {A} (msg : string) : Handler A := fun st => (Throw msg, st).
Definition when (b : bool) (m : Handler unit) : Handler unit :=
  if b then m else pure tt.

(** [try { ... } catch (error) { console.error(label, error); return 500 }] *)
Definition try_catch (label : string) (h : Handler Response) (st : Store)
  : Response * Store :=
  match h st with
  | (Next r, st') => (r, st')
  | (Return r, st') => (r, st')
  | (Throw msg, st') =>
      (JsonError 500 msg,
       {| kv_user := kv_user st'; kv_quota := kv_quota st'; kv_file := kv_file st';
          kv_file_ref := kv_file_ref st'; bucket := bucket st';
          storage_calls := storage_calls st';
          console := console st' ++ [ConsoleError (label ++ " " ++ msg)] |})
  end.

(** *** Key-value and storage primitives

    The key-value module [kv_store.tsx] is imported by the edge function but
    is not among the sources.  The specification describes the persisted
    state as keyed collections (content records by fingerprint, ownership
    entries by entry id, quota records by owner id) with single-key reads and
    writes; [get] of a key never written answers [undefined]. *)

(** Modelled from the spec: [kv.get] of [kv_store.tsx] on a [user:] key. *)
Definition kv_get_user (id : string) : Handler (option UserRecord) :=
  fun st => (Next (kv_user st !! id), st).

(** Modelled from the spec: [kv.get] of [kv_store.tsx] on a [quota:] key. *)
Definition kv_get_quota (id : string) : Handler (option Quota) :=
  fun st => (Next (kv_quota st !! id), st).

(** Modelled from the spec: [kv.get] of [kv_store.tsx] on a [file:] key. *)
Definition kv_get_file (hash : string) : Handler (option FileMeta) :=
  fun st => (Next (kv_file st !! hash), st).

(** Modelled from the spec: [kv.get] of [kv_store.tsx] on a [file_ref:] key. *)
Definition kv_get_file_ref (id : string) : Handler (option FileRef) :=
  fun st => (Next (kv_file_ref st !! id), st).

(** Modelled from the spec: [kv.set] of [kv_store.tsx] on a [user:] key. *)
Definition kv_set_user (id : string) (v : UserRecord) : Handler unit :=
  fun st => (Next tt,
    {| kv_user := <[id := v]> (kv_user st); kv_quota := kv_quota st;
       kv_file := kv_file st; kv_file_ref := kv_file_ref st; bucket := bucket st;
       storage_calls := storage_calls st; console := console st |}).

(** Modelled from the spec: [kv.set] of [kv_store.tsx] on a [quota:] key. *)
Definition kv_set_quota (id : string) (v : Quota) : Handler unit :=
  fun st => (Next tt,
    {| kv_user := kv_user st; kv_quota := <[id := v]> (kv_quota st);
       kv_file := kv_file st; kv_file_ref := kv_file_ref st; bucket := bucket st;
       storage_calls := storage_calls st; console := console st |}).

(** Modelled from the spec: [kv.set] of [kv_store.tsx] on a [file:] key. *)
Definition kv_set_file (hash : string) (v : FileMeta) : Handler unit :=
  fun st => (Next tt,
    {| kv_user := kv_user st; kv_quota := kv_quota st;
       kv_file := <[hash := v]> (kv_file st); kv_file_ref := kv_file_ref st;
       bucket := bucket st; storage_calls := storage_calls st;
       console := console st |}).

(** Modelled from the spec: [kv.set] of [kv_store.tsx] on a [file_ref:] key. *)
Definition kv_set_file_ref (id : string) (v : FileRef) : Handler unit :=
  fun st => (Next tt,
    {| kv_user := kv_user st; kv_quota := kv_quota st; kv_file := kv_file st;
       kv_file_ref := <[id := v]> (kv_file_ref st); bucket := bucket st;
       storage_calls := storage_calls st; console := console st |}).

(** Modelled from the spec: [kv.del] of [kv_store.tsx] on a [file:] key. *)
Definition kv_del_file (hash : string) : Handler unit :=
  fun st => (Next tt,
    {| kv_user := kv_user st; kv_quota := kv_quota st;
       kv_file := delete hash (kv_file st); kv_file_ref := kv_file_ref st;
       bucket := bucket st; storage_calls := storage_calls st;
       console := console st |}).

(** Modelled from the spec: [kv.del] of [kv_store.tsx] on a [file_ref:] key. *)
Definition kv_del_file_ref (id : string) : Handler unit :=
  fun st => (Next tt,
    {| kv_user := kv_user st; kv_quota := kv_quota st; kv_file := kv_file st;
       kv_file_ref := delete id (kv_file_ref st); bucket := bucket st;
       storage_calls := storage_calls st; console := console st |}).

Definition console_log (l : LogLine) : Handler unit :=
  fun st => (Next tt,
    {| kv_user := kv_user st; kv_quota := kv_quota st; kv_file := kv_file st;
       kv_file_ref := kv_file_ref st; bucket := bucket st;
       storage_calls := storage_calls st; console := (console st ++ [l])%list |}).

(** [storage.from(BUCKET_NAME).upload(path, data, {upsert: false})]: answers
    with the service's fault if there is one, with an "already exists" error
    when the object is there, and stores the object otherwise.  The result
    is the [uploadError] message, if any. *)
Definition storage_upload (path : string) (data : list byte)
    (contentType : string) (fault : option string) : Handler (option string) :=
  fun st =>
    let st' bk :=
      {| kv_user := kv_user st; kv_quota := kv_quota st; kv_file := kv_file st;
         kv_file_ref := kv_file_ref st; bucket := bk;
         storage_calls := (storage_calls st ++ [StorageUpload path])%list;
         console := console st |} in
    match fault with
    | Some msg => (Next (Some msg), st' (bucket st))
    | None =>
        match bucket st !! path with
        | Some _ => (Next (Some "The resource already exists"), st' (bucket st))
        | None => (Next None, st' (<[path := (contentType, data)]> (bucket st)))
        end
    end.

(** [storage.from(BUCKET_NAME).remove([path])]; its result is ignored. *)
Definition storage_remove (path : string) : Handler unit :=
  fun st => (Next tt,
    {| kv_user := kv_user st; kv_quota := kv_quota st; kv_file := kv_file st;
       kv_file_ref := kv_file_ref st; bucket := delete path (bucket st);
       storage_calls := (storage_calls st ++ [StorageRemove path])%list;
       console := console st |}).

(** ** The edge function *)

Section Vault.

(** [crypto.subtle.digest('SHA-256', data)]: the digest is a library call,
    taken as given. *)
Variable sha256 : list byte → list byte.

(** Helper: calculate file hash *)
Definition calculateFileHash (fileData : list byte) : string :=
  hex_of_bytes (sha256 fileData).

(** Helper: check rate limit *)
Definition checkRateLimit (now : Z) (userId : string) : Handler bool :=
  quota <- kv_get_quota userId ;;
  let windowMs := 1000 in
  match quota with
  | None =>
      kv_set_quota userId
        {| q_user_id := None; storage_used := 0;
           storage_limit := DEFAULT_STORAGE_LIMIT; rate_limit := DEFAULT_RATE_LIMIT;
           last_request_time := now; request_count := 1 |} ;;;
      pure true
  | Some quota =>
      let timeSinceLastRequest := now - last_request_time quota in
      if windowMs <=? timeSinceLastRequest then
        kv_set_quota userId
          {| q_user_id := q_user_id quota; storage_used := storage_used quota;
             storage_limit := storage_limit quota; rate_limit := rate_limit quota;
             last_request_time := now; request_count := 1 |} ;;;
        pure true
      else if rate_limit quota <=? request_count quota then pure false
      else
        kv_set_quota userId
          {| q_user_id := q_user_id quota; storage_used := storage_used quota;
             storage_limit := storage_limit quota; rate_limit := rate_limit quota;
             last_request_time := last_request_time quota;
             request_count := request_count quota + 1 |} ;;;
        pure true
  end.

(** [`${user.id}:${fileHash}:${Date.now()}`] *)
Definition make_file_id (userId fileHash : string) (now : Z) : string :=
  userId ++ ":" ++ fileHash ++ ":" ++ pretty now.

Definition with_reference_count (f : FileMeta) (n : Z) : FileMeta :=
  {| fm_hash := fm_hash f; fm_mime_type := fm_mime_type f; fm_size := fm_size f;
     fm_storage_path := fm_storage_path f; fm_reference_count := n;
     fm_created_at := fm_created_at f |}.

Definition with_storage_used (q : Quota) (n : Z) : Quota :=
  {| q_user_id := q_user_id q; storage_used := n; storage_limit := storage_limit q;
     rate_limit := rate_limit q; last_request_time := last_request_time q;
     request_count := request_count q |}.

(** The 413 answer of the upload loop. *)
Definition quota_exceeded_response (q : Quota) (totalSize : Z) : Response :=
  JsonError 413
    ("Storage quota exceeded. Limit: " ++ pretty (storage_limit q) ++ " bytes, Used: "
     ++ pretty (storage_used q + totalSize) ++ " bytes").

(** Body of [for (const file of files)] in the upload route.  [totalSize]
    and [uploadedFiles] are the loop's two accumulators. *)
Definition upload_file (user : AuthUser) (userData : option UserRecord)
    (quotaData : option Quota) (tags : list string) (folderId : option string)
    (isPublic : bool) (totalSize : Z) (uploadedFiles : list FileRef)
    (it : UploadItem) : Handler (Z * list FileRef) :=
  let file := item_file it in
  let fileData := file_data file in
  let fileSize := Z.of_nat (length fileData) in
  (* Check storage quota *)
  match quotaData with
  | Some q =>
      if storage_limit q <? storage_used q + totalSize + fileSize
      then return_json (quota_exceeded_response q totalSize)
      else pure tt
  | None => pure tt
  end ;;;
  (* Calculate hash for deduplication *)
  let fileHash := calculateFileHash fileData in
  (* Validate MIME type *)
  let declaredMimeType := file_type file in
  let actualMimeType := getMimeTypeFromBuffer fileData in
  when (mime_mismatch declaredMimeType actualMimeType)
    (console_log (ConsoleWarn
       ("MIME type mismatch for " ++ file_name file ++ ": declared "
        ++ declaredMimeType ++ ", detected " ++ actualMimeType))) ;;;
  (* Check if file already exists *)
  existing <- kv_get_file fileHash ;;
  let isDeduplicated := match existing with Some _ => true | None => false end in
  p <- match existing with
       | Some existingFile => pure (existingFile, totalSize)
       | None =>
           (* Upload to storage *)
           let storagePath := fileHash in
           uploadError <- storage_upload storagePath fileData
                            (js_or declaredMimeType actualMimeType) (item_fault it) ;;
           match uploadError with
           | Some msg =>
               if negb (includes msg "already exists")
               then console_log (ConsoleError ("Storage upload error: " ++ msg)) ;;;
                    throw ("Failed to upload file: " ++ msg)
               else pure tt
           | None => pure tt
           end ;;;
           (* Create file metadata *)
           let existingFile :=
             {| fm_hash := fileHash;
                fm_mime_type := js_or declaredMimeType actualMimeType;
                fm_size := fileSize; fm_storage_path := storagePath;
                fm_reference_count := 0; fm_created_at := item_now it |} in
           kv_set_file fileHash existingFile ;;;
           pure (existingFile, totalSize + fileSize)
       end ;;
  let existingFile := fst p in
  let totalSize := snd p in
  (* Create user file reference *)
  let fileId := make_file_id (au_id user) fileHash (item_now it) in
  let fileReference :=
    {| fr_id := fileId; fr_hash := fileHash; fr_filename := file_name file;
       fr_mime_type := fm_mime_type existingFile; fr_size := fm_size existingFile;
       fr_upload_date := item_now it; fr_uploader_id := au_id user;
       fr_uploader_name :=
         js_or (match userData with Some u => u_name u | None => EmptyString end)
           (au_email user);
       fr_is_public := isPublic; fr_folder_id := folderId; fr_tags := tags;
       fr_storage_path := fm_storage_path existingFile; fr_download_count := 0;
       fr_is_deduplicated := isDeduplicated;
       fr_reference_count := fm_reference_count existingFile + 1 |} in
  kv_set_file_ref fileId fileReference ;;;
  (* Update reference count *)
  kv_set_file fileHash
    (with_reference_count existingFile (fm_reference_count existingFile + 1)) ;;;
  pure (totalSize, (uploadedFiles ++ [fileReference])%list).

Fixpoint upload_loop (user : AuthUser) (userData : option UserRecord)
    (quotaData : option Quota) (tags : list string) (folderId : option string)
    (isPublic : bool) (files : list UploadItem) (totalSize : Z)
    (uploadedFiles : list FileRef) : Handler (Z * list FileRef) :=
  match files with
  | [] => pure (totalSize, uploadedFiles)
  | it :: rest =>
      p <- upload_file user userData quotaData tags folderId isPublic
             totalSize uploadedFiles it ;;
      upload_loop user userData quotaData tags folderId isPublic rest (fst p) (snd p)
  end.

(** [app.post("/make-server-7f2aa9ae/upload", ...)], inside its [try]. *)
Definition upload_handler (now : Z) (req : UploadRequest) : Handler Response :=
  match req_auth req with
  | NoToken => return_json (JsonError 401 "No access token provided")
  | InvalidToken => throw "Unauthorized"
  | Authenticated user =>
      (* Check rate limit *)
      allowed <- checkRateLimit now (au_id user) ;;
      if negb allowed
      then return_json
             (JsonError 429 "Rate limit exceeded. Maximum 2 requests per second.")
      else
        tags <- match req_tags req with
                | TagsAbsent => pure []
                | TagsMalformed msg => throw msg
                | TagsJson tags => pure tags
                end ;;
        match req_files req with
        | [] => return_json (JsonError 400 "No files provided")
        | files =>
            userData <- kv_get_user (au_id user) ;;
            quotaData <- kv_get_quota (au_id user) ;;
            p <- upload_loop user userData quotaData tags (req_folder_id req)
                   (req_is_public req) files 0 [] ;;
            (* Update user quota *)
            match quotaData with
            | Some q =>
                kv_set_quota (au_id user)
                  (with_storage_used q (storage_used q + fst p))
            | None => pure tt
            end ;;;
            pure (OkFiles (snd p))
        end
  end.

Definition upload (now : Z) (req : UploadRequest) (st : Store) : Response * Store :=
  try_catch "Upload error:" (upload_handler now req) st.

(** [app.delete("/make-server-7f2aa9ae/files/:fileId", ...)], inside its [try]. *)
Definition delete_handler (auth : Auth) (fileId : string) : Handler Response :=
  match auth with
  | NoToken => return_json (JsonError 401 "No access token provided")
  | InvalidToken => throw "Unauthorized"
  | Authenticated user =>
      fileRef <- kv_get_file_ref fileId ;;
      match fileRef with
      | None => return_json (JsonError 404 "File not found")
      | Some fileRef =>
          (* Only uploader can delete *)
          if negb (String.eqb (fr_uploader_id fileRef) (au_id user))
          then return_json (JsonError 403 "Only the uploader can delete this file")
          else
            let fileHash := fr_hash fileRef in
            fileData <- kv_get_file fileHash ;;
            fileData <- match fileData with
                        | Some fd =>
                            (* Decrement reference count *)
                            let fd := with_reference_count fd (fm_reference_count fd - 1) in
                            (if fm_reference_count fd <=? 0
                             then storage_remove (fm_storage_path fd) ;;;
                                  kv_del_file fileHash
                             else kv_set_file fileHash fd) ;;;
                            pure (Some fd)
                        | None => pure None
                        end ;;
            (* Delete file reference *)
            kv_del_file_ref fileId ;;;
            (* Update user quota *)
            quotaData <- kv_get_quota (au_id user) ;;
            match quotaData, fileData with
            | Some q, Some fd =>
                if fm_reference_count fd <=? 0
                then kv_set_quota (au_id user)
                       (with_storage_used q (Z.max 0 (storage_used q - fr_size fileRef)))
                else pure tt
            | _, _ => pure tt
            end ;;;
            pure (OkMessage "File deleted successfully")
      end
  end.

Definition delete_file (auth : Auth) (fileId : string) (st : Store)
  : Response * Store :=
  try_catch "Delete error:" (delete_handler auth fileId) st.

(** The JSON body of a signup request. *)
Record SignupBody := {
  sb_email : string;
  sb_password : string;
  sb_name : string;
  sb_is_admin : bool
}.

(** [app.post("/make-server-7f2aa9ae/signup", ...)], inside its [try].
    [created] is the answer of [auth.admin.createUser]: the error message, or
    the id of the new user. *)
Definition signup_handler (now : Z) (body : SignupBody) (created : string + string)
  : Handler Response :=
  if String.eqb (sb_email body) EmptyString || String.eqb (sb_password body) EmptyString
     || String.eqb (sb_name body) EmptyString
  then return_json (JsonError 400 "Email, password, and name are required")
  else
    match created with
    | inl msg =>
        console_log (ConsoleError ("Signup error: " ++ msg)) ;;;
        return_json (JsonError 400 msg)
    | inr userId =>
        (* Create user record *)
        kv_set_user userId
          {| u_id := userId; u_email := sb_email body; u_name := sb_name body;
             u_is_admin := sb_is_admin body; u_created_at := now |} ;;;
        (* Initialize user quota *)
        kv_set_quota userId
          {| q_user_id := Some userId; storage_used := 0;
             storage_limit := DEFAULT_STORAGE_LIMIT; rate_limit := DEFAULT_RATE_LIMIT;
             last_request_time := now; request_count := 0 |} ;;;
        pure (OkUser userId)
    end.

Definition signup (now : Z) (body : SignupBody) (created : string + string)
    (st : Store) : Response * Store :=
  try_catch "Signup error:" (signup_handler now body created) st.

(** ** The browser-side paths ([fileOperations.ts] and its callers)

    These run against the same table and bucket.  They have no [try]: a
    thrown [Error] rejects the returned promise. *)

Inductive Outcome :=
| Resolved (r : Response)
| Rejected (msg : string).

Definition run_client (h : Handler Response) (st : Store) : Outcome * Store :=
  match h st with
  | (Next r, st') => (Resolved r, st')
  | (Return r, st') => (Resolved r, st')
  | (Throw msg, st') => (Rejected msg, st')
  end.

(** Get user quota: initialises the record when it is absent. *)
Definition getUserQuota (now : Z) (userId : string) : Handler Quota :=
  data <- kv_get_quota userId ;;
  match data with
  | None =>
      let defaultQuota :=
        {| q_user_id := Some userId; storage_used := 0;
           storage_limit := DEFAULT_STORAGE_LIMIT; rate_limit := DEFAULT_RATE_LIMIT;
           last_request_time := now; request_count := 0 |} in
      kv_set_quota userId defaultQuota ;;;
      pure defaultQuota
  | Some value => pure value
  end.

(** The thin wrappers of [fileOperations.ts] around the table. *)
Definition updateUserQuota (userId : string) (quota : Quota) : Handler unit :=
  kv_set_quota userId quota.
Definition getFileMetadata (hash : string) : Handler (option FileMeta) :=
  kv_get_file hash.
Definition storeFileMetadata (hash : string) (metadata : FileMeta) : Handler unit :=
  kv_set_file hash metadata.
Definition storeFileReference (fileId : string) (reference : FileRef) : Handler unit :=
  kv_set_file_ref fileId reference.
Definition deleteFileReference (fileId : string) : Handler unit :=
  kv_del_file_ref fileId.

Record UploadOptions := {
  opt_tags : option (list string);
  opt_folderId : option string;
  opt_isPublic : option bool
}.

(** Body of [for (const file of files)] in [uploadFilesClientSide].  The
    uploader name is read off the query answer itself ([userData?.value]),
    which has no such field, so it is always ['User']. *)
Definition client_upload_file (userId : string) (quota : Quota)
    (options : UploadOptions) (totalSize : Z) (uploadedFiles : list FileRef)
    (it : UploadItem) : Handler (Z * list FileRef) :=
  let file := item_file it in
  let fileSize := Z.of_nat (length (file_data file)) in
  (* Check quota *)
  (if storage_limit quota <? storage_used quota + totalSize + fileSize
   then throw ("Storage quota exceeded. Limit: " ++ pretty (storage_limit quota)
               ++ " bytes")
   else pure tt) ;;;
  (* Calculate hash *)
  let fileHash := calculateFileHash (file_data file) in
  (* Check if file exists *)
  existing <- getFileMetadata fileHash ;;
  let isDeduplicated := match existing with Some _ => true | None => false end in
  p <- match existing with
       | Some existingFile => pure (existingFile, totalSize)
       | None =>
           (* Upload to storage *)
           uploadError <- storage_upload fileHash (file_data file) (file_type file)
                            (item_fault it) ;;
           match uploadError with
           | Some msg =>
               if negb (includes msg "already exists")
               then throw ("Failed to upload file: " ++ msg)
               else pure tt
           | None => pure tt
           end ;;;
           (* Store metadata *)
           let existingFile :=
             {| fm_hash := fileHash; fm_mime_type := file_type file;
                fm_size := fileSize; fm_storage_path := fileHash;
                fm_reference_count := 0; fm_created_at := item_now it |} in
           storeFileMetadata fileHash existingFile ;;;
           pure (existingFile, totalSize + fileSize)
       end ;;
  let existingFile := fst p in
  let totalSize := snd p in
  (* Create file reference *)
  let fileId := make_file_id userId fileHash (item_now it) in
  let fileReference :=
    {| fr_id := fileId; fr_hash := fileHash; fr_filename := file_name file;
       fr_mime_type := file_type file; fr_size := fileSize;
       fr_upload_date := item_now it; fr_uploader_id := userId;
       fr_uploader_name := "User";
       fr_is_public := match opt_isPublic options with Some b => b | None => false end;
       fr_folder_id :=
         match opt_folderId options with
         | Some f => if String.eqb f EmptyString then None else Some f
         | None => None
         end;
       fr_tags := match opt_tags options with Some t => t | None => [] end;
       fr_storage_path := fileHash; fr_download_count := 0;
       fr_is_deduplicated := isDeduplicated;
       fr_reference_count := fm_reference_count existingFile + 1 |} in
  storeFileReference fileId fileReference ;;;
  (* Update reference count *)
  storeFileMetadata fileHash
    (with_reference_count existingFile (fm_reference_count existingFile + 1)) ;;;
  pure (totalSize, (uploadedFiles ++ [fileReference])%list).

Fixpoint client_upload_loop (userId : string) (quota : Quota)
    (options : UploadOptions) (files : list UploadItem) (totalSize : Z)
    (uploadedFiles : list FileRef) : Handler (Z * list FileRef) :=
  match files with
  | [] => pure (totalSize, uploadedFiles)
  | it :: rest =>
      p <- client_upload_file userId quota options totalSize uploadedFiles it ;;
      client_upload_loop userId quota options rest (fst p) (snd p)
  end.

(** [uploadFilesClientSide]; [userId] is the answer of [getCurrentUserId].
    The call to [ensureBucketExists] only creates the bucket when it is
    missing and swallows its own errors. *)
Definition uploadFilesClientSide_body (userId : option string) (now : Z)
    (files : list UploadItem) (options : UploadOptions) : Handler Response :=
  match userId with
  | None => throw "Not authenticated"
  | Some userId =>
      quota <- getUserQuota now userId ;;
      p <- client_upload_loop userId quota options files 0 [] ;;
      (* Update quota *)
      updateUserQuota userId (with_storage_used quota (storage_used quota + fst p)) ;;;
      pure (OkFiles (snd p))
  end.

Definition uploadFilesClientSide (userId : option string) (now : Z)
    (files : list UploadItem) (options : UploadOptions) (st : Store)
  : Outcome * Store :=
  run_client (uploadFilesClientSide_body userId now files options) st.

(** [deleteFileClientSide]; [now] is the clock [getUserQuota] reads when it
    has to initialise the caller's quota record. *)
Definition deleteFileClientSide_body (userId : option string) (now : Z)
    (fileId : string) : Handler Response :=
  match userId with
  | None => throw "Not authenticated"
  | Some userId =>
      fileRefData <- kv_get_file_ref fileId ;;
      match fileRefData with
      | None => throw "File not found"
      | Some fileRef =>
          (* Check ownership *)
          if negb (String.eqb (fr_uploader_id fileRef) userId)
          then throw "Only the uploader can delete this file"
          else
            let fileHash := fr_hash fileRef in
            fileData <- getFileMetadata fileHash ;;
            fileData <- match fileData with
                        | Some fd =>
                            (* Decrement reference count *)
                            let fd := with_reference_count fd (fm_reference_count fd - 1) in
                            (if fm_reference_count fd <=? 0
                             then storage_remove (fm_storage_path fd) ;;;
                                  kv_del_file fileHash
                             else storeFileMetadata fileHash fd) ;;;
                            pure (Some fd)
                        | None => pure None
                        end ;;
            (* Delete reference *)
            deleteFileReference fileId ;;;
            (* Update quota *)
            quota <- getUserQuota now userId ;;
            match fileData with
            | Some fd =>
                if fm_reference_count fd <=? 0
                then updateUserQuota userId
                       (with_storage_used quota
                          (Z.max 0 (storage_used quota - fr_size fileRef)))
                else pure tt
            | None => pure tt
            end ;;;
            pure (OkMessage "File deleted successfully")
      end
  end.

Definition deleteFileClientSide (userId : option string) (now : Z)
    (fileId : string) (st : Store) : Outcome * Store :=
  run_client (deleteFileClientSide_body userId now fileId) st.

(** ** Histories *)

Inductive Op :=
| Signup (now : Z) (body : SignupBody) (created : string + string)
| Upload (now : Z) (req : UploadRequest)
| Delete (auth : Auth) (fileId : string)
| ClientUpload (userId : option string) (now : Z) (files : list UploadItem)
    (options : UploadOptions)
| ClientDelete (userId : option string) (now : Z) (fileId : string).

Definition step (op : Op) (st : Store) : Store :=
  match op with
  | Signup now body created => snd (signup now body created st)
  | Upload now req => snd (upload now req st)
  | Delete auth fileId => snd (delete_file auth fileId st)
  | ClientUpload userId now files options =>
      snd (uploadFilesClientSide userId now files options st)
  | ClientDelete userId now fileId => snd (deleteFileClientSide userId now fileId st)
  end.

Definition run (ops : list Op) (st : Store) : Store :=
  fold_left (fun s op => step op s) ops st.

(** The stores a history of signup, upload and delete requests leads to
    from the empty table and bucket. *)
Inductive reachable : Store → Prop :=
| reachable_empty : reachable empty_store
| reachable_step op st : reachable st → reachable (step op st).

End Vault.

(** ** Invariants of the ledgers *)

(** Number of entries of the ownership ledger that point at hash [h]. *)
Definition nrefs (h : string) (refs : gmap string FileRef) : nat :=
  size (filter (λ kv : string * FileRef, fr_hash kv.2 = h) refs).

Definition quota_nonneg (st : Store) : Prop :=
  ∀ u q, kv_quota st !! u = Some q → 0 ≤ storage_used q.

(** A stored content record counts at least one reference, counts no fewer
    references than there are entries for its hash, and lives under its
    hash; a hash without record has no entries. *)
Definition refcount_consistent (st : Store) : Prop :=
  ∀ h, match kv_file st !! h with
       | Some f =>
           1 ≤ fm_reference_count f
           ∧ Z.of_nat (nrefs h (kv_file_ref st)) ≤ fm_reference_count f
           ∧ fm_storage_path f = h
       | None => nrefs h (kv_file_ref st) = 0%nat
       end.

Definition vault_inv (st : Store) : Prop :=
  quota_nonneg st ∧ refcount_consistent st.

(** What a loop iteration that stops early leaves behind: the four ledgers
    and the bucket as they were. *)
Definition ledgers_kept (st st' : Store) : Prop :=
  kv_user st' = kv_user st ∧ kv_quota st' = kv_quota st
  ∧ kv_file st' = kv_file st ∧ kv_file_ref st' = kv_file_ref st
  ∧ bucket st' = bucket st.

(** What a completed loop iteration does to the ledgers. *)
Definition entry_added (userId h : string) (now : Z) (st st' : Store) : Prop :=
  kv_user st' = kv_user st ∧ kv_quota st' = kv_quota st
  ∧ (∀ p, is_Some (bucket st !! p) → is_Some (bucket st' !! p))
  ∧ ∃ ref e,
      kv_file_ref st' = <[make_file_id userId h now := ref]> (kv_file_ref st)
      ∧ fr_hash ref = h
      ∧ kv_file st' = <[h := e]> (kv_file st)
      ∧ match kv_file st !! h with
        | Some e0 =>
            fm_reference_count e = fm_reference_count e0 + 1
            ∧ fm_storage_path e = fm_storage_path e0
        | None => fm_reference_count e = 1 ∧ fm_storage_path e = h
        end.

Definition grows {V} (m m' : gmap string V) : Prop :=
  ∀ k, is_Some (m !! k) → is_Some (m' !! k).

(** File ids an upload of [files] by [userId] writes entries under. *)
Definition minted_ids (sha256 : list byte → list byte) (userId : string)
    (files : list UploadItem) : list string :=
  map (λ it, make_file_id userId
               (calculateFileHash sha256 (file_data (item_file it))) (item_now it))
      files.

(** What any run of the upload loop, complete or cut short, does to the
    store: users and quotas untouched, records and objects only added,
    entries written under the minted ids only. *)
Definition loop_rel (ids : list string) (st st' : Store) : Prop :=
  kv_user st' = kv_user st ∧ kv_quota st' = kv_quota st
  ∧ (refcount_consistent st → refcount_consistent st')
  ∧ grows (bucket st) (bucket st')
  ∧ grows (kv_file st) (kv_file st')
  ∧ (∀ fid, fid ∉ ids → kv_file_ref st' !! fid = kv_file_ref st !! fid).

(** Ids an upload request or a browser-side upload writes entries under. *)
Definition upload_mints (sha256 : list byte → list byte) (req : UploadRequest)
  : list string :=
  match req_auth req with
  | Authenticated user => minted_ids sha256 (au_id user) (req_files req)
  | _ => []
  end.

Definition client_upload_mints (sha256 : list byte → list byte)
    (userId : option string) (files : list UploadItem) : list string :=
  match userId with
  | Some userId => minted_ids sha256 userId files
  | None => []
  end.

(** What an upload request as a whole does to the store. *)
Definition upload_rel (ids : list string) (st st' : Store) : Prop :=
  (quota_nonneg st → quota_nonneg st')
  ∧ (refcount_consistent st → refcount_consistent st')
  ∧ grows (bucket st) (bucket st')
  ∧ grows (kv_file st) (kv_file st')
  ∧ (∀ fid, fid ∉ ids → kv_file_ref st' !! fid = kv_file_ref st !! fid).

(** The entry a request removes, with its id: the request is a delete by
    an identified caller, the entry exists and the caller uploaded it. *)
Definition owned_entry (userId fileId : string) (st : Store)
  : option (string * FileRef) :=
  match kv_file_ref st !! fileId with
  | Some ref =>
      if String.eqb (fr_uploader_id ref) userId then Some (fileId, ref) else None
  | None => None
  end.

Definition delete_target (op : Op) (st : Store) : option (string * FileRef) :=
  match op with
  | Delete (Authenticated user) fileId => owned_entry (au_id user) fileId st
  | ClientDelete (Some userId) _ fileId => owned_entry userId fileId st
  | _ => None
  end.

Definition op_mints (sha256 : list byte → list byte) (op : Op) : list string :=
  match op with
  | Upload _ req => upload_mints sha256 req
  | ClientUpload userId _ files _ => client_upload_mints sha256 userId files
  | _ => []
  end.

(** What a delete that goes through does to the store. *)
Definition removal_of (fileId : string) (ref : FileRef) (st st' : Store) : Prop :=
  kv_user st' = kv_user st
  ∧ (quota_nonneg st → quota_nonneg st')
  ∧ kv_file_ref st' = delete fileId (kv_file_ref st)
  ∧ match kv_file st !! fr_hash ref with
    | Some fd =>
        if fm_reference_count fd - 1 <=? 0
        then kv_file st' = delete (fr_hash ref) (kv_file st)
             ∧ bucket st' = delete (fm_storage_path fd) (bucket st)
        else kv_file st' =
               <[fr_hash ref := with_reference_count fd (fm_reference_count fd - 1)]>
                 (kv_file st)
             ∧ bucket st' = bucket st
    | None => kv_file st' = kv_file st ∧ bucket st' = bucket st
    end.

(** The request removes the last reference to the content with hash [h]:
    it removes an entry for [h] whose record's count, decremented, is 0. *)
Definition drops_last_reference (op : Op) (h : string) (st : Store) : Prop :=
  ∃ fileId ref fd,
    delete_target op st = Some (fileId, ref) ∧ fr_hash ref = h
    ∧ kv_file st !! h = Some fd ∧ fm_reference_count fd - 1 = 0.

(** The quota guard of the upload loop lets a file of [fileSize] bytes
    through. *)
Definition quota_allows (quotaData : option Quota) (totalSize fileSize : Z) : Prop :=
  match quotaData with
  | Some q => storage_used q + totalSize + fileSize ≤ storage_limit q
  | None => True
  end.

(** The warning the upload loop logs for a file, if any. *)
Definition mime_warning (file : File) : list LogLine :=
  let declaredMimeType := file_type file in
  let actualMimeType := getMimeTypeFromBuffer (file_data file) in
  if mime_mismatch declaredMimeType actualMimeType
  then [ConsoleWarn ("MIME type mismatch for " ++ file_name file ++ ": declared "
                     ++ declaredMimeType ++ ", detected " ++ actualMimeType)]
  else [].

(** The answer of the storage service does not stop the upload: no fault of
    its own, or a fault whose message the loop takes for "already exists". *)
Definition fault_benign (fault : option string) : Prop :=
  match fault with
  | None => True
  | Some msg => includes msg "already exists" = true
  end.

Definition tags_well_formed (t : ParsedTags) : Prop :=
  match t with TagsMalformed _ => False | _ => True end.

(** ** Worked scenarios

    The scenarios run with [sample_digest] in place of SHA-256: the vault
    only stores and compares digests, and the general statements below hold
    for every digest function. *)

Definition sample_digest (data : list byte) : list byte := data.

Definition U1 : AuthUser := {| au_id := "u1"; au_email := "u1@vault.test" |}.
Definition U2 : AuthUser := {| au_id := "u2"; au_email := "u2@vault.test" |}.

(** Content B: a PNG signature and one more byte. *)
Definition bytesB : list byte := [x89; x50; x4e; x47; x0d].
(** Content A: five bytes of no known signature. *)
Definition bytesA : list byte := [x61; x62; x63; x64; x65].
(** Content C: five other bytes of no known signature. *)
Definition bytesC : list byte := [x31; x32; x33; x34; x35].

Definition sample_file (name declared : string) (data : list byte) (now : Z)
  : UploadItem :=
  {| item_file := {| file_name := name; file_type := declared; file_data := data |};
     item_now := now; item_fault := None |}.

Definition sample_request (user : AuthUser) (files : list UploadItem) : UploadRequest :=
  {| req_auth := Authenticated user; req_files := files; req_tags := TagsAbsent;
     req_folder_id := None; req_is_public := false |}.

Definition sample_signup (name : string) : Op :=
  Signup 0 {| sb_email := name ++ "@vault.test"; sb_password := "secret";
              sb_name := name; sb_is_admin := false |} (inr name).

Definition hashB : string := calculateFileHash sample_digest bytesB.
Definition hashA : string := calculateFileHash sample_digest bytesA.
Definition idB1 : string := make_file_id "u1" hashB 1000.
Definition idB2 : string := make_file_id "u2" hashB 5000.
Definition idA2 : string := make_file_id "u2" hashA 5000.

(** Both owners sign up and U1 uploads B. *)
Definition history_first_upload : list Op :=
  [sample_signup "u1"; sample_signup "u2";
   Upload 1000 (sample_request U1 [sample_file "b.png" "image/png" bytesB 1000])].
Definition store_first_upload : Store :=
  run sample_digest history_first_upload empty_store.

(** Scenario A: then U2 uploads the same bytes. *)
Definition upload_B_by_U2 : UploadRequest :=
  sample_request U2 [sample_file "copy.png" "image/png" bytesB 5000].
Definition history_shared : list Op :=
  (history_first_upload ++ [Upload 5000 upload_B_by_U2])%list.
Definition store_shared : Store := run sample_digest history_shared empty_store.

(** Scenarios B and C: then U1 removes their entry, then U2 theirs. *)
Definition history_reclaimed : list Op :=
  (history_shared ++ [Delete (Authenticated U1) idB1; Delete (Authenticated U2) idB2])%list.
Definition store_reclaimed : Store := run sample_digest history_reclaimed empty_store.

(** The same bytes B uploaded by U2 with another declared type. *)
Definition upload_B_as_text : UploadRequest :=
  sample_request U2 [sample_file "notes.txt" "text/plain" bytesB 5000].

(** A store in which U2 has all but [free] bytes of the default limit
    charged. *)
Definition nearly_full (free : Z) (st : Store) : Store :=
  {| kv_user := kv_user st;
     kv_quota :=
       <["u2" := {| q_user_id := Some "u2"; storage_used := DEFAULT_STORAGE_LIMIT - free;
                    storage_limit := DEFAULT_STORAGE_LIMIT;
                    rate_limit := DEFAULT_RATE_LIMIT; last_request_time := 0;
                    request_count := 0 |}]> (kv_quota st);
     kv_file := kv_file st; kv_file_ref := kv_file_ref st; bucket := bucket st;
     storage_calls := storage_calls st; console := console st |}.

(** A batch of two new files, five bytes each. *)
Definition batch_A_then_C : UploadRequest :=
  sample_request U2
    [sample_file "a.bin" EmptyString bytesA 5000;
     sample_file "c.bin" EmptyString bytesC 5000].

(** An entry whose content record is gone. *)
Definition store_dangling : Store :=
  {| kv_user := kv_user store_first_upload; kv_quota := kv_quota store_first_upload;
     kv_file := ∅; kv_file_ref := kv_file_ref store_first_upload;
     bucket := bucket store_first_upload;
     storage_calls := storage_calls store_first_upload;
     console := console store_first_upload |}.

(** Scenario B alone: U1 has removed their entry, U2 still holds theirs. *)
Definition history_after_first_delete : list Op :=
  (history_shared ++ [Delete (Authenticated U1) idB1])%list.
Definition store_after_first_delete : Store :=
  run sample_digest history_after_first_delete empty_store.

(** The record of content B after its first upload. *)
Definition recordB : FileMeta :=
  {| fm_hash := hashB; fm_mime_type := "image/png"; fm_size := 5;
     fm_storage_path := hashB; fm_reference_count := 1; fm_created_at := 1000 |}.

(** The quota record a signup writes. *)
Definition fresh_quota (userId : string) : Quota :=
  {| q_user_id := Some userId; storage_used := 0;
     storage_limit := DEFAULT_STORAGE_LIMIT; rate_limit := DEFAULT_RATE_LIMIT;
     last_request_time := 0; request_count := 0 |}.

(** The MIME types of the entries an upload answers with. *)
Definition response_mime_types (r : Response) : list string :=
  match r with
  | OkFiles files => map fr_mime_type files
  | _ => []
  end.

(** Requests after U1's remove: U2 removes theirs, then U1 uploads B anew. *)
Definition later_requests : list Op :=
  [Delete (Authenticated U2) idB2;
   Upload 9000 (sample_request U1 [sample_file "b.png" "image/png" bytesB 9000])].

(** ** More of the vault: notions used by the further properties *)

(** The sixteen characters [toString(16)] writes. *)
Definition hex_char (c : ascii) : bool :=
  existsb (Ascii.eqb c) (list_ascii_of_string "0123456789abcdef").

(** [sig] is an initial segment of [buffer], byte by byte. *)
Fixpoint bytes_prefix (sig buffer : list byte) : bool :=
  match sig, buffer with
  | [], _ => true
  | _ :: _, [] => false
  | s :: sig', b :: buffer' => Byte.eqb s b && bytes_prefix sig' buffer'
  end.

(** The value of a hexadecimal digit, and the byte two digits spell; only
    used to invert the rendering. *)
Definition hex_value (c : ascii) : option N :=
  (fix find (cs : list ascii) (n : N) : option N :=
     match cs with
     | [] => None
     | c' :: cs' => if Ascii.eqb c c' then Some n else find cs' (N.succ n)
     end) (list_ascii_of_string "0123456789abcdef") 0%N.

Definition byte_of_hex (s : string) : option byte :=
  match s with
  | String c1 (String c2 EmptyString) =>
      match hex_value c1, hex_value c2 with
      | Some h, Some l => Byte.of_N (h * 16 + l)
      | _, _ => None
      end
  | _ => None
  end.

(** The signatures [getMimeTypeFromBuffer] looks for, as bytes, in the order
    it tries them. *)
Definition magic_numbers : list (list byte * string) :=
  [([x89; x50; x4e; x47], "image/png");
   ([xff; xd8; xff], "image/jpeg");
   ([x47; x49; x46; x38], "image/gif");
   ([x25; x50; x44; x46], "application/pdf");
   ([x50; x4b; x03; x04], "application/zip")].

(** The type of the first signature the buffer begins with. *)
Fixpoint detect_by_magic_number (sigs : list (list byte * string))
    (buffer : list byte) : string :=
  match sigs with
  | [] => "application/octet-stream"
  | (sig, mime) :: rest =>
      if bytes_prefix sig buffer then mime else detect_by_magic_number rest buffer
  end.

(** Successive calls of [checkRateLimit] for one user, one per clock
    reading; the answers in order. *)
Fixpoint checkRateLimit_each (nows : list Z) (userId : string) : Handler (list bool) :=
  match nows with
  | [] => pure []
  | now :: rest =>
      allowed <- checkRateLimit now userId ;;
      answers <- checkRateLimit_each rest userId ;;
      pure (allowed :: answers)
  end.

(** A store that holds one quota record only. *)
Definition store_with_quota (userId : string) (q : Quota) : Store :=
  {| kv_user := ∅; kv_quota := {[ userId := q ]}; kv_file := ∅; kv_file_ref := ∅;
     bucket := ∅; storage_calls := []; console := [] |}.

(** A quota record whose window opened at 0 with [count] requests so far. *)
Definition quota_in_window (count : Z) : Quota :=
  {| q_user_id := Some "u1"; storage_used := 0; storage_limit := DEFAULT_STORAGE_LIMIT;
     rate_limit := DEFAULT_RATE_LIMIT; last_request_time := 0; request_count := count |}.

(** No [:] among the characters of [s]. *)
Definition colon_free (s : string) : bool :=
  forallb (λ c, negb (Ascii.eqb c ":")) (list_ascii_of_string s).

(** [files.reduce((sum, f) => f.is_deduplicated ? sum : sum + f.size, 0)],
    the [total_storage_used] of the stats route: the bytes of the entries
    that brought new content. *)
Definition totalStorageUsed (files : list FileRef) : Z :=
  fold_left (λ sum f, if fr_is_deduplicated f then sum else sum + fr_size f) files 0.

(** The running total [t] of an upload fits the caller's limit. *)
Definition within_limit (quotaData : option Quota) (t : Z) : Prop :=
  match quotaData with
  | Some q => storage_used q + t ≤ storage_limit q
  | None => True
  end.

(** No record or entry with a negative size. *)
Definition sizes_nonneg (st : Store) : Prop :=
  (∀ h f, kv_file st !! h = Some f → 0 ≤ fm_size f)
  ∧ (∀ fid r, kv_file_ref st !! fid = Some r → 0 ≤ fr_size r).

(** Every quota record is within its limit, and limit and rate are the
    defaults. *)
Definition quota_within (st : Store) : Prop :=
  ∀ u q, kv_quota st !! u = Some q →
    storage_used q ≤ storage_limit q
    ∧ storage_limit q = DEFAULT_STORAGE_LIMIT
    ∧ rate_limit q = DEFAULT_RATE_LIMIT.

Definition budget_inv (st : Store) : Prop := quota_within st ∧ sizes_nonneg st.

(** The entries an upload answers with. *)
Definition answer_files (r : Response) : list FileRef :=
  match r with
  | OkFiles files => files
  | _ => []
  end.

Definition is_error (r : Response) : Prop :=
  match r with
  | JsonError _ _ => True
  | _ => False
  end.

(** The quota record of an owner who signed up at 0, made one request at
    1000 and has [used] bytes charged. *)
Definition fresh_quota_charged (userId : string) (used : Z) : Quota :=
  {| q_user_id := Some userId; storage_used := used;
     storage_limit := DEFAULT_STORAGE_LIMIT; rate_limit := DEFAULT_RATE_LIMIT;
     last_request_time := 1000; request_count := 1 |}.

(** [formData.get('tags') ? JSON.parse(...) : []], once it has parsed. *)
Definition tags_of (t : ParsedTags) : list string :=
  match t with
  | TagsJson tags => tags
  | _ => []
  end.

(** Both owners have signed up; nothing is stored. *)
Definition store_signed_up : Store :=
  run sample_digest [sample_signup "u1"; sample_signup "u2"] empty_store.

(** U1 uploads B. *)
Definition first_upload : UploadRequest :=
  sample_request U1 [sample_file "b.png" "image/png" bytesB 1000].

(** U1 uploads B twice in one batch, both files handled at 1000. *)
Definition upload_B_twice : UploadRequest :=
  sample_request U1 [sample_file "b.png" "image/png" bytesB 1000;
                     sample_file "b-copy.png" "image/png" bytesB 1000].

(** ** Download, share and user info

    The routes that hand out, open up and describe what the ledgers hold.
    They read and write single keys like the routes above; a throw is
    answered by the route's own [catch]. *)

(** [share:{fileId}:{userId}] *)
Record ShareRecord := {
  sh_file_id : string;
  sh_shared_with_user_id : string;
  sh_shared_by_user_id : string;
  sh_created_at : Z
}.

(** The store together with the [share:] keys of the table. *)
Record World := {
  w_store : Store;
  w_share : gmap string ShareRecord
}.

Definition with_store (st : Store) (w : World) : World :=
  {| w_store := st; w_share := w_share w |}.

(** [`share:${fileId}:${userId}`], without the family's prefix. *)
Definition shareKey (fileId userId : string) : string := fileId ++ ":" ++ userId.

(** Modelled from the spec: [kv.get] of [kv_store.tsx] on a [share:] key. *)
Definition kv_get_share (key : string) (w : World) : option ShareRecord :=
  w_share w !! key.

(** Modelled from the spec: [kv.set] of [kv_store.tsx] on a [share:] key. *)
Definition kv_set_share (key : string) (v : ShareRecord) (w : World) : World :=
  {| w_store := w_store w; w_share := <[key := v]> (w_share w) |}.

(** [console.error(label, error)] of a [catch]. *)
Definition log_error (label msg : string) (st : Store) : Store :=
  snd (console_log (ConsoleError (label ++ " " ++ msg)) st).

Definition with_download_count (r : FileRef) (n : Z) : FileRef :=
  {| fr_id := fr_id r; fr_hash := fr_hash r; fr_filename := fr_filename r;
     fr_mime_type := fr_mime_type r; fr_size := fr_size r;
     fr_upload_date := fr_upload_date r; fr_uploader_id := fr_uploader_id r;
     fr_uploader_name := fr_uploader_name r; fr_is_public := fr_is_public r;
     fr_folder_id := fr_folder_id r; fr_tags := fr_tags r;
     fr_storage_path := fr_storage_path r; fr_download_count := n;
     fr_is_deduplicated := fr_is_deduplicated r;
     fr_reference_count := fr_reference_count r |}.

Definition with_is_public (r : FileRef) (b : bool) : FileRef :=
  {| fr_id := fr_id r; fr_hash := fr_hash r; fr_filename := fr_filename r;
     fr_mime_type := fr_mime_type r; fr_size := fr_size r;
     fr_upload_date := fr_upload_date r; fr_uploader_id := fr_uploader_id r;
     fr_uploader_name := fr_uploader_name r; fr_is_public := b;
     fr_folder_id := fr_folder_id r; fr_tags := fr_tags r;
     fr_storage_path := fr_storage_path r; fr_download_count := fr_download_count r;
     fr_is_deduplicated := fr_is_deduplicated r;
     fr_reference_count := fr_reference_count r |}.

(** JSON answers of the download route: [{download_url, filename, mime_type,
    size}] and [{error}] with its status code. *)
Inductive DownloadAnswer :=
| DownloadUrl (download_url filename mime_type : string) (size : Z)
| DownloadError (status : Z) (error : string).

(** The download route past its access check.  [signed] is the answer of
    [createSignedUrl]: the error message, or the signed URL. *)
Definition download_granted (fileId : string) (fileRef : FileRef)
    (signed : string + string) (w : World) : DownloadAnswer * World :=
  (* Generate signed URL *)
  match signed with
  | inl msg =>
      (DownloadError 500 "Failed to generate download URL",
       with_store (log_error "Create signed URL error:" msg (w_store w)) w)
  | inr url =>
      (* Increment download count *)
      let fileRef := with_download_count fileRef (fr_download_count fileRef + 1) in
      (DownloadUrl url (fr_filename fileRef) (fr_mime_type fileRef) (fr_size fileRef),
       with_store (snd (kv_set_file_ref fileId fileRef (w_store w))) w)
  end.

(** [app.get("/make-server-7f2aa9ae/download/:fileId", ...)] *)
Definition download_file (auth : Auth) (fileId : string) (signed : string + string)
    (w : World) : DownloadAnswer * World :=
  match auth with
  | NoToken => (DownloadError 401 "No access token provided", w)
  | InvalidToken =>
      (DownloadError 500 "Unauthorized",
       with_store (log_error "Download error:" "Unauthorized" (w_store w)) w)
  | Authenticated user =>
      match kv_file_ref (w_store w) !! fileId with
      | None => (DownloadError 404 "File not found", w)
      | Some fileRef =>
          (* Check access permissions *)
          if negb (fr_is_public fileRef)
             && negb (String.eqb (fr_uploader_id fileRef) (au_id user))
          then
            (* Check if shared with user *)
            match kv_get_share (shareKey fileId (au_id user)) w with
            | None => (DownloadError 403 "Access denied", w)
            | Some _ => download_granted fileId fileRef signed w
            end
          else download_granted fileId fileRef signed w
      end
  end.

(** What [downloadFileClientSide] resolves to or rejects with. *)
Inductive ClientDownload :=
| DownloadResolved (download_url filename mime_type : string) (size : Z)
| DownloadRejected (msg : string).

(** [downloadFileClientSide]: the browser-side download, on the store. *)
Definition downloadFileClientSide (fileId : string) (signed : string + string)
    (st : Store) : ClientDownload * Store :=
  match kv_file_ref st !! fileId with
  | None => (DownloadRejected "File not found", st)
  | Some fileRef =>
      (* Generate signed URL *)
      match signed with
      | inl _ => (DownloadRejected "Failed to generate download URL", st)
      | inr url =>
          (* Increment download count *)
          let fileRef := with_download_count fileRef (fr_download_count fileRef + 1) in
          (DownloadResolved url (fr_filename fileRef) (fr_mime_type fileRef)
             (fr_size fileRef),
           snd (kv_set_file_ref fileId fileRef st))
      end
  end.

(** The JSON body of a share request; an absent address is the empty
    string. *)
Record ShareBody := {
  share_file_id : string;
  share_is_public : bool;
  shared_with_user_email : string
}.

(** [app.post("/make-server-7f2aa9ae/share", ...)].  [allUsers] is the
    listing of the [user:] keys the table answers with. *)
Definition share_file (now : Z) (auth : Auth) (body : ShareBody)
    (allUsers : list UserRecord) (w : World) : Response * World :=
  match auth with
  | NoToken => (JsonError 401 "No access token provided", w)
  | InvalidToken =>
      (JsonError 500 "Unauthorized",
       with_store (log_error "Share error:" "Unauthorized" (w_store w)) w)
  | Authenticated user =>
      let file_id := share_file_id body in
      match kv_file_ref (w_store w) !! file_id with
      | None => (JsonError 404 "File not found", w)
      | Some fileRef =>
          if negb (String.eqb (fr_uploader_id fileRef) (au_id user))
          then (JsonError 403 "Only the uploader can share this file", w)
          else
            let w :=
              if share_is_public body
              then with_store
                     (snd (kv_set_file_ref file_id (with_is_public fileRef true)
                             (w_store w))) w
              else w in
            if negb (String.eqb (shared_with_user_email body) EmptyString)
            then
              (* Find user by email *)
              match find (λ u, String.eqb (u_email u) (shared_with_user_email body))
                      allUsers with
              | None => (JsonError 404 "User not found", w)
              | Some targetUser =>
                  (* Create share record *)
                  (OkMessage "File shared successfully",
                   kv_set_share (shareKey file_id (u_id targetUser))
                     {| sh_file_id := file_id;
                        sh_shared_with_user_id := u_id targetUser;
                        sh_shared_by_user_id := au_id user;
                        sh_created_at := now |} w)
              end
            else (OkMessage "File shared successfully", w)
      end
  end.

(** What the identity provider knows of the caller besides id and address:
    [user_metadata.name] (empty when absent), [user_metadata.is_admin]
    (false when absent) and [created_at]. *)
Record AuthProfile := {
  ap_name : string;
  ap_is_admin : bool;
  ap_created_at : Z
}.

(** JSON answers of the user route: the user record, and [{error}] with its
    status code. *)
Inductive UserAnswer :=
| UserInfo (userData : UserRecord)
| UserError (status : Z) (error : string).

(** [app.get("/make-server-7f2aa9ae/user", ...)] *)
Definition get_user (auth : Auth) (profile : AuthProfile) (st : Store)
  : UserAnswer * Store :=
  match auth with
  | NoToken => (UserError 401 "No access token provided", st)
  | InvalidToken =>
      (UserError 401 "Unauthorized", log_error "Get user error:" "Unauthorized" st)
  | Authenticated user =>
      match kv_user st !! au_id user with
      | None =>
          (* Create user data if not exists (for existing auth users) *)
          let newUserData :=
            {| u_id := au_id user; u_email := au_email user;
               u_name := js_or (js_or (ap_name profile) (split_head "@" (au_email user)))
                           "User";
               u_is_admin := ap_is_admin profile;
               u_created_at := ap_created_at profile |} in
          (UserInfo newUserData, snd (kv_set_user (au_id user) newUserData st))
      | Some userData => (UserInfo userData, st)
      end
  end.

Module FileOperations.

(** [checkRateLimit] of [fileOperations.ts]: the browser-side limiter.
    [now0] is the clock [getUserQuota] reads when it has to initialise the
    record, [now] the one the limiter reads after it. *)
Definition checkRateLimit (now0 now : Z) (userId : string) : Handler bool :=
  quota <- getUserQuota now0 userId ;;
  let windowMs := 1000 in
  let timeSinceLastRequest := now - last_request_time quota in
  if windowMs <=? timeSinceLastRequest then
    (* Reset window *)
    updateUserQuota userId
      {| q_user_id := q_user_id quota; storage_used := storage_used quota;
         storage_limit := storage_limit quota; rate_limit := rate_limit quota;
         last_request_time := now; request_count := 1 |} ;;;
    pure true
  else if rate_limit quota <=? request_count quota then pure false
  else
    updateUserQuota userId
      {| q_user_id := q_user_id quota; storage_used := storage_used quota;
         storage_limit := storage_limit quota; rate_limit := rate_limit quota;
         last_request_time := last_request_time quota;
         request_count := request_count quota + 1 |} ;;;
    pure true.

End FileOperations.

(** The fields of the quota table the rate limiter works on. *)
Definition rate_fields (q : Quota) : Z * Z * Z :=
  (rate_limit q, last_request_time q, request_count q).

Definition rate_fields_kept (st st' : Store) : Prop :=
  ∀ u, rate_fields <$> kv_quota st' !! u = rate_fields <$> kv_quota st !! u.

(** U1's entry for B in [store_first_upload], and a world with no share
    record around that store. *)
Definition world_first_upload : World :=
  {| w_store := store_first_upload; w_share := ∅ |}.

(** U1 shares their entry for B with the holder of [email]. *)
Definition share_B_with (email : string) (public : bool) : ShareBody :=
  {| share_file_id := idB1; share_is_public := public;
     shared_with_user_email := email |}.

(** The [user:] records of [store_first_upload], as the table lists them. *)
Definition sample_users : list UserRecord :=
  [{| u_id := "u1"; u_email := "u1@vault.test"; u_name := "u1"; u_is_admin := false;
      u_created_at := 0 |};
   {| u_id := "u2"; u_email := "u2@vault.test"; u_name := "u2"; u_is_admin := false;
      u_created_at := 0 |}].

(** Nothing that was open in [w] is closed in [w']: public entries are
    still there and public, share records are still there. *)
Definition sharing_kept (w w' : World) : Prop :=
  (∀ fid ref, kv_file_ref (w_store w) !! fid = Some ref → fr_is_public ref = true →
     ∃ ref', kv_file_ref (w_store w') !! fid = Some ref' ∧ fr_is_public ref' = true)
  ∧ (∀ key, is_Some (w_share w !! key) → is_Some (w_share w' !! key)).

(** What sits in the bucket under a path is content that hashes to that
    path. *)
Definition bucket_addressed (sha256 : list byte → list byte) (st : Store) : Prop :=
  ∀ p ct data, bucket st !! p = Some (ct, data) → calculateFileHash sha256 data = p.

(** A content record is stored under its own hash and points at the object
    of that name. *)
Definition records_keyed (st : Store) : Prop :=
  ∀ h f, kv_file st !! h = Some f → fm_hash f = h ∧ fm_storage_path f = h.

(** An entry is stored under its own id, the id is one minted for the
    entry's uploader and hash at some clock reading, and the entry points at
    the object named by its hash. *)
Definition entries_keyed (st : Store) : Prop :=
  ∀ fid ref, kv_file_ref st !! fid = Some ref →
    fr_id ref = fid
    ∧ (∃ now, fid = make_file_id (fr_uploader_id ref) (fr_hash ref) now)
    ∧ fr_storage_path ref = fr_hash ref.

Definition addressing_inv (sha256 : list byte → list byte) (st : Store) : Prop :=
  bucket_addressed sha256 st ∧ records_keyed st ∧ entries_keyed st.

(** The entries a browser-side upload resolves to. *)
Definition resolved_files (o : Outcome) : list FileRef :=
  match o with
  | Resolved r => answer_files r
  | Rejected _ => []
  end.

(** No options given to the browser-side upload. *)
Definition no_options : UploadOptions :=
  {| opt_tags := None; opt_folderId := None; opt_isPublic := None |}.

(** [shareFileClientSide]: the browser-side share.  [users] is the listing
    of the [user:] keys.  The share record it is about to write takes its
    [shared_by_user_id] from [user.id], and no [user] is in scope there:
    building the record throws a [ReferenceError], with the engine's message
    [referenceError], before anything is written. *)
Definition shareFileClientSide (referenceError : string) (userId : option string)
    (fileId : string) (isPublic : bool) (sharedWithUserEmail : string)
    (users : list UserRecord) (w : World) : Outcome * World :=
  match userId with
  | None => (Rejected "Not authenticated", w)
  | Some userId =>
      match kv_file_ref (w_store w) !! fileId with
      | None => (Rejected "File not found", w)
      | Some fileRef =>
          if negb (String.eqb (fr_uploader_id fileRef) userId)
          then (Rejected "Only the uploader can share this file", w)
          else
            let w :=
              if isPublic
              then with_store
                     (snd (kv_set_file_ref fileId (with_is_public fileRef true)
                             (w_store w))) w
              else w in
            if negb (String.eqb sharedWithUserEmail EmptyString)
            then
              (* Find user by email *)
              match find (λ u, String.eqb (u_email u) sharedWithUserEmail) users with
              | None => (Rejected "User not found", w)
              | Some targetUser =>
                  (* Create share record *)
                  (Rejected referenceError, w)
              end
            else (Resolved (OkMessage "File shared successfully"), w)
      end
  end.

(** Reading a hexadecimal rendering back, two characters a byte; only used
    to state what [hex_of_bytes] renders. *)
Fixpoint bytes_of_hex (s : string) : option (list byte) :=
  match s with
  | EmptyString => Some []
  | String c1 (String c2 rest) =>
      match byte_of_hex (String c1 (String c2 EmptyString)), bytes_of_hex rest with
      | Some b, Some l => Some (b :: l)
      | _, _ => None
      end
  | String _ EmptyString => None
  end.


(** ** Requests in flight

    A route is an [async] function: it runs until it awaits a call to the
    table or to the storage service, the call takes effect at some later
    moment, and the route runs on from its answer.  Between two calls of
    one request, calls of other requests may take effect.  [Steps] is what
    is left of a request: its awaited calls one by one, each with the code
    that runs on its answer.  Calls that touch neither table nor bucket
    (the identity provider, reading the form, hashing) are no steps of their
    own; what a route writes to the console runs with the step before it. *)

Inductive Steps (A : Type) : Type :=
| Done (a : A)
| Answered (r : Response)
| Thrown (msg : string)
| Log (l : LogLine) (k : Steps A)
| Await {X : Type} (call : Handler X) (k : X → Steps A).
Arguments Done {A} a.
Arguments Answered {A} r.
Arguments Thrown {A} msg.
Arguments Log {A} l k.
Arguments Await {A X} call k.

Fixpoint sbind {A B} (p : Steps A) (k : A → Steps B) : Steps B :=
  match p with
  | Done a => k a
  | Answered r => Answered r
  | Thrown msg => Thrown msg
  | Log l p' => Log l (sbind p' k)
  | Await call k' => Await call (λ x, sbind (k' x) k)
  end.

Notation "x <~ p ;; k" := (sbind p (fun x => k))
  (at level 20, p at level 99, k at level 200, only parsing).

(** [await call] *)
Definition call {X} (h : Handler X) : Steps X := Await h Done.

(** A call awaited inside a [try]: when it throws, the [catch] logs the
    error and answers 500. *)
Definition caught {X} (label : string) (call : Handler X) : Handler X :=
  fun st =>
    match call st with
    | (Throw msg, st') =>
        (Return (JsonError 500 msg),
         snd (console_log (ConsoleError (label ++ " " ++ msg)) st'))
    | r => r
    end.

(** [try { ... } catch (error) { console.error(label, error); return 500 }] *)
Fixpoint try_steps (label : string) (p : Steps Response) : Steps Response :=
  match p with
  | Done r => Answered r
  | Answered r => Answered r
  | Thrown msg => Log (ConsoleError (label ++ " " ++ msg)) (Answered (JsonError 500 msg))
  | Log l k => Log l (try_steps label k)
  | Await call k => Await (caught label call) (λ x, try_steps label (k x))
  end.

(** The steps of a request run one after the other, nothing in between. *)
Fixpoint atomically {A} (p : Steps A) : Handler A :=
  match p with
  | Done a => pure a
  | Answered r => return_json r
  | Thrown msg => throw msg
  | Log l k => console_log l ;;; atomically k
  | Await call k => x <- call ;; atomically (k x)
  end.

(** A request that runs alone, from its first call to its answer. *)
Definition alone (p : Steps Response) (st : Store) : Response * Store :=
  match atomically p st with
  | (Next r, st') => (r, st')
  | (Return r, st') => (r, st')
  | (Throw msg, st') => (JsonError 500 msg, st')
  end.

(** The route runs on, writing to the console, up to its next awaited call
    or to its end. *)
Fixpoint settle {A} (p : Steps A) (st : Store) : Steps A * Store :=
  match p with
  | Log l k => settle k (snd (console_log l st))
  | _ => (p, st)
  end.

(** One turn of a request in flight: its awaited call takes effect on the
    store and the route runs on from the answer. *)
Definition turn {A} (p : Steps A) (st : Store) : Steps A * Store :=
  match p with
  | Await call k =>
      match call st with
      | (Next x, st') => settle (k x) st'
      | (Return r, st') => (Answered r, st')
      | (Throw msg, st') => (Thrown msg, st')
      end
  | _ => settle p st
  end.

(** The requests in flight, and the store they share.  [advance i] gives
    request [i] its turn; a schedule is the order of the turns. *)
Fixpoint advance_nth {A} (i : nat) (pool : list (Steps A)) (st : Store)
  : list (Steps A) * Store :=
  match pool, i with
  | [], _ => ([], st)
  | p :: rest, O => let r := turn p st in (fst r :: rest, snd r)
  | p :: rest, S i' => let r := advance_nth i' rest st in (p :: fst r, snd r)
  end.

Definition interleave {A} (schedule : list nat) (pool : list (Steps A)) (st : Store)
  : list (Steps A) * Store :=
  fold_left (λ ps i, advance_nth i (fst ps) (snd ps)) schedule (pool, st).

(** The answer of a request that has come to its end. *)
Definition answer_of (p : Steps Response) : option Response :=
  match p with
  | Done r => Some r
  | Answered r => Some r
  | _ => None
  end.

(** [checkRateLimit], call by call. *)
Definition checkRateLimit_steps (now : Z) (userId : string) : Steps bool :=
  quota <~ call (kv_get_quota userId) ;;
  let windowMs := 1000 in
  match quota with
  | None =>
      _ <~ call (kv_set_quota userId
                   {| q_user_id := None; storage_used := 0;
                      storage_limit := DEFAULT_STORAGE_LIMIT;
                      rate_limit := DEFAULT_RATE_LIMIT;
                      last_request_time := now; request_count := 1 |}) ;;
      Done true
  | Some quota =>
      let timeSinceLastRequest := now - last_request_time quota in
      if windowMs <=? timeSinceLastRequest then
        _ <~ call (kv_set_quota userId
                     {| q_user_id := q_user_id quota; storage_used := storage_used quota;
                        storage_limit := storage_limit quota;
                        rate_limit := rate_limit quota;
                        last_request_time := now; request_count := 1 |}) ;;
        Done true
      else if rate_limit quota <=? request_count quota then Done false
      else
        _ <~ call (kv_set_quota userId
                     {| q_user_id := q_user_id quota; storage_used := storage_used quota;
                        storage_limit := storage_limit quota;
                        rate_limit := rate_limit quota;
                        last_request_time := last_request_time quota;
                        request_count := request_count quota + 1 |}) ;;
        Done true
  end.

Section InFlight.

Variable sha256 : list byte → list byte.

(** Body of [for (const file of files)] in the upload route, call by call. *)
Definition upload_file_steps (user : AuthUser) (userData : option UserRecord)
    (quotaData : option Quota) (tags : list string) (folderId : option string)
    (isPublic : bool) (totalSize : Z) (uploadedFiles : list FileRef)
    (it : UploadItem) : Steps (Z * list FileRef) :=
  let file := item_file it in
  let fileData := file_data file in
  let fileSize := Z.of_nat (length fileData) in
  (* Check storage quota *)
  _ <~ match quotaData with
       | Some q =>
           if storage_limit q <? storage_used q + totalSize + fileSize
           then Answered (quota_exceeded_response q totalSize)
           else Done tt
       | None => Done tt
       end ;;
  (* Calculate hash for deduplication *)
  let fileHash := calculateFileHash sha256 fileData in
  (* Validate MIME type *)
  let declaredMimeType := file_type file in
  let actualMimeType := getMimeTypeFromBuffer fileData in
  _ <~ (if mime_mismatch declaredMimeType actualMimeType
        then Log (ConsoleWarn
                    ("MIME type mismatch for " ++ file_name file ++ ": declared "
                     ++ declaredMimeType ++ ", detected " ++ actualMimeType))
               (Done tt)
        else Done tt) ;;
  (* Check if file already exists *)
  existing <~ call (kv_get_file fileHash) ;;
  let isDeduplicated := match existing with Some _ => true | None => false end in
  p <~ match existing with
       | Some existingFile => Done (existingFile, totalSize)
       | None =>
           (* Upload to storage *)
           let storagePath := fileHash in
           uploadError <~ call (storage_upload storagePath fileData
                                  (js_or declaredMimeType actualMimeType)
                                  (item_fault it)) ;;
           _ <~ match uploadError with
                | Some msg =>
                    if negb (includes msg "already exists")
                    then Log (ConsoleError ("Storage upload error: " ++ msg))
                           (Thrown ("Failed to upload file: " ++ msg))
                    else Done tt
                | None => Done tt
                end ;;
           (* Create file metadata *)
           let existingFile :=
             {| fm_hash := fileHash;
                fm_mime_type := js_or declaredMimeType actualMimeType;
                fm_size := fileSize; fm_storage_path := storagePath;
                fm_reference_count := 0; fm_created_at := item_now it |} in
           _ <~ call (kv_set_file fileHash existingFile) ;;
           Done (existingFile, totalSize + fileSize)
       end ;;
  let existingFile := fst p in
  let totalSize := snd p in
  (* Create user file reference *)
  let fileId := make_file_id (au_id user) fileHash (item_now it) in
  let fileReference :=
    {| fr_id := fileId; fr_hash := fileHash; fr_filename := file_name file;
       fr_mime_type := fm_mime_type existingFile; fr_size := fm_size existingFile;
       fr_upload_date := item_now it; fr_uploader_id := au_id user;
       fr_uploader_name :=
         js_or (match userData with Some u => u_name u | None => EmptyString end)
           (au_email user);
       fr_is_public := isPublic; fr_folder_id := folderId; fr_tags := tags;
       fr_storage_path := fm_storage_path existingFile; fr_download_count := 0;
       fr_is_deduplicated := isDeduplicated;
       fr_reference_count := fm_reference_count existingFile + 1 |} in
  _ <~ call (kv_set_file_ref fileId fileReference) ;;
  (* Update reference count *)
  _ <~ call (kv_set_file fileHash
               (with_reference_count existingFile
                  (fm_reference_count existingFile + 1))) ;;
  Done (totalSize, (uploadedFiles ++ [fileReference])%list).

Fixpoint upload_loop_steps (user : AuthUser) (userData : option UserRecord)
    (quotaData : option Quota) (tags : list string) (folderId : option string)
    (isPublic : bool) (files : list UploadItem) (totalSize : Z)
    (uploadedFiles : list FileRef) : Steps (Z * list FileRef) :=
  match files with
  | [] => Done (totalSize, uploadedFiles)
  | it :: rest =>
      p <~ upload_file_steps user userData quotaData tags folderId isPublic
             totalSize uploadedFiles it ;;
      upload_loop_steps user userData quotaData tags folderId isPublic rest
        (fst p) (snd p)
  end.

(** The upload route inside its [try], call by call. *)
Definition upload_handler_steps (now : Z) (req : UploadRequest) : Steps Response :=
  match req_auth req with
  | NoToken => Answered (JsonError 401 "No access token provided")
  | InvalidToken => Thrown "Unauthorized"
  | Authenticated user =>
      (* Check rate limit *)
      allowed <~ checkRateLimit_steps now (au_id user) ;;
      if negb allowed
      then Answered
             (JsonError 429 "Rate limit exceeded. Maximum 2 requests per second.")
      else
        tags <~ match req_tags req with
                | TagsAbsent => Done []
                | TagsMalformed msg => Thrown msg
                | TagsJson tags => Done tags
                end ;;
        match req_files req with
        | [] => Answered (JsonError 400 "No files provided")
        | files =>
            userData <~ call (kv_get_user (au_id user)) ;;
            quotaData <~ call (kv_get_quota (au_id user)) ;;
            p <~ upload_loop_steps user userData quotaData tags (req_folder_id req)
                   (req_is_public req) files 0 [] ;;
            (* Update user quota *)
            _ <~ match quotaData with
                 | Some q =>
                     call (kv_set_quota (au_id user)
                             (with_storage_used q (storage_used q + fst p)))
                 | None => Done tt
                 end ;;
            Done (OkFiles (snd p))
        end
  end.

(** The upload route as a request in flight. *)
Definition upload_steps (now : Z) (req : UploadRequest) : Steps Response :=
  try_steps "Upload error:" (upload_handler_steps now req).

End InFlight.

(** The delete route inside its [try], call by call. *)
Definition delete_handler_steps (auth : Auth) (fileId : string) : Steps Response :=
  match auth with
  | NoToken => Answered (JsonError 401 "No access token provided")
  | InvalidToken => Thrown "Unauthorized"
  | Authenticated user =>
      fileRef <~ call (kv_get_file_ref fileId) ;;
      match fileRef with
      | None => Answered (JsonError 404 "File not found")
      | Some fileRef =>
          (* Only uploader can delete *)
          if negb (String.eqb (fr_uploader_id fileRef) (au_id user))
          then Answered (JsonError 403 "Only the uploader can delete this file")
          else
            let fileHash := fr_hash fileRef in
            fileData <~ call (kv_get_file fileHash) ;;
            fileData <~ match fileData with
                        | Some fd =>
                            (* Decrement reference count *)
                            let fd :=
                              with_reference_count fd (fm_reference_count fd - 1) in
                            _ <~ (if fm_reference_count fd <=? 0
                                  then _ <~ call (storage_remove (fm_storage_path fd)) ;;
                                       call (kv_del_file fileHash)
                                  else call (kv_set_file fileHash fd)) ;;
                            Done (Some fd)
                        | None => Done None
                        end ;;
            (* Delete file reference *)
            _ <~ call (kv_del_file_ref fileId) ;;
            (* Update user quota *)
            quotaData <~ call (kv_get_quota (au_id user)) ;;
            _ <~ match quotaData, fileData with
                 | Some q, Some fd =>
                     if fm_reference_count fd <=? 0
                     then call (kv_set_quota (au_id user)
                                  (with_storage_used q
                                     (Z.max 0 (storage_used q - fr_size fileRef))))
                     else Done tt
                 | _, _ => Done tt
                 end ;;
            Done (OkMessage "File deleted successfully")
      end
  end.

(** The delete route as a request in flight. *)
Definition delete_steps (auth : Auth) (fileId : string) : Steps Response :=
  try_steps "Delete error:" (delete_handler_steps auth fileId).


(** *** Two uploads of the same new bytes, in flight together

    U1's upload starts at 1000 and U2's at 1001; each reads the content
    record of B before the other has written it. *)
Definition race_upload (user : AuthUser) (name : string) (clock : Z) : UploadRequest :=
  sample_request user [sample_file name "image/png" bytesB clock].

Definition id_race_1 : string := make_file_id "u1" hashB 1002.
Definition id_race_2 : string := make_file_id "u2" hashB 1003.

Definition racing_uploads : list (Steps Response) :=
  [upload_steps sample_digest 1000 (race_upload U1 "b.png" 1002);
   upload_steps sample_digest 1001 (race_upload U2 "copy.png" 1003)].

(** U1 takes five turns, up to its read of the content record; U2 takes
    five, up to the same read; then U1 runs to its end, then U2. *)
Definition race_schedule : list nat :=
  [0; 0; 0; 0; 0; 1; 1; 1; 1; 1; 0; 0; 0; 0; 0; 1; 1; 1; 1; 1]%nat.

Definition store_raced : Store :=
  snd (interleave race_schedule racing_uploads store_signed_up).

(** The ids of the entries a finished upload answered with. *)
Definition answered_ids (p : Steps Response) : option (list string) :=
  match answer_of p with
  | Some (OkFiles files) => Some (map fr_id files)
  | _ => None
  end.

(** *** The same delete sent twice, both in flight together *)
Definition double_delete : list (Steps Response) :=
  [delete_steps (Authenticated U1) idB1; delete_steps (Authenticated U1) idB1].

(** Both read the entry; then the first runs to its end, then the second. *)
Definition double_delete_schedule : list nat :=
  [0; 1; 0; 0; 0; 0; 0; 0; 1; 1; 1]%nat.


(** ** Requests handled one after another

    Every route of the model as one kind of request, on the store with its
    share records; [serve] handles a request from its first call to its
    answer with no other request in between. *)

Inductive Request :=
| DoOp (op : Op)
| DoDownload (auth : Auth) (fileId : string) (signed : string + string)
| DoClientDownload (fileId : string) (signed : string + string)
| DoShare (now : Z) (auth : Auth) (body : ShareBody) (allUsers : list UserRecord)
| DoClientShare (referenceError : string) (userId : option string) (fileId : string)
    (isPublic : bool) (sharedWithUserEmail : string) (users : list UserRecord)
| DoGetUser (auth : Auth) (profile : AuthProfile).

Definition empty_world : World := {| w_store := empty_store; w_share := ∅ |}.

Definition serve (sha256 : list byte → list byte) (req : Request) (w : World) : World :=
  match req with
  | DoOp op => with_store (step sha256 op (w_store w)) w
  | DoDownload auth fileId signed => snd (download_file auth fileId signed w)
  | DoClientDownload fileId signed =>
      with_store (snd (downloadFileClientSide fileId signed (w_store w))) w
  | DoShare now auth body allUsers => snd (share_file now auth body allUsers w)
  | DoClientShare referenceError userId fileId isPublic email users =>
      snd (shareFileClientSide referenceError userId fileId isPublic email users w)
  | DoGetUser auth profile => with_store (snd (get_user auth profile (w_store w))) w
  end.

Definition serve_all (sha256 : list byte → list byte) (reqs : list Request) (w : World)
  : World :=
  fold_left (λ w req, serve sha256 req w) reqs w.

(** The worlds a history of requests, each handled alone, leads to from the
    empty table and bucket. *)
Inductive served (sha256 : list byte → list byte) : World → Prop :=
| served_empty : served sha256 empty_world
| served_step req w : served sha256 w → served sha256 (serve sha256 req w).

(** Ids a request writes entries under. *)
Definition request_mints (sha256 : list byte → list byte) (req : Request) : list string :=
  match req with
  | DoOp op => op_mints sha256 op
  | _ => []
  end.

(** The request removes the last reference to the content with hash [h]. *)
Definition request_drops_last_reference (req : Request) (h : string) (w : World) : Prop :=
  match req with
  | DoOp op => drops_last_reference op h (w_store w)
  | _ => False
  end.

(** What a request that is neither an upload nor a delete leaves alone:
    quotas, content records and bucket; it adds no entry, and every content
    has as many entries as before. *)
Definition ledgers_quiet (st st' : Store) : Prop :=
  kv_quota st' = kv_quota st ∧ kv_file st' = kv_file st ∧ bucket st' = bucket st
  ∧ (∀ h, nrefs h (kv_file_ref st') = nrefs h (kv_file_ref st))
  ∧ (∀ fid, kv_file_ref st !! fid = None → kv_file_ref st' !! fid = None).

(** The history of [store_after_first_delete], with a download and a share
    on the way. *)
Definition visits_after_first_delete : list Request :=
  (map DoOp history_shared
   ++ [DoDownload (Authenticated U1) idB1 (inr "https://signed.test/b");
       DoShare 6000 (Authenticated U2)
         {| share_file_id := idB2; share_is_public := true;
            shared_with_user_email := EmptyString |} [];
       DoOp (Delete (Authenticated U1) idB1)])%list.
Definition world_after_first_delete : World :=
  serve_all sample_digest visits_after_first_delete empty_world.

(** Requests after U1's remove of [idB1]: U2 downloads and removes theirs,
    then U1 uploads B anew, at another clock reading. *)
Definition later_visits : list Request :=
  (DoDownload (Authenticated U2) idB2 (inr "https://signed.test/b")
   :: map DoOp later_requests)%list.

(** The store in which U1 and U2 each hold an entry for B, with no share
    record. *)
Definition world_shared : World := {| w_store := store_shared; w_share := ∅ |}.

Arguments calculateFileHash : simpl never.
Arguments make_file_id : simpl never.
Arguments getMimeTypeFromBuffer : simpl never.
Arguments mime_mismatch : simpl never.
Arguments js_or : simpl never.
Arguments includes : simpl never.
Arguments quota_exceeded_response : simpl never.
Arguments upload_loop : simpl never.
Arguments client_upload_loop : simpl never.

Ltac unfold_handlers :=
  unfold when, getFileMetadata, storeFileMetadata, storeFileReference,
    deleteFileReference, updateUserQuota in *;
  unfold bind, pure, return_json, throw, console_log,
    kv_get_user, kv_get_quota, kv_get_file, kv_get_file_ref,
    kv_set_user, kv_set_quota, kv_set_file, kv_set_file_ref,
    kv_del_file, kv_del_file_ref, storage_upload, storage_remove in *.

(** ** Counting entries *)

Lemma nrefs_insert_le h fid r (m : gmap string FileRef) :
  (nrefs h (<[fid := r]> m) ≤ (if decide (fr_hash r = h) then 1 else 0) + nrefs h m)%nat.
Proof.
  unfold nrefs. rewrite map_filter_insert. simpl.
  destruct (decide (fr_hash r = h)) as [Heq|Hne].
  - rewrite map_size_insert. destruct (filter _ m !! fid); unfold id; lia.
  - rewrite map_filter_delete. rewrite map_size_delete.
    destruct (filter _ m !! fid); unfold id; lia.
Qed.

Lemma nrefs_delete h fid r (m : gmap string FileRef) :
  m !! fid = Some r →
  (nrefs h (delete fid m) + (if decide (fr_hash r = h) then 1 else 0) = nrefs h m)%nat.
Proof.
  intros Hm. unfold nrefs. rewrite map_filter_delete, map_size_delete.
  destruct (decide (fr_hash r = h)) as [Heq|Hne].
  - rewrite (map_lookup_filter_Some_2 _ m fid r Hm Heq).
    assert (size (filter (λ kv : string * FileRef, fr_hash kv.2 = h) m) ≠ 0%nat).
    { intros H0. apply map_size_empty_inv in H0.
      pose proof (map_lookup_filter_Some_2
                    (λ kv : string * FileRef, fr_hash kv.2 = h) m fid r Hm Heq) as Hl.
      rewrite H0 in Hl. rewrite lookup_empty in Hl. discriminate. }
    lia.
  - destruct (filter _ m !! fid) eqn:Hf.
    + apply map_lookup_filter_Some in Hf as [Hf1 Hf2]. simpl in Hf2. congruence.
    + unfold id; lia.
Qed.

Lemma nrefs_pos h fid r (m : gmap string FileRef) :
  m !! fid = Some r → fr_hash r = h → (1 ≤ nrefs h m)%nat.
Proof.
  intros Hm Hh. pose proof (nrefs_delete h fid r m Hm) as H.
  rewrite decide_True in H by done. lia.
Qed.

Lemma nrefs_two h id1 id2 r1 r2 (m : gmap string FileRef) :
  id1 ≠ id2 → m !! id1 = Some r1 → m !! id2 = Some r2 →
  fr_hash r1 = h → fr_hash r2 = h → (2 ≤ nrefs h m)%nat.
Proof.
  intros Hne H1 H2 E1 E2.
  pose proof (nrefs_delete h id1 r1 m H1) as H.
  rewrite decide_True in H by done.
  assert (delete id1 m !! id2 = Some r2) as H2' by (rewrite lookup_delete_ne; done).
  pose proof (nrefs_pos h id2 r2 _ H2' E2). lia.
Qed.

(** ** One iteration of the upload loop *)

Section FileStep.

Variable sha256 : list byte → list byte.

Lemma bucket_insert_grows (b : gmap string (string * list byte)) k v p :
  is_Some (b !! p) → is_Some (<[k := v]> b !! p).
Proof. intros H. rewrite lookup_insert_is_Some. destruct (decide (k = p)); auto. Qed.

Ltac entry_added_tac :=
  unfold entry_added; simpl;
  split; [lia|];
  split; [reflexivity|]; split; [reflexivity|];
  split; [first [done | intros ?; apply bucket_insert_grows]|];
  eexists _, _; split; [reflexivity|]; split; [reflexivity|];
  split; [rewrite ?insert_insert_eq; reflexivity|];
  match goal with
  | H : _ !! _ = _ |- _ => rewrite H; simpl; split; reflexivity
  end.

Lemma upload_file_outcome user userData quotaData tags folderId isPublic tot ups it st :
  match upload_file sha256 user userData quotaData tags folderId isPublic tot ups it st with
  | (Next p, st') =>
      tot ≤ fst p
      ∧ entry_added (au_id user) (calculateFileHash sha256 (file_data (item_file it)))
          (item_now it) st st'
  | (Return _, st') => ledgers_kept st st'
  | (Throw _, st') => ledgers_kept st st'
  end.
Proof.
  unfold upload_file. unfold_handlers.
  repeat (case_match; simpl in *; simplify_eq); unfold ledgers_kept; simpl.
  all: try (repeat split; done).
  all: entry_added_tac.
Qed.

Lemma client_upload_file_outcome userId quota options tot ups it st :
  match client_upload_file sha256 userId quota options tot ups it st with
  | (Next p, st') =>
      tot ≤ fst p
      ∧ entry_added userId (calculateFileHash sha256 (file_data (item_file it)))
          (item_now it) st st'
  | (Return _, st') => ledgers_kept st st'
  | (Throw _, st') => ledgers_kept st st'
  end.
Proof.
  unfold client_upload_file. unfold_handlers.
  repeat (case_match; simpl in *; simplify_eq); unfold ledgers_kept; simpl.
  all: try (repeat split; done).
  all: entry_added_tac.
Qed.

End FileStep.

(** ** The upload loops *)

Section Loops.

Variable sha256 : list byte → list byte.

Lemma entry_added_refcount userId h now st st' :
  entry_added userId h now st st' → refcount_consistent st → refcount_consistent st'.
Proof.
  intros (_ & _ & _ & ref & e & Href & Hh & Hfile & He) Hinv h'.
  rewrite Hfile, Href.
  pose proof (Hinv h') as Hh'.
  pose proof (nrefs_insert_le h' (make_file_id userId h now) ref (kv_file_ref st)) as Hle.
  destruct (decide (h = h')) as [->|Hne].
  - rewrite lookup_insert_eq. rewrite decide_True in Hle by done.
    destruct (kv_file st !! h') as [e0|]; destruct He as [Hrc Hp].
    + destruct Hh' as (? & ? & ?). repeat split; [lia | lia | congruence].
    + repeat split; [lia | lia | done].
  - rewrite lookup_insert_ne by done. rewrite decide_False in Hle by congruence.
    destruct (kv_file st !! h') as [f|].
    + destruct Hh' as (? & ? & ?). repeat split; [lia | lia | done].
    + lia.
Qed.

Lemma loop_rel_refl ids st : loop_rel ids st st.
Proof. unfold loop_rel, grows. repeat split; auto. Qed.

Lemma loop_rel_trans ids1 ids2 st1 st2 st3 :
  loop_rel ids1 st1 st2 → loop_rel ids2 st2 st3 → loop_rel (ids1 ++ ids2) st1 st3.
Proof.
  intros (U1 & Q1 & I1 & B1 & F1 & R1) (U2 & Q2 & I2 & B2 & F2 & R2).
  unfold loop_rel, grows in *. repeat split; try congruence; auto.
  intros fid Hfid. rewrite not_elem_of_app in Hfid. destruct Hfid.
  rewrite R2, R1; auto.
Qed.

Lemma ledgers_kept_loop_rel ids st st' : ledgers_kept st st' → loop_rel ids st st'.
Proof.
  intros (U & Q & F & R & B). unfold loop_rel, grows, refcount_consistent.
  rewrite U, Q, F, R, B. repeat split; auto.
Qed.

Lemma entry_added_loop_rel userId h now st st' :
  entry_added userId h now st st' → loop_rel [make_file_id userId h now] st st'.
Proof.
  intros Hadd. pose proof (entry_added_refcount _ _ _ _ _ Hadd) as Hinv.
  destruct Hadd as (U & Q & B & ref & e & Href & Hh & Hfile & He).
  unfold loop_rel, grows. repeat split; auto.
  - intros k Hk. rewrite Hfile, lookup_insert_is_Some. destruct (decide (h = k)); auto.
  - intros fid Hfid. rewrite Href. apply lookup_insert_ne.
    intros Heq. apply Hfid. rewrite <- Heq. left.
Qed.

Lemma upload_loop_outcome user userData quotaData tags folderId isPublic files :
  ∀ tot ups st,
  let r := upload_loop sha256 user userData quotaData tags folderId isPublic files tot ups st in
  loop_rel (minted_ids sha256 (au_id user) files) st (snd r)
  ∧ match fst r with Next p => tot ≤ fst p | _ => True end.
Proof.
  induction files as [|it rest IH]; intros tot ups st; cbv zeta.
  - split; [apply loop_rel_refl | simpl; lia].
  - change (upload_loop sha256 user userData quotaData tags folderId isPublic (it :: rest) tot ups)
      with (bind (upload_file sha256 user userData quotaData tags folderId isPublic tot ups it)
              (λ p, upload_loop sha256 user userData quotaData tags folderId isPublic
                      rest (fst p) (snd p))).
    unfold bind.
    pose proof (upload_file_outcome sha256 user userData quotaData tags folderId
                  isPublic tot ups it st) as Hstep.
    destruct (upload_file _ _ _ _ _ _ _ _ _ _ _) as [[p| |] st1]; simpl.
    + destruct Hstep as [Htot Hadd]. apply entry_added_loop_rel in Hadd.
      specialize (IH (fst p) (snd p) st1). simpl in IH. destruct IH as [IHrel IHtot].
      split.
      * apply (loop_rel_trans [_] _ _ _ _ Hadd IHrel).
      * destruct (fst (upload_loop _ _ _ _ _ _ _ _ _ _ _)); auto. lia.
    + split; [|done]. apply ledgers_kept_loop_rel. done.
    + split; [|done]. apply ledgers_kept_loop_rel. done.
Qed.

Lemma client_upload_loop_outcome userId quota options files :
  ∀ tot ups st,
  let r := client_upload_loop sha256 userId quota options files tot ups st in
  loop_rel (minted_ids sha256 userId files) st (snd r)
  ∧ match fst r with Next p => tot ≤ fst p | _ => True end.
Proof.
  induction files as [|it rest IH]; intros tot ups st; cbv zeta.
  - split; [apply loop_rel_refl | simpl; lia].
  - change (client_upload_loop sha256 userId quota options (it :: rest) tot ups)
      with (bind (client_upload_file sha256 userId quota options tot ups it)
              (λ p, client_upload_loop sha256 userId quota options rest (fst p) (snd p))).
    unfold bind.
    pose proof (client_upload_file_outcome sha256 userId quota options tot ups it st) as Hstep.
    destruct (client_upload_file _ _ _ _ _ _ _ _) as [[p| |] st1]; simpl.
    + destruct Hstep as [Htot Hadd]. apply entry_added_loop_rel in Hadd.
      specialize (IH (fst p) (snd p) st1). simpl in IH. destruct IH as [IHrel IHtot].
      split.
      * apply (loop_rel_trans [_] _ _ _ _ Hadd IHrel).
      * destruct (fst (client_upload_loop _ _ _ _ _ _ _ _)); auto. lia.
    + split; [|done]. apply ledgers_kept_loop_rel. done.
    + split; [|done]. apply ledgers_kept_loop_rel. done.
Qed.

End Loops.

(** ** The upload route *)

Section UploadEffect.

Variable sha256 : list byte → list byte.

Lemma checkRateLimit_outcome now u st :
  ∃ b st' q',
    checkRateLimit now u st = (Next b, st')
    ∧ kv_user st' = kv_user st ∧ kv_file st' = kv_file st
    ∧ kv_file_ref st' = kv_file_ref st ∧ bucket st' = bucket st
    ∧ storage_calls st' = storage_calls st ∧ console st' = console st
    ∧ kv_quota st' !! u = Some q'
    ∧ (∀ u', u' ≠ u → kv_quota st' !! u' = kv_quota st !! u')
    ∧ match kv_quota st !! u with
      | Some q => storage_used q' = storage_used q ∧ storage_limit q' = storage_limit q
      | None => storage_used q' = 0 ∧ storage_limit q' = DEFAULT_STORAGE_LIMIT
      end.
Proof.
  unfold checkRateLimit. unfold_handlers.
  assert (∀ (b : bool) (m : gmap string Quota) (q' : Quota) (c : list LogLine)
            (P : Quota → Prop), P q' →
    ∃ b0 st' q0,
      (Next b, {| kv_user := kv_user st; kv_quota := <[u := q']> m;
                  kv_file := kv_file st; kv_file_ref := kv_file_ref st;
                  bucket := bucket st; storage_calls := storage_calls st;
                  console := console st |}) = (Next b0, st')
      ∧ kv_user st' = kv_user st ∧ kv_file st' = kv_file st
      ∧ kv_file_ref st' = kv_file_ref st ∧ bucket st' = bucket st
      ∧ storage_calls st' = storage_calls st ∧ console st' = console st
      ∧ kv_quota st' !! u = Some q0
      ∧ (∀ u', u' ≠ u → kv_quota st' !! u' = m !! u')
      ∧ P q0) as Hset.
  { intros b m q' c P HP. eexists _, _, q'. split; [reflexivity|]. simpl.
    do 6 (split; [reflexivity|]).
    split; [apply lookup_insert_eq|].
    split; [intros u' Hne; apply lookup_insert_ne; congruence | exact HP]. }
  destruct (kv_quota st !! u) as [q|] eqn:Hq; simpl.
  - destruct (1000 <=? now - last_request_time q).
    + apply (Hset true _ _ []). simpl. done.
    + destruct (rate_limit q <=? request_count q).
      * exists false, st, q. repeat split; auto.
      * apply (Hset true _ _ []). simpl. done.
  - apply (Hset true _ _ []). simpl. done.
Qed.

Lemma quota_nonneg_insert (m : gmap string Quota) u q st' :
  (∀ u' q', m !! u' = Some q' → 0 ≤ storage_used q') →
  0 ≤ storage_used q →
  kv_quota st' = <[u := q]> m → quota_nonneg st'.
Proof.
  intros Hm Hq Heq u' q'. rewrite Heq.
  destruct (decide (u = u')) as [->|Hne].
  - rewrite lookup_insert_eq. intros [= <-]. done.
  - rewrite lookup_insert_ne by done. apply Hm.
Qed.

Lemma upload_rel_refl ids st : upload_rel ids st st.
Proof. unfold upload_rel, grows. repeat split; auto. Qed.

Lemma upload_rel_loop ids st st1 st2 :
  upload_rel ids st st1 → loop_rel ids st1 st2 → upload_rel ids st st2.
Proof.
  intros (Hqn & Hrc & Hb & Hf & Hr) (U2 & Q2 & I2 & B2 & F2 & R2).
  unfold upload_rel, grows, quota_nonneg in *. rewrite Q2. repeat split; auto.
  intros fid Hfid. rewrite R2 by done. auto.
Qed.

Lemma upload_rel_same ids st st2 st3 :
  upload_rel ids st st2 →
  kv_quota st3 = kv_quota st2 → kv_file st3 = kv_file st2 →
  kv_file_ref st3 = kv_file_ref st2 → bucket st3 = bucket st2 →
  upload_rel ids st st3.
Proof.
  intros (Hqn & Hrc & Hb & Hf & Hr) Q F R B.
  unfold upload_rel, grows, quota_nonneg, refcount_consistent in *.
  rewrite Q, F, R, B. repeat split; auto.
Qed.

Lemma upload_rel_quota ids st st2 st3 u q :
  upload_rel ids st st2 →
  kv_quota st3 = <[u := q]> (kv_quota st2) → (quota_nonneg st2 → 0 ≤ storage_used q) →
  kv_file st3 = kv_file st2 →
  kv_file_ref st3 = kv_file_ref st2 → bucket st3 = bucket st2 →
  upload_rel ids st st3.
Proof.
  intros (Hqn & Hrc & Hb & Hf & Hr) Q Hq F R B.
  unfold upload_rel, grows, refcount_consistent in *.
  rewrite F, R, B. repeat split; auto.
  intros H0. eapply quota_nonneg_insert; [apply (Hqn H0) | auto | exact Q].
Qed.

Lemma upload_effect now req st :
  upload_rel (upload_mints sha256 req) st (snd (upload sha256 now req st)).
Proof.
  unfold upload, try_catch, upload_handler, upload_mints.
  destruct (req_auth req) as [| |user]; simpl;
    [apply upload_rel_refl | unfold upload_rel, grows; simpl; repeat split; auto |].
  destruct (checkRateLimit_outcome now (au_id user) st)
    as (b & st1 & q1 & Hrl & U1 & F1 & R1 & B1 & _ & _ & Hq1 & Hother & Hused).
  unfold bind at 1. rewrite Hrl.
  assert (quota_nonneg st → quota_nonneg st1) as Hqn1.
  { intros Hqn u' q'. destruct (decide (u' = au_id user)) as [->|Hne].
    - rewrite Hq1. intros [= <-].
      destruct (kv_quota st !! au_id user) as [q|] eqn:Hq.
      + destruct Hused as [-> _]. eauto.
      + destruct Hused as [-> _]. lia.
    - rewrite Hother by done. apply Hqn. }
  assert (upload_rel (minted_ids sha256 (au_id user) (req_files req)) st st1) as Hrel1.
  { unfold upload_rel, grows, refcount_consistent. rewrite F1, R1, B1. repeat split; auto. }
  destruct b; simpl; [|exact Hrel1].
  destruct (req_tags req) as [|msg|tags]; unfold bind at 1; unfold pure at 1, throw;
    simpl; try exact Hrel1.
  all: destruct (req_files req) as [|it rest] eqn:Hfiles; [exact Hrel1|].
  all: unfold bind at 1, kv_get_user; unfold bind at 1, kv_get_quota; rewrite Hq1.
  all: unfold bind at 1.
  all: match goal with
       | |- context [upload_loop sha256 ?us ?ud ?qd ?tg ?fo ?pu ?fs 0 [] ?s1] =>
           pose proof (upload_loop_outcome sha256 us ud qd tg fo pu fs 0 [] s1) as Hloop
       end.
  all: cbv zeta in Hloop; destruct Hloop as [Hloop Htot].
  all: pose proof (upload_rel_loop _ _ _ _ Hrel1 Hloop) as Hrel2.
  all: destruct Hloop as (_ & Q2 & _).
  all: destruct (upload_loop _ _ _ _ _ _ _ _ _ _ _) as [[p| |] st2]; simpl in *.
  all: try (eapply upload_rel_same; [exact Hrel2 | reflexivity..]).
  all: eapply upload_rel_quota; [exact Hrel2 | reflexivity | | reflexivity..].
  all: simpl; intros Hq2; assert (0 ≤ storage_used q1); [|lia].
  all: eapply Hq2; rewrite Q2; eassumption.
Qed.

End UploadEffect.

(** ** The delete route *)

Section DeleteEffect.

Variable sha256 : list byte → list byte.

Lemma quota_nonneg_max (st st' : Store) u q n :
  kv_quota st' = <[u := with_storage_used q (Z.max 0 n)]> (kv_quota st) →
  quota_nonneg st → quota_nonneg st'.
Proof.
  intros Heq Hqn. eapply quota_nonneg_insert; [exact Hqn | | exact Heq]. simpl. lia.
Qed.

Lemma delete_file_outcome auth fileId st :
  let st' := snd (delete_file auth fileId st) in
  match delete_target (Delete auth fileId) st with
  | Some (fid, ref) => fid = fileId ∧ removal_of fileId ref st st'
  | None => upload_rel [] st st'
  end.
Proof.
  unfold delete_file, try_catch, delete_handler, delete_target, owned_entry.
  destruct auth as [| |user]; simpl;
    [apply upload_rel_refl | unfold upload_rel, grows; simpl; repeat split; auto |].
  unfold_handlers.
  destruct (kv_file_ref st !! fileId) as [ref|] eqn:Href; simpl; [|apply upload_rel_refl].
  destruct (String.eqb (fr_uploader_id ref) (au_id user)) eqn:Hown; simpl;
    [|apply upload_rel_refl].
  split; [reflexivity|]. unfold removal_of.
  destruct (kv_file st !! fr_hash ref) as [fd|] eqn:Hfd; simpl.
  - destruct (fm_reference_count fd - 1 <=? 0) eqn:Hrc; simpl.
    + destruct (kv_quota st !! au_id user) as [q|] eqn:Hq; simpl; rewrite ?Hrc; simpl.
      * repeat split; auto. apply quota_nonneg_max with (u := au_id user) (q := q)
          (n := storage_used q - fr_size ref). reflexivity.
      * repeat split; auto.
    + destruct (kv_quota st !! au_id user) as [q|] eqn:Hq; simpl; rewrite ?Hrc; simpl;
        repeat split; auto.
  - destruct (kv_quota st !! au_id user) as [q|] eqn:Hq; simpl; repeat split; auto.
Qed.

End DeleteEffect.

(** ** The browser-side paths and signup *)

Section ClientEffects.

Variable sha256 : list byte → list byte.

Lemma getUserQuota_outcome now u st :
  ∃ q st',
    getUserQuota now u st = (Next q, st')
    ∧ kv_user st' = kv_user st ∧ kv_file st' = kv_file st
    ∧ kv_file_ref st' = kv_file_ref st ∧ bucket st' = bucket st
    ∧ kv_quota st' !! u = Some q
    ∧ (quota_nonneg st → quota_nonneg st').
Proof.
  unfold getUserQuota. unfold_handlers.
  destruct (kv_quota st !! u) as [q|] eqn:Hq; simpl.
  - exists q, st. repeat split; auto.
  - eexists _, _. split; [reflexivity|]. simpl. do 4 (split; [reflexivity|]).
    split; [apply lookup_insert_eq|].
    intros Hqn. eapply quota_nonneg_insert; [exact Hqn | | reflexivity]. simpl. lia.
Qed.

Lemma deleteFileClientSide_outcome userId now fileId st :
  let st' := snd (deleteFileClientSide userId now fileId st) in
  match delete_target (ClientDelete userId now fileId) st with
  | Some (fid, ref) => fid = fileId ∧ removal_of fileId ref st st'
  | None => upload_rel [] st st'
  end.
Proof.
  unfold deleteFileClientSide, run_client, deleteFileClientSide_body, delete_target,
    owned_entry.
  destruct userId as [userId|]; simpl; [|apply upload_rel_refl].
  unfold_handlers.
  destruct (kv_file_ref st !! fileId) as [ref|] eqn:Href; simpl; [|apply upload_rel_refl].
  destruct (String.eqb (fr_uploader_id ref) userId) eqn:Hown; simpl;
    [|apply upload_rel_refl].
  split; [reflexivity|]. unfold removal_of.
  destruct (kv_file st !! fr_hash ref) as [fd|] eqn:Hfd; simpl;
    [destruct (fm_reference_count fd - 1 <=? 0) eqn:Hrc; simpl|].
  all: match goal with
       | |- context [getUserQuota ?n ?u ?s] =>
           destruct (getUserQuota_outcome n u s)
             as (q & st2 & Hg & U & F & R & B & Hq & Hqn)
       end.
  all: rewrite Hg; simpl in *; rewrite ?Hrc; simpl.
  all: repeat split; auto.
  intros H0. eapply quota_nonneg_max; [reflexivity | auto].
Qed.

Lemma uploadFilesClientSide_effect userId now files options st :
  upload_rel (client_upload_mints sha256 userId files) st
    (snd (uploadFilesClientSide sha256 userId now files options st)).
Proof.
  unfold uploadFilesClientSide, run_client, uploadFilesClientSide_body,
    client_upload_mints.
  destruct userId as [userId|]; simpl; [|apply upload_rel_refl].
  destruct (getUserQuota_outcome now userId st) as (q & st1 & Hg & U & F & R & B & Hq & Hqn).
  unfold bind at 1. rewrite Hg.
  assert (upload_rel (minted_ids sha256 userId files) st st1) as Hrel1.
  { unfold upload_rel, grows, refcount_consistent. rewrite F, R, B. repeat split; auto. }
  unfold bind at 1.
  pose proof (client_upload_loop_outcome sha256 userId q options files 0 [] st1) as Hloop.
  cbv zeta in Hloop. destruct Hloop as [Hloop Htot].
  pose proof (upload_rel_loop _ _ _ _ Hrel1 Hloop) as Hrel2.
  destruct Hloop as (_ & Q2 & _).
  destruct (client_upload_loop _ _ _ _ _ _ _ _) as [[p| |] st2]; simpl in *.
  - unfold_handlers. simpl.
    eapply upload_rel_quota; [exact Hrel2 | reflexivity | | reflexivity..].
    simpl. intros Hq2. assert (0 ≤ storage_used q); [|lia].
    eapply Hq2. rewrite Q2. eassumption.
  - exact Hrel2.
  - exact Hrel2.
Qed.

Lemma signup_effect now body created st :
  upload_rel [] st (snd (signup now body created st)).
Proof.
  unfold signup, try_catch, signup_handler. unfold_handlers.
  destruct (_ || _); simpl; [apply upload_rel_refl|].
  destruct created as [msg|userId]; simpl.
  - unfold upload_rel, grows; simpl; repeat split; auto.
  - unfold upload_rel, grows, refcount_consistent; simpl. repeat split; auto.
    intros Hqn. eapply quota_nonneg_insert; [exact Hqn | | reflexivity]. simpl. lia.
Qed.

(** Every request either removes its target entry or acts like an upload. *)
Lemma step_outcome op st :
  match delete_target op st with
  | Some (fid, ref) => removal_of fid ref st (step sha256 op st)
  | None => upload_rel (op_mints sha256 op) st (step sha256 op st)
  end.
Proof.
  destruct op as [now body created|now req|auth fileId|userId now files options|userId now fileId].
  - apply signup_effect.
  - apply upload_effect.
  - pose proof (delete_file_outcome auth fileId st) as H. cbv zeta in H.
    change (step sha256 (Delete auth fileId) st) with (snd (delete_file auth fileId st)).
    destruct (delete_target (Delete auth fileId) st) as [[fid ref]|]; [|exact H].
    destruct H as [-> H]. exact H.
  - apply uploadFilesClientSide_effect.
  - pose proof (deleteFileClientSide_outcome userId now fileId st) as H. cbv zeta in H.
    change (step sha256 (ClientDelete userId now fileId) st)
      with (snd (deleteFileClientSide userId now fileId st)).
    destruct (delete_target (ClientDelete userId now fileId) st) as [[fid ref]|]; [|exact H].
    destruct H as [-> H]. exact H.
Qed.

End ClientEffects.

(** ** Reachable stores *)

Section Reachability.

Variable sha256 : list byte → list byte.

Lemma owned_entry_Some userId fileId st fid ref :
  owned_entry userId fileId st = Some (fid, ref) →
  fid = fileId ∧ kv_file_ref st !! fileId = Some ref ∧ fr_uploader_id ref = userId.
Proof.
  unfold owned_entry. destruct (kv_file_ref st !! fileId) as [r|]; [|discriminate].
  destruct (String.eqb (fr_uploader_id r) userId) eqn:Hown; [|discriminate].
  intros [= <- <-]. apply String.eqb_eq in Hown. auto.
Qed.

Lemma delete_target_Some op st fid ref :
  delete_target op st = Some (fid, ref) → kv_file_ref st !! fid = Some ref.
Proof.
  destruct op as [| |[| |user] fileId| |[userId|] now fileId]; simpl; try discriminate.
  - intros H. apply owned_entry_Some in H as (-> & H & _). exact H.
  - intros H. apply owned_entry_Some in H as (-> & H & _). exact H.
Qed.

Lemma removal_refcount fid ref st st' :
  kv_file_ref st !! fid = Some ref →
  removal_of fid ref st st' → refcount_consistent st → refcount_consistent st'.
Proof.
  intros Href (_ & _ & Hrefs & Hfile) Hinv h'.
  rewrite Hrefs.
  pose proof (Hinv h') as Hh'. pose proof (Hinv (fr_hash ref)) as Hh.
  pose proof (nrefs_delete h' fid ref _ Href) as Hdel.
  pose proof (nrefs_pos (fr_hash ref) fid ref _ Href eq_refl) as Hpos.
  destruct (kv_file st !! fr_hash ref) as [fd|] eqn:Hfd; [|lia].
  destruct Hh as (Hrc1 & Hcnt & Hpath).
  destruct (fm_reference_count fd - 1 <=? 0) eqn:Hrc; destruct Hfile as [-> _].
  - apply Z.leb_le in Hrc.
    destruct (decide (fr_hash ref = h')) as [Heq|Hne].
    + rewrite <- Heq in *. rewrite lookup_delete_eq. lia.
    + rewrite lookup_delete_ne by done. destruct (kv_file st !! h'); [|lia].
      destruct Hh' as (? & ? & ?). repeat split; auto. lia.
  - apply Z.leb_gt in Hrc.
    destruct (decide (fr_hash ref = h')) as [Heq|Hne].
    + rewrite <- Heq in *. rewrite lookup_insert_eq. simpl. repeat split; [lia | lia | done].
    + rewrite lookup_insert_ne by done. destruct (kv_file st !! h'); [|lia].
      destruct Hh' as (? & ? & ?). repeat split; auto. lia.
Qed.

Lemma vault_inv_step op st : vault_inv st → vault_inv (step sha256 op st).
Proof.
  intros [Hqn Hrc]. pose proof (step_outcome sha256 op st) as Hout.
  destruct (delete_target op st) as [[fid ref]|] eqn:Htarget.
  - split.
    + destruct Hout as (_ & Hq & _). auto.
    + eapply removal_refcount; eauto using delete_target_Some.
  - destruct Hout as (Hq & Hr & _). split; auto.
Qed.

Lemma vault_inv_empty : vault_inv empty_store.
Proof.
  split.
  - intros u q. simpl. rewrite lookup_empty. discriminate.
  - intros h. simpl. rewrite lookup_empty. unfold nrefs.
    rewrite map_filter_empty. apply map_size_empty.
Qed.

Lemma reachable_inv st : reachable sha256 st → vault_inv st.
Proof.
  induction 1 as [|op st Hreach IH]; [apply vault_inv_empty | apply vault_inv_step; exact IH].
Qed.

Lemma reachable_run ops st : reachable sha256 st → reachable sha256 (run sha256 ops st).
Proof.
  revert st. induction ops as [|op ops IH]; intros st H; simpl; [exact H|].
  apply IH. constructor. exact H.
Qed.

End Reachability.

(** ** Properties of delete *)

Section DeleteClaims.

Variable sha256 : list byte → list byte.

Lemma delete_file_absent user fileId st :
  kv_file_ref st !! fileId = None →
  delete_file (Authenticated user) fileId st = (JsonError 404 "File not found", st).
Proof.
  intros H. unfold delete_file, try_catch, delete_handler. unfold_handlers.
  rewrite H. reflexivity.
Qed.

Lemma deleteFileClientSide_absent userId now fileId st :
  kv_file_ref st !! fileId = None →
  deleteFileClientSide (Some userId) now fileId st = (Rejected "File not found", st).
Proof.
  intros H. unfold deleteFileClientSide, run_client, deleteFileClientSide_body.
  unfold_handlers. rewrite H. reflexivity.
Qed.

Lemma delete_file_ok_inv auth fileId st msg st' :
  delete_file auth fileId st = (OkMessage msg, st') →
  ∃ ref, delete_target (Delete auth fileId) st = Some (fileId, ref).
Proof.
  unfold delete_file, try_catch, delete_handler, delete_target, owned_entry.
  destruct auth as [| |user]; simpl; try discriminate.
  unfold_handlers.
  destruct (kv_file_ref st !! fileId) as [ref|]; simpl; [|discriminate].
  destruct (String.eqb (fr_uploader_id ref) (au_id user)); simpl; [|discriminate].
  eauto.
Qed.

Lemma absent_step op fileId st :
  kv_file_ref st !! fileId = None → fileId ∉ op_mints sha256 op →
  kv_file_ref (step sha256 op st) !! fileId = None.
Proof.
  intros Habs Hfresh. pose proof (step_outcome sha256 op st) as Hout.
  destruct (delete_target op st) as [[fid ref]|].
  - destruct Hout as (_ & _ & -> & _). rewrite lookup_delete_None. auto.
  - destruct Hout as (_ & _ & _ & _ & Hrefs). rewrite Hrefs; auto.
Qed.

Lemma absent_run later fileId st :
  kv_file_ref st !! fileId = None →
  fileId ∉ concat (map (op_mints sha256) later) →
  kv_file_ref (run sha256 later st) !! fileId = None.
Proof.
  revert st. induction later as [|op later IH]; intros st Habs Hfresh; simpl in *; [exact Habs|].
  rewrite not_elem_of_app in Hfresh. destruct Hfresh as [H1 H2].
  apply IH; [apply absent_step; assumption | exact H2].
Qed.

Lemma deleteFileClientSide_ok_inv userId now fileId st r st' :
  deleteFileClientSide userId now fileId st = (Resolved r, st') →
  ∃ ref, delete_target (ClientDelete userId now fileId) st = Some (fileId, ref).
Proof.
  unfold deleteFileClientSide, run_client, deleteFileClientSide_body, delete_target,
    owned_entry.
  destruct userId as [userId|]; simpl; [|discriminate].
  unfold_handlers.
  destruct (kv_file_ref st !! fileId) as [ref|]; simpl; [|discriminate].
  destruct (String.eqb (fr_uploader_id ref) userId); simpl; [|discriminate].
  eauto.
Qed.

(** A remove that succeeded, on the server or from the browser, deleted
    the entry. *)
Lemma removed_entry_absent fileId st st' :
  (∃ auth msg, delete_file auth fileId st = (OkMessage msg, st'))
  ∨ (∃ userId now0 r, deleteFileClientSide userId now0 fileId st = (Resolved r, st')) →
  kv_file_ref st' !! fileId = None.
Proof.
  intros [(auth & msg & Hok)|(userId & now0 & r & Hok)].
  - destruct (delete_file_ok_inv _ _ _ _ _ Hok) as [ref Htarget].
    pose proof (delete_file_outcome auth fileId st) as Hout. cbv zeta in Hout.
    rewrite Htarget, Hok in Hout. simpl in Hout.
    destruct Hout as (_ & _ & _ & Hrefs & _). rewrite Hrefs. apply lookup_delete_eq.
  - destruct (deleteFileClientSide_ok_inv _ _ _ _ _ _ Hok) as [ref Htarget].
    pose proof (deleteFileClientSide_outcome userId now0 fileId st) as Hout.
    cbv zeta in Hout. rewrite Htarget, Hok in Hout. simpl in Hout.
    destruct Hout as (_ & _ & _ & Hrefs & _). rewrite Hrefs. apply lookup_delete_eq.
Qed.

(** C6: a remove by a caller who is not the uploader of an existing entry
    answers 403 and leaves the whole store as it was (the browser-side
    delete rejects with the same message and changes nothing either). *)
Theorem C6_delete_by_non_owner_forbidden user fileId ref now st :
  kv_file_ref st !! fileId = Some ref →
  fr_uploader_id ref ≠ au_id user →
  delete_file (Authenticated user) fileId st
    = (JsonError 403 "Only the uploader can delete this file", st)
  ∧ deleteFileClientSide (Some (au_id user)) now fileId st
    = (Rejected "Only the uploader can delete this file", st).
Proof.
  intros Href Hne. apply String.eqb_neq in Hne.
  unfold delete_file, try_catch, delete_handler, deleteFileClientSide, run_client,
    deleteFileClientSide_body.
  unfold_handlers. rewrite Href, Hne. simpl. split; reflexivity.
Qed.

(** C9: when the entry exists, the caller uploaded it, and there is no
    content record for its hash, the remove answers success; the entry is
    deleted and nothing else changes: no storage call, no quota update.  The
    browser-side delete does the same for a caller who has a quota record. *)
Theorem C9_delete_with_missing_record user fileId ref st :
  kv_file_ref st !! fileId = Some ref →
  fr_uploader_id ref = au_id user →
  kv_file st !! fr_hash ref = None →
  ∃ st',
    st' = {| kv_user := kv_user st; kv_quota := kv_quota st; kv_file := kv_file st;
             kv_file_ref := delete fileId (kv_file_ref st); bucket := bucket st;
             storage_calls := storage_calls st; console := console st |}
    ∧ delete_file (Authenticated user) fileId st
      = (OkMessage "File deleted successfully", st')
    ∧ (∀ now, is_Some (kv_quota st !! au_id user) →
       deleteFileClientSide (Some (au_id user)) now fileId st
       = (Resolved (OkMessage "File deleted successfully"), st')).
Proof.
  intros Href Hown Hfile. apply String.eqb_eq in Hown.
  eexists. split; [reflexivity|]. split.
  - unfold delete_file, try_catch, delete_handler. unfold_handlers.
    rewrite Href, Hown. simpl. rewrite Hfile. simpl.
    destruct (kv_quota st !! au_id user); reflexivity.
  - intros now [q Hq].
    unfold deleteFileClientSide, run_client, deleteFileClientSide_body, getUserQuota.
    unfold_handlers.
    rewrite Href, Hown. simpl. rewrite Hfile. simpl. rewrite Hq. reflexivity.
Qed.

(** C8: in every store the vault can reach, every quota record has a
    non-negative [storage_used]. *)
Theorem C8_storage_used_never_negative st u q :
  reachable sha256 st → kv_quota st !! u = Some q → 0 ≤ storage_used q.
Proof.
  intros Hreach Hq. destruct (reachable_inv sha256 st Hreach) as [Hqn _].
  exact (Hqn u q Hq).
Qed.

(** One request, from a store in which the ledgers agree: it deletes the
    content record of hash [h], and likewise the stored object, exactly when
    it is a remove that takes the record's reference count to 0; and in the
    store it leaves, every entry still has its content record. *)
Lemma reclamation_step st op h :
  vault_inv st →
  let st' := step sha256 op st in
  (is_Some (kv_file st !! h) →
     (kv_file st' !! h = None ↔ drops_last_reference op h st))
  ∧ (is_Some (bucket st !! h) →
     (bucket st' !! h = None ↔ drops_last_reference op h st))
  ∧ (∀ fid ref, kv_file_ref st' !! fid = Some ref → fr_hash ref = h →
       is_Some (kv_file st' !! h)).
Proof.
  intros Hvault st'.
  destruct Hvault as [Hq0 Hinv].
  assert (vault_inv st') as [_ Hinv'] by (apply vault_inv_step; split; assumption).
  split; [|split].
  - intros Hsome. pose proof (step_outcome sha256 op st) as Hout. fold st' in Hout.
    unfold drops_last_reference.
    destruct (delete_target op st) as [[fid ref]|] eqn:Htarget.
    + destruct Hout as (_ & _ & _ & Hfile).
      pose proof (Hinv (fr_hash ref)) as Hh.
      destruct (kv_file st !! fr_hash ref) as [fd|] eqn:Hfd.
      * destruct Hh as (Hrc1 & _ & _).
        destruct (fm_reference_count fd - 1 <=? 0) eqn:Hrc; destruct Hfile as [Hfile _];
          rewrite Hfile.
        -- apply Z.leb_le in Hrc. split.
           ++ intros Hnone. destruct (decide (fr_hash ref = h)) as [Heq|Hne].
              ** exists fid, ref, fd. rewrite <- Heq. repeat split; auto. lia.
              ** rewrite lookup_delete_ne in Hnone by done. rewrite Hnone in Hsome.
                 destruct Hsome as [? [=]].
           ++ intros (fid' & ref' & fd' & [= <- <-] & <- & _). apply lookup_delete_eq.
        -- apply Z.leb_gt in Hrc. split.
           ++ intros Hnone. destruct (decide (fr_hash ref = h)) as [Heq|Hne].
              ** rewrite <- Heq, lookup_insert_eq in Hnone. discriminate.
              ** rewrite lookup_insert_ne in Hnone by done. rewrite Hnone in Hsome.
                 destruct Hsome as [? [=]].
           ++ intros (fid' & ref' & fd' & [= <- <-] & <- & Hfd' & Hz).
              rewrite Hfd in Hfd'. injection Hfd' as <-. lia.
      * destruct Hfile as [Hfile _]. rewrite Hfile. split.
        -- intros Hnone. rewrite Hnone in Hsome. destruct Hsome as [? [=]].
        -- intros (fid' & ref' & fd' & [= <- <-] & <- & Hfd' & _). congruence.
    + destruct Hout as (_ & _ & _ & Hgrow & _). split.
      * intros Hnone. apply Hgrow in Hsome. rewrite Hnone in Hsome. destruct Hsome as [? [=]].
      * intros (fid' & ref' & fd' & [=] & _).
  - intros Hsome. pose proof (step_outcome sha256 op st) as Hout. fold st' in Hout.
    unfold drops_last_reference.
    destruct (delete_target op st) as [[fid ref]|] eqn:Htarget.
    + destruct Hout as (_ & _ & _ & Hfile).
      pose proof (Hinv (fr_hash ref)) as Hh.
      destruct (kv_file st !! fr_hash ref) as [fd|] eqn:Hfd.
      * destruct Hh as (Hrc1 & _ & Hpath).
        destruct (fm_reference_count fd - 1 <=? 0) eqn:Hrc; destruct Hfile as [_ Hb];
          rewrite Hb.
        -- apply Z.leb_le in Hrc. rewrite Hpath. split.
           ++ intros Hnone. destruct (decide (fr_hash ref = h)) as [Heq|Hne].
              ** exists fid, ref, fd. rewrite <- Heq. repeat split; auto. lia.
              ** rewrite lookup_delete_ne in Hnone by done. rewrite Hnone in Hsome.
                 destruct Hsome as [? [=]].
           ++ intros (fid' & ref' & fd' & [= <- <-] & <- & _). apply lookup_delete_eq.
        -- apply Z.leb_gt in Hrc. split.
           ++ intros Hnone. rewrite Hnone in Hsome. destruct Hsome as [? [=]].
           ++ intros (fid' & ref' & fd' & [= <- <-] & <- & Hfd' & Hz).
              rewrite Hfd in Hfd'. injection Hfd' as <-. lia.
      * destruct Hfile as [_ Hb]. rewrite Hb. split.
        -- intros Hnone. rewrite Hnone in Hsome. destruct Hsome as [? [=]].
        -- intros (fid' & ref' & fd' & [= <- <-] & <- & Hfd' & _). congruence.
    + destruct Hout as (_ & _ & Hgrow & _). split.
      * intros Hnone. apply Hgrow in Hsome. rewrite Hnone in Hsome. destruct Hsome as [? [=]].
      * intros (fid' & ref' & fd' & [=] & _).
  - intros fid ref Href Hh. pose proof (Hinv' h) as Hinvh.
    pose proof (nrefs_pos h fid ref _ Href Hh) as Hpos.
    destruct (kv_file st' !! h); [eauto | lia].
Qed.
(** C3, as the code has it: in a reachable store, when the caller removes an
    entry of theirs while another entry still points at the same content, the
    record's reference count goes down by one and stays at least 1, the record
    and the stored object are kept, no storage call is made, the entry is
    deleted, and every quota record, the caller's included, is left as it was.
    The browser-side delete does the same for a caller who has a quota record. *)
Theorem C3_delete_while_shared st user fileId ref otherId other :
  reachable sha256 st →
  kv_file_ref st !! fileId = Some ref →
  fr_uploader_id ref = au_id user →
  kv_file_ref st !! otherId = Some other →
  otherId ≠ fileId →
  fr_hash other = fr_hash ref →
  ∃ fd st',
    kv_file st !! fr_hash ref = Some fd
    ∧ 1 ≤ fm_reference_count fd - 1
    ∧ st' = {| kv_user := kv_user st; kv_quota := kv_quota st;
               kv_file := <[fr_hash ref :=
                              with_reference_count fd (fm_reference_count fd - 1)]>
                            (kv_file st);
               kv_file_ref := delete fileId (kv_file_ref st); bucket := bucket st;
               storage_calls := storage_calls st; console := console st |}
    ∧ delete_file (Authenticated user) fileId st
      = (OkMessage "File deleted successfully", st')
    ∧ (∀ now, is_Some (kv_quota st !! au_id user) →
       deleteFileClientSide (Some (au_id user)) now fileId st
       = (Resolved (OkMessage "File deleted successfully"), st')).
Proof.
  intros Hreach Href Hown Hother Hne Hhash.
  destruct (reachable_inv sha256 st Hreach) as [_ Hinv].
  pose proof (Hinv (fr_hash ref)) as Hh.
  pose proof (nrefs_two (fr_hash ref) fileId otherId ref other _
                (not_eq_sym Hne) Href Hother eq_refl Hhash) as Htwo.
  destruct (kv_file st !! fr_hash ref) as [fd|] eqn:Hfd; [|lia].
  destruct Hh as (_ & Hcnt & _).
  exists fd. eexists. split; [reflexivity|]. split; [lia|]. split; [reflexivity|].
  apply String.eqb_eq in Hown.
  assert ((fm_reference_count fd - 1 <=? 0) = false) as Hrc by (apply Z.leb_gt; lia).
  split.
  - unfold delete_file, try_catch, delete_handler. unfold_handlers.
    rewrite Href, Hown. simpl. rewrite Hfd. simpl. rewrite Hrc. simpl.
    destruct (kv_quota st !! au_id user); simpl; rewrite ?Hrc; reflexivity.
  - intros now [q Hq].
    unfold deleteFileClientSide, run_client, deleteFileClientSide_body, getUserQuota.
    unfold_handlers.
    rewrite Href, Hown. simpl. rewrite Hfd. simpl. rewrite Hrc. simpl.
    rewrite Hq. simpl. rewrite Hrc. reflexivity.
Qed.

End DeleteClaims.

(** ** Loop iterations on stored and on new content *)

Section FileStepExact.

Variable sha256 : list byte → list byte.

Lemma quota_allows_guard quotaData tot size :
  quota_allows quotaData tot size →
  match quotaData with
  | Some q => (storage_limit q <? storage_used q + tot + size) = false
  | None => True
  end.
Proof. destruct quotaData as [q|]; simpl; [|done]. intros H. apply Z.ltb_ge. exact H. Qed.

Lemma includes_already_exists :
  includes "The resource already exists" "already exists" = true.
Proof. reflexivity. Qed.

(** The quota guard comes first in the loop body: when it trips, the
    iteration answers 413 and touches nothing, whether or not the content is
    already stored. *)
Lemma upload_file_quota_guard user userData q tags folderId isPublic tot ups it st :
  storage_limit q < storage_used q + tot + Z.of_nat (length (file_data (item_file it))) →
  upload_file sha256 user userData (Some q) tags folderId isPublic tot ups it st
  = (Return (quota_exceeded_response q tot), st).
Proof.
  intros H. apply Z.ltb_lt in H. unfold upload_file. unfold_handlers.
  rewrite H. reflexivity.
Qed.

(** A loop iteration on content that is already stored. *)
Lemma upload_file_duplicate user userData quotaData tags folderId isPublic tot ups it st e :
  let file := item_file it in
  let h := calculateFileHash sha256 (file_data file) in
  kv_file st !! h = Some e →
  quota_allows quotaData tot (Z.of_nat (length (file_data file))) →
  ∃ ref st',
    upload_file sha256 user userData quotaData tags folderId isPublic tot ups it st
      = (Next (tot, (ups ++ [ref])%list), st')
    ∧ fr_id ref = make_file_id (au_id user) h (item_now it)
    ∧ fr_hash ref = h ∧ fr_is_deduplicated ref = true
    ∧ fr_mime_type ref = fm_mime_type e
    ∧ kv_user st' = kv_user st ∧ kv_quota st' = kv_quota st
    ∧ kv_file st' = <[h := with_reference_count e (fm_reference_count e + 1)]> (kv_file st)
    ∧ kv_file_ref st' = <[fr_id ref := ref]> (kv_file_ref st)
    ∧ bucket st' = bucket st ∧ storage_calls st' = storage_calls st
    ∧ console st' = (console st ++ mime_warning file)%list.
Proof.
  intros file h He Hq. apply quota_allows_guard in Hq.
  unfold upload_file, mime_warning. fold file. fold h. unfold_handlers.
  destruct quotaData as [q|]; [rewrite Hq|]; simpl.
  all: destruct (mime_mismatch _ _); simpl; rewrite He; simpl.
  all: eexists _, _; split; [reflexivity|]; simpl.
  all: repeat split; try reflexivity.
  all: symmetry; apply app_nil_r.
Qed.

(** A loop iteration on content that is not stored yet, with the storage
    service letting the upload through. *)
Lemma upload_file_new user userData quotaData tags folderId isPublic tot ups it st :
  let file := item_file it in
  let h := calculateFileHash sha256 (file_data file) in
  let mime := js_or (file_type file) (getMimeTypeFromBuffer (file_data file)) in
  kv_file st !! h = None →
  quota_allows quotaData tot (Z.of_nat (length (file_data file))) →
  fault_benign (item_fault it) →
  ∃ ref e st',
    upload_file sha256 user userData quotaData tags folderId isPublic tot ups it st
      = (Next (tot + Z.of_nat (length (file_data file)), (ups ++ [ref])%list), st')
    ∧ fr_id ref = make_file_id (au_id user) h (item_now it)
    ∧ fr_hash ref = h ∧ fr_is_deduplicated ref = false
    ∧ fr_mime_type ref = mime
    ∧ fm_mime_type e = mime ∧ fm_reference_count e = 1
    ∧ kv_user st' = kv_user st ∧ kv_quota st' = kv_quota st
    ∧ kv_file st' = <[h := e]> (kv_file st)
    ∧ kv_file_ref st' = <[fr_id ref := ref]> (kv_file_ref st)
    ∧ storage_calls st' = (storage_calls st ++ [StorageUpload h])%list
    ∧ console st' = (console st ++ mime_warning file)%list.
Proof.
  intros file h mime He Hq Hfault. apply quota_allows_guard in Hq.
  unfold upload_file, mime_warning. fold file. fold h. fold mime. unfold_handlers.
  destruct quotaData as [q|]; [rewrite Hq|]; simpl.
  all: destruct (mime_mismatch _ _); simpl; rewrite He; simpl.
  all: destruct (item_fault it) as [msg|]; simpl in Hfault; simpl; rewrite ?Hfault; simpl.
  all: try (destruct (bucket st !! h); simpl; rewrite ?includes_already_exists; simpl).
  all: eexists _, _, _; split; [reflexivity|]; simpl.
  all: rewrite ?insert_insert_eq.
  all: repeat split; try reflexivity.
  all: symmetry; apply app_nil_r.
Qed.

(** A loop iteration on content that is not stored yet, with the storage
    service failing: the iteration throws. *)
Lemma upload_file_fault user userData quotaData tags folderId isPublic tot ups it st msg :
  let file := item_file it in
  let h := calculateFileHash sha256 (file_data file) in
  kv_file st !! h = None →
  quota_allows quotaData tot (Z.of_nat (length (file_data file))) →
  item_fault it = Some msg →
  includes msg "already exists" = false →
  ∃ st',
    upload_file sha256 user userData quotaData tags folderId isPublic tot ups it st
      = (Throw ("Failed to upload file: " ++ msg), st').
Proof.
  intros file h He Hq Hfault Hmsg. apply quota_allows_guard in Hq.
  unfold upload_file. fold file. fold h. unfold_handlers.
  rewrite Hfault.
  destruct quotaData as [q|]; [rewrite Hq|]; simpl.
  all: destruct (mime_mismatch _ _); simpl; rewrite He; simpl; rewrite Hmsg; simpl.
  all: eexists; reflexivity.
Qed.

End FileStepExact.

(** ** Properties of upload *)

Section UploadClaims.

Variable sha256 : list byte → list byte.

Lemma upload_loop_single user userData quotaData tags folderId isPublic it tot ups st :
  upload_loop sha256 user userData quotaData tags folderId isPublic [it] tot ups st
  = match upload_file sha256 user userData quotaData tags folderId isPublic tot ups it st with
    | (Next p, st') => (Next (fst p, snd p), st')
    | (Return r, st') => (Return r, st')
    | (Throw msg, st') => (Throw msg, st')
    end.
Proof.
  unfold upload_loop, bind, pure.
  destruct (upload_file _ _ _ _ _ _ _ _ _ _ _) as [[p| |] st']; reflexivity.
Qed.

(** C1, as the code has it: when an owner with a quota record uploads bytes
    whose content record already exists, and the request passes the rate limit
    and the quota guard, the upload succeeds with an entry flagged as
    deduplicated, makes no storage call and leaves the bucket alone, raises
    the record's reference count by one, and leaves the owner's [storage_used]
    as it was: a duplicate charges nothing. *)
Theorem C1_duplicate_upload_charges_nothing now user it tags folderId isPublic st e q :
  let h := calculateFileHash sha256 (file_data (item_file it)) in
  let req := {| req_auth := Authenticated user; req_files := [it]; req_tags := tags;
                req_folder_id := folderId; req_is_public := isPublic |} in
  kv_file st !! h = Some e →
  kv_quota st !! au_id user = Some q →
  fst (checkRateLimit now (au_id user) st) = Next true →
  tags_well_formed tags →
  storage_used q + Z.of_nat (length (file_data (item_file it))) ≤ storage_limit q →
  ∃ ref st' q',
    upload sha256 now req st = (OkFiles [ref], st')
    ∧ fr_hash ref = h ∧ fr_is_deduplicated ref = true
    ∧ bucket st' = bucket st ∧ storage_calls st' = storage_calls st
    ∧ kv_file st' = <[h := with_reference_count e (fm_reference_count e + 1)]> (kv_file st)
    ∧ kv_file_ref st' = <[fr_id ref := ref]> (kv_file_ref st)
    ∧ kv_quota st' !! au_id user = Some q'
    ∧ storage_used q' = storage_used q.
Proof.
  intros h req He Hq Hrl Htags Hroom.
  destruct (checkRateLimit_outcome now (au_id user) st)
    as (b & st1 & q1 & Heq & U1 & F1 & R1 & B1 & S1 & C1 & Hq1 & _ & Hused).
  rewrite Heq in Hrl. simpl in Hrl. injection Hrl as ->.
  rewrite Hq in Hused. destruct Hused as [Hused Hlimit].
  assert (kv_file st1 !! h = Some e) as He1 by (rewrite F1; exact He).
  assert (quota_allows (Some q1) 0 (Z.of_nat (length (file_data (item_file it))))) as Hallow.
  { simpl. lia. }
  assert (∀ tg, ∃ ref st' q',
    try_catch "Upload error:"
      (userData <- kv_get_user (au_id user) ;;
       quotaData <- kv_get_quota (au_id user) ;;
       p <- upload_loop sha256 user userData quotaData tg folderId isPublic [it] 0 [] ;;
       match quotaData with
       | Some q => kv_set_quota (au_id user) (with_storage_used q (storage_used q + fst p))
       | None => pure tt
       end ;;; pure (OkFiles (snd p))) st1 = (OkFiles [ref], st')
    ∧ fr_hash ref = h ∧ fr_is_deduplicated ref = true
    ∧ bucket st' = bucket st ∧ storage_calls st' = storage_calls st
    ∧ kv_file st' = <[h := with_reference_count e (fm_reference_count e + 1)]> (kv_file st)
    ∧ kv_file_ref st' = <[fr_id ref := ref]> (kv_file_ref st)
    ∧ kv_quota st' !! au_id user = Some q'
    ∧ storage_used q' = storage_used q) as Hmain.
  { intros tg.
    destruct (upload_file_duplicate sha256 user (kv_user st1 !! au_id user) (Some q1) tg
                folderId isPublic 0 [] it st1 e He1 Hallow)
      as (ref & st2 & Hstep & Hid & Hh & Hdup & _ & U2 & Q2 & F2 & R2 & B2 & S2 & _).
    exists ref. eexists. exists (with_storage_used q1 (storage_used q1 + 0)).
    unfold try_catch. unfold bind at 1, kv_get_user. unfold bind at 1, kv_get_quota.
    rewrite Hq1. unfold bind at 1. rewrite upload_loop_single, Hstep. simpl.
    unfold_handlers. simpl.
    split; [reflexivity|]. simpl.
    rewrite F2, R2, B2, S2, F1, R1, B1, S1.
    repeat split; auto.
    - apply lookup_insert_eq.
    - simpl. lia. }
  unfold upload, upload_handler. simpl.
  unfold try_catch in *. unfold bind at 1. rewrite Heq. simpl.
  destruct tags as [|msg|tg]; simpl in Htags; [|contradiction|].
  - unfold bind at 1, pure at 1. apply (Hmain []).
  - unfold bind at 1, pure at 1. apply (Hmain tg).
Qed.

(** C10, as the code has it: whether a loop iteration completes does not
    depend on the declared type: it completes exactly when the quota guard
    lets the file through and, for content not stored yet, the storage service
    lets the upload through. A mismatch between the declared and the detected
    type adds one warning to the console and nothing else. Content that is new
    is recorded with the declared type, or the detected type when none is
    declared; content that is already stored keeps the type of its record, and
    the new entry carries the record's type. *)
Theorem C10_mime_mismatch_only_warns user userData quotaData tags folderId isPublic
    tot ups it st :
  let file := item_file it in
  let h := calculateFileHash sha256 (file_data file) in
  let run := upload_file sha256 user userData quotaData tags folderId isPublic
               tot ups it st in
  ((∃ p st', run = (Next p, st'))
   ↔ quota_allows quotaData tot (Z.of_nat (length (file_data file)))
     ∧ (kv_file st !! h = None → fault_benign (item_fault it)))
  ∧ (∀ p st', run = (Next p, st') →
     ∃ ref e,
       snd p = (ups ++ [ref])%list
       ∧ console st' = (console st ++ mime_warning file)%list
       ∧ kv_file st' !! h = Some e
       ∧ fr_mime_type ref = fm_mime_type e
       ∧ fm_mime_type e =
           match kv_file st !! h with
           | Some e0 => fm_mime_type e0
           | None => js_or (file_type file) (getMimeTypeFromBuffer (file_data file))
           end).
Proof.
  intros file h run.
  assert (quota_allows quotaData tot (Z.of_nat (length (file_data file))) →
          (kv_file st !! h = None → fault_benign (item_fault it)) →
          ∃ tot' ref e st',
            run = (Next (tot', (ups ++ [ref])%list), st')
            ∧ console st' = (console st ++ mime_warning file)%list
            ∧ kv_file st' !! h = Some e
            ∧ fr_mime_type ref = fm_mime_type e
            ∧ fm_mime_type e =
                match kv_file st !! h with
                | Some e0 => fm_mime_type e0
                | None => js_or (file_type file) (getMimeTypeFromBuffer (file_data file))
                end) as Hdone.
  { intros Hallow Hfault. destruct (kv_file st !! h) as [e0|] eqn:He.
    - destruct (upload_file_duplicate sha256 user userData quotaData tags folderId isPublic
                  tot ups it st e0 He Hallow)
        as (ref & st' & Hstep & _ & _ & _ & Hmime & _ & _ & F & _ & _ & _ & Hc).
      exists tot, ref, (with_reference_count e0 (fm_reference_count e0 + 1)), st'.
      split; [exact Hstep|]. split; [exact Hc|].
      split; [fold h in F; rewrite F; apply lookup_insert_eq|]. auto.
    - destruct (upload_file_new sha256 user userData quotaData tags folderId isPublic
                  tot ups it st He Hallow (Hfault eq_refl))
        as (ref & e & st' & Hstep & _ & _ & _ & Hmime & Hemime & _ & _ & _ & F & _ & _ & Hc).
      exists (tot + Z.of_nat (length (file_data file))), ref, e, st'.
      split; [exact Hstep|]. split; [exact Hc|].
      split; [fold h in F; rewrite F; apply lookup_insert_eq|].
      split; [congruence | exact Hemime]. }
  assert ((∃ p st', run = (Next p, st')) →
          quota_allows quotaData tot (Z.of_nat (length (file_data file)))
          ∧ (kv_file st !! h = None → fault_benign (item_fault it))) as Hneed.
  { intros (p & st' & Hrun).
    assert (quota_allows quotaData tot (Z.of_nat (length (file_data file)))) as Hallow.
    { destruct quotaData as [q|]; simpl; [|exact I].
      destruct (Z_le_gt_dec (storage_used q + tot + Z.of_nat (length (file_data file)))
                  (storage_limit q)) as [Hle|Hgt]; [exact Hle|].
      unfold run in Hrun.
      rewrite upload_file_quota_guard in Hrun by (unfold file in Hgt; lia).
      discriminate. }
    split; [exact Hallow|]. intros He.
    destruct (item_fault it) as [msg|] eqn:Hfault; simpl; [|exact I].
    destruct (includes msg "already exists") eqn:Hmsg; [reflexivity|].
    destruct (upload_file_fault sha256 user userData quotaData tags folderId isPublic
                tot ups it st msg He Hallow Hfault Hmsg) as [st2 Hthrow].
    unfold run in Hrun. fold file in Hthrow. rewrite Hthrow in Hrun. discriminate. }
  split.
  - split; [exact Hneed|].
    intros [Hallow Hfault].
    destruct (Hdone Hallow Hfault) as (tot' & ref & e & st' & Hrun & _). eauto.
  - intros p st' Hrun.
    destruct (Hneed (ex_intro _ p (ex_intro _ st' Hrun))) as [Hallow Hfault].
    destruct (Hdone Hallow Hfault) as (tot' & ref & e & st2 & Hrun2 & Hc & He & Hm & Hem).
    rewrite Hrun in Hrun2. injection Hrun2 as -> ->.
    exists ref, e. simpl. auto.
Qed.

(** A batch cut short by the quota guard: the first file is new and fits,
    the second trips the guard.  The loop answers 413 from the second
    iteration, and the store keeps what the first iteration wrote. *)
Lemma upload_loop_cut_short user userData q tags folderId isPublic it1 it2 rest st :
  let h1 := calculateFileHash sha256 (file_data (item_file it1)) in
  let size1 := Z.of_nat (length (file_data (item_file it1))) in
  let size2 := Z.of_nat (length (file_data (item_file it2))) in
  kv_file st !! h1 = None →
  fault_benign (item_fault it1) →
  storage_used q + size1 ≤ storage_limit q →
  storage_limit q < storage_used q + size1 + size2 →
  ∃ ref e st',
    upload_loop sha256 user userData (Some q) tags folderId isPublic
      (it1 :: it2 :: rest) 0 [] st
    = (Return (quota_exceeded_response q size1), st')
    ∧ kv_file st' !! h1 = Some e ∧ fm_reference_count e = 1
    ∧ kv_file_ref st' !! make_file_id (au_id user) h1 (item_now it1) = Some ref
    ∧ kv_quota st' = kv_quota st.
Proof.
  intros h1 size1 size2 Hnew Hfault Hfits Htrips.
  assert (quota_allows (Some q) 0 size1) as Hallow by (simpl; lia).
  destruct (upload_file_new sha256 user userData (Some q) tags folderId isPublic 0 []
              it1 st Hnew Hallow Hfault)
    as (ref & e & st' & Hstep & Hid & _ & _ & _ & _ & Hrc & _ & Q & F & R & _).
  exists ref, e, st'.
  change (upload_loop sha256 user userData (Some q) tags folderId isPublic
            (it1 :: it2 :: rest) 0 [])
    with (bind (upload_file sha256 user userData (Some q) tags folderId isPublic 0 [] it1)
            (λ p, bind (upload_file sha256 user userData (Some q) tags folderId isPublic
                          (fst p) (snd p) it2)
                    (λ p', upload_loop sha256 user userData (Some q) tags folderId
                             isPublic rest (fst p') (snd p')))).
  unfold bind at 1. rewrite Hstep. unfold bind at 1. simpl fst. simpl snd.
  rewrite upload_file_quota_guard by (fold size1 size2; lia).
  split; [reflexivity|].
  split; [fold h1 in F; rewrite F; apply lookup_insert_eq|].
  split; [exact Hrc|].
  split; [fold h1 in Hid; rewrite R, Hid; apply lookup_insert_eq | exact Q].
Qed.

End UploadClaims.

(** ** The worked scenarios *)

(** C1, counterexample: U1 has uploaded the five bytes of B; U2, charged 0
    so far, uploads the same bytes.  The count becomes 2 and U2's
    [storage_used] is still 0, not 0 + 5. *)
Lemma C1_duplicate_not_charged_counterexample :
  fm_size <$> kv_file store_first_upload !! hashB = Some 5
  ∧ storage_used <$> kv_quota store_first_upload !! "u2" = Some 0
  ∧ store_shared = step sample_digest (Upload 5000 upload_B_by_U2) store_first_upload
  ∧ fm_reference_count <$> kv_file store_shared !! hashB = Some 2
  ∧ storage_calls store_shared = storage_calls store_first_upload
  ∧ storage_used <$> kv_quota store_shared !! "u2" ≠ Some (0 + 5).
Proof. vm_compute. repeat split; try reflexivity. discriminate. Qed.

(** C1, witness: scenario A, where U2 uploads the bytes U1 has stored. *)
Lemma C1_duplicate_upload_witness :
  ∃ ref st' q',
    upload sample_digest 5000 upload_B_by_U2 store_first_upload = (OkFiles [ref], st')
    ∧ fr_is_deduplicated ref = true
    ∧ storage_calls st' = storage_calls store_first_upload
    ∧ kv_quota st' !! "u2" = Some q'
    ∧ storage_used q' = 0.
Proof.
  destruct (C1_duplicate_upload_charges_nothing sample_digest 5000 U2
              (sample_file "copy.png" "image/png" bytesB 5000) TagsAbsent None false
              store_first_upload recordB (fresh_quota "u2"))
    as (ref & st' & q' & Hup & _ & Hdup & _ & Hcalls & _ & _ & Hq & Hused).
  - vm_compute. reflexivity.
  - vm_compute. reflexivity.
  - vm_compute. reflexivity.
  - exact I.
  - vm_compute. discriminate.
  - exists ref, st', q'. repeat split; assumption.
Defined.

(** C2: U2 has 8 bytes of quota left and uploads a batch of two new
    five-byte files.  The second file trips the quota guard and the request
    answers 413, yet the first file stays behind: its content record (count
    1), its entry and its stored object are all there, while [storage_used]
    is unchanged.  The browser-side upload leaves the same residue. *)
Theorem C2_failed_batch_leaves_first_file :
  kv_file (nearly_full 8 store_first_upload) !! hashA = None
  ∧ kv_file_ref (nearly_full 8 store_first_upload) !! idA2 = None
  ∧ bucket (nearly_full 8 store_first_upload) !! hashA = None
  ∧ fst (upload sample_digest 5000 batch_A_then_C (nearly_full 8 store_first_upload))
    = JsonError 413 "Storage quota exceeded. Limit: 10485760 bytes, Used: 10485757 bytes"
  ∧ fm_reference_count <$>
      kv_file (snd (upload sample_digest 5000 batch_A_then_C
                      (nearly_full 8 store_first_upload))) !! hashA = Some 1
  ∧ fr_hash <$>
      kv_file_ref (snd (upload sample_digest 5000 batch_A_then_C
                          (nearly_full 8 store_first_upload))) !! idA2 = Some hashA
  ∧ snd <$>
      bucket (snd (upload sample_digest 5000 batch_A_then_C
                     (nearly_full 8 store_first_upload))) !! hashA = Some bytesA
  ∧ storage_used <$>
      kv_quota (snd (upload sample_digest 5000 batch_A_then_C
                       (nearly_full 8 store_first_upload))) !! "u2"
    = Some (DEFAULT_STORAGE_LIMIT - 8)
  ∧ fst (uploadFilesClientSide sample_digest (Some "u2") 5000 (req_files batch_A_then_C)
           {| opt_tags := None; opt_folderId := None; opt_isPublic := None |}
           (nearly_full 8 store_first_upload))
    = Rejected "Storage quota exceeded. Limit: 10485760 bytes"
  ∧ fm_reference_count <$>
      kv_file (snd (uploadFilesClientSide sample_digest (Some "u2") 5000
                      (req_files batch_A_then_C)
                      {| opt_tags := None; opt_folderId := None; opt_isPublic := None |}
                      (nearly_full 8 store_first_upload))) !! hashA = Some 1.
Proof. vm_compute. repeat split; reflexivity. Qed.

(** C3, counterexample: U1 (charged 5 for B) and U2 both hold an entry for
    B; U1 removes theirs.  The count drops to 1, the object stays, and U1's
    [storage_used] is still 5, not 5 - 5. *)
Lemma C3_first_delete_not_refunded_counterexample :
  storage_used <$> kv_quota store_shared !! "u1" = Some 5
  ∧ fm_size <$> kv_file store_shared !! hashB = Some 5
  ∧ store_after_first_delete
    = step sample_digest (Delete (Authenticated U1) idB1) store_shared
  ∧ fm_reference_count <$> kv_file store_after_first_delete !! hashB = Some 1
  ∧ snd <$> bucket store_after_first_delete !! hashB = Some bytesB
  ∧ storage_used <$> kv_quota store_after_first_delete !! "u1" ≠ Some (5 - 5).
Proof. vm_compute. repeat split; try reflexivity. discriminate. Qed.

(** C3, witness: U1 removes their entry for B while U2 holds one. *)
Lemma C3_delete_while_shared_witness :
  reachable sample_digest store_shared
  ∧ fst (delete_file (Authenticated U1) idB1 store_shared)
    = OkMessage "File deleted successfully"
  ∧ kv_quota (snd (delete_file (Authenticated U1) idB1 store_shared))
    = kv_quota store_shared.
Proof.
  assert (reachable sample_digest store_shared) as Hreach.
  { apply reachable_run. constructor. }
  split; [exact Hreach|].
  assert (∃ ref, kv_file_ref store_shared !! idB1 = Some ref
                 ∧ fr_uploader_id ref = "u1" ∧ fr_hash ref = hashB)
    as (ref1 & H1 & Hown & Hh1).
  { eexists. split; [vm_compute; reflexivity|]. split; reflexivity. }
  assert (∃ ref, kv_file_ref store_shared !! idB2 = Some ref ∧ fr_hash ref = hashB)
    as (ref2 & H2 & Hh2).
  { eexists. split; [vm_compute; reflexivity|]. reflexivity. }
  destruct (C3_delete_while_shared sample_digest store_shared U1 idB1 ref1 idB2 ref2 Hreach)
    as (fd & st' & _ & _ & -> & Hdel & _).
  - exact H1.
  - exact Hown.
  - exact H2.
  - vm_compute. discriminate.
  - congruence.
  - rewrite Hdel. split; reflexivity.
Defined.

(** C4: the content of B is stored and U2 has 3 bytes of quota left; U2's
    upload of the same five bytes answers 413, although it would store
    nothing and charge nothing. *)
Theorem C4_duplicate_upload_hits_quota_guard :
  fm_size <$> kv_file (nearly_full 3 store_first_upload) !! hashB = Some 5
  ∧ fst (upload sample_digest 5000 upload_B_by_U2 (nearly_full 3 store_first_upload))
    = JsonError 413 "Storage quota exceeded. Limit: 10485760 bytes, Used: 10485757 bytes"
  ∧ fst (uploadFilesClientSide sample_digest (Some "u2") 5000 (req_files upload_B_by_U2)
           {| opt_tags := None; opt_folderId := None; opt_isPublic := None |}
           (nearly_full 3 store_first_upload))
    = Rejected "Storage quota exceeded. Limit: 10485760 bytes".
Proof. vm_compute. repeat split; reflexivity. Qed.

(** C6, witness: U2 tries to remove the entry of U1. *)
Lemma C6_delete_by_non_owner_witness :
  delete_file (Authenticated U2) idB1 store_shared
    = (JsonError 403 "Only the uploader can delete this file", store_shared)
  ∧ deleteFileClientSide (Some "u2") 6000 idB1 store_shared
    = (Rejected "Only the uploader can delete this file", store_shared).
Proof.
  eapply (C6_delete_by_non_owner_forbidden U2 idB1 _ 6000 store_shared).
  - vm_compute. reflexivity.
  - vm_compute. discriminate.
Defined.

(** C8, witness: U2, never charged for B, removes the last entry for B; the
    refund of 5 bytes is floored at 0. *)
Lemma C8_storage_used_witness :
  reachable sample_digest store_reclaimed
  ∧ kv_quota store_reclaimed !! "u2"
    = Some {| q_user_id := Some "u2"; storage_used := 0;
              storage_limit := DEFAULT_STORAGE_LIMIT; rate_limit := DEFAULT_RATE_LIMIT;
              last_request_time := 5000; request_count := 1 |}
  ∧ 0 ≤ 0.
Proof.
  assert (reachable sample_digest store_reclaimed) as Hreach.
  { apply reachable_run. constructor. }
  assert (kv_quota store_reclaimed !! "u2"
          = Some {| q_user_id := Some "u2"; storage_used := 0;
                    storage_limit := DEFAULT_STORAGE_LIMIT;
                    rate_limit := DEFAULT_RATE_LIMIT;
                    last_request_time := 5000; request_count := 1 |}) as Hq.
  { vm_compute. reflexivity. }
  split; [exact Hreach|]. split; [exact Hq|].
  exact (C8_storage_used_never_negative sample_digest store_reclaimed "u2" _ Hreach Hq).
Defined.

(** C9, witness: U1 removes an entry whose content record is gone. *)
Lemma C9_delete_with_missing_record_witness :
  fst (delete_file (Authenticated U1) idB1 store_dangling)
    = OkMessage "File deleted successfully"
  ∧ kv_quota (snd (delete_file (Authenticated U1) idB1 store_dangling))
    = kv_quota store_dangling
  ∧ storage_calls (snd (delete_file (Authenticated U1) idB1 store_dangling))
    = storage_calls store_dangling
  ∧ kv_file_ref (snd (delete_file (Authenticated U1) idB1 store_dangling)) !! idB1 = None.
Proof.
  assert (∃ ref, kv_file_ref store_dangling !! idB1 = Some ref
                 ∧ fr_uploader_id ref = "u1" ∧ fr_hash ref = hashB)
    as (ref & Href & Hown & Hhash).
  { eexists. split; [vm_compute; reflexivity|]. split; reflexivity. }
  destruct (C9_delete_with_missing_record U1 idB1 ref store_dangling Href Hown)
    as (st' & -> & Hdel & _).
  - rewrite Hhash. vm_compute. reflexivity.
  - rewrite Hdel. simpl. repeat split; try reflexivity; apply lookup_delete_eq.
Defined.

(** C10, counterexample: B is stored with type image/png; U2 uploads the
    same bytes declared as text/plain.  The upload succeeds with a warning,
    and both the entry and the record carry image/png, not the declared,
    non-empty text/plain. *)
Lemma C10_duplicate_keeps_first_type_counterexample :
  response_mime_types
    (fst (upload sample_digest 5000 upload_B_as_text store_first_upload)) = ["image/png"]
  ∧ fm_mime_type <$>
      kv_file (snd (upload sample_digest 5000 upload_B_as_text store_first_upload)) !! hashB
    = Some "image/png"
  ∧ console (snd (upload sample_digest 5000 upload_B_as_text store_first_upload))
    = [ConsoleWarn "MIME type mismatch for notes.txt: declared text/plain, detected image/png"]
  ∧ response_mime_types
      (fst (upload sample_digest 5000 upload_B_as_text store_first_upload))
    ≠ ["text/plain"].
Proof. vm_compute. repeat split; try reflexivity. discriminate. Qed.

(** C10, witness: the loop iteration for B declared as text/plain, B being
    stored as image/png, completes; its entry carries image/png and the
    console gets the warning. *)
Lemma C10_mime_mismatch_witness :
  ∃ p st',
    upload_file sample_digest U2 None None [] None false 0 []
      (sample_file "notes.txt" "text/plain" bytesB 5000) store_first_upload
    = (Next p, st')
    ∧ map fr_mime_type (snd p) = ["image/png"]
    ∧ console st'
      = [ConsoleWarn "MIME type mismatch for notes.txt: declared text/plain, detected image/png"].
Proof.
  destruct (C10_mime_mismatch_only_warns sample_digest U2 None None [] None false 0 []
              (sample_file "notes.txt" "text/plain" bytesB 5000) store_first_upload)
    as [[_ Hdone] Hfacts].
  destruct Hdone as (p & st' & Hrun).
  { split; [exact I | intros _; exact I]. }
  exists p, st'. split; [exact Hrun|].
  destruct (Hfacts p st' Hrun) as (ref & e & Hp & Hconsole & He & Hmime & Hemime).
  split.
  - rewrite Hp. simpl. rewrite Hmime, Hemime. vm_compute. reflexivity.
  - rewrite Hconsole. vm_compute. reflexivity.
Defined.

(** * Further properties of the vault *)

(** ** The hexadecimal rendering of digests *)

Section HexRendering.

Variable sha256 : list byte → list byte.

Lemma byte_hex_two_chars (b : byte) :
  ∃ c1 c2, padStart 2 "0" (toString16 b) = String c1 (String c2 EmptyString)
           ∧ hex_char c1 = true ∧ hex_char c2 = true.
Proof. destruct b; do 2 eexists; (split; [reflexivity | split; reflexivity]). Qed.

Lemma byte_of_hex_byte_hex (b : byte) :
  byte_of_hex (padStart 2 "0" (toString16 b)) = Some b.
Proof. destruct b; reflexivity. Qed.

Lemma hex_of_bytes_cons (b : byte) (l : list byte) :
  hex_of_bytes (b :: l) = (padStart 2 "0" (toString16 b) ++ hex_of_bytes l)%string.
Proof.
  unfold hex_of_bytes. simpl. destruct l as [|b' l]; simpl.
  - destruct (byte_hex_two_chars b) as (c1 & c2 & -> & _). reflexivity.
  - reflexivity.
Qed.

Lemma hex_of_bytes_cons_chars (b : byte) (l : list byte) :
  ∃ c1 c2, hex_of_bytes (b :: l) = String c1 (String c2 (hex_of_bytes l))
           ∧ padStart 2 "0" (toString16 b) = String c1 (String c2 EmptyString)
           ∧ hex_char c1 = true ∧ hex_char c2 = true.
Proof.
  destruct (byte_hex_two_chars b) as (c1 & c2 & Hb & H1 & H2).
  exists c1, c2. rewrite hex_of_bytes_cons, Hb. auto.
Qed.

Lemma hex_of_bytes_length (l : list byte) :
  String.length (hex_of_bytes l) = (2 * length l)%nat.
Proof.
  induction l as [|b l IH]; [reflexivity|].
  destruct (hex_of_bytes_cons_chars b l) as (c1 & c2 & -> & _).
  simpl. rewrite IH. lia.
Qed.

Lemma hex_of_bytes_chars (l : list byte) :
  forallb hex_char (list_ascii_of_string (hex_of_bytes l)) = true.
Proof.
  induction l as [|b l IH]; [reflexivity|].
  destruct (hex_of_bytes_cons_chars b l) as (c1 & c2 & -> & _ & H1 & H2).
  simpl. rewrite H1, H2, IH. reflexivity.
Qed.

Lemma bytes_of_hex_hex_of_bytes (l : list byte) :
  bytes_of_hex (hex_of_bytes l) = Some l.
Proof.
  induction l as [|b l IH]; [reflexivity|].
  destruct (hex_of_bytes_cons_chars b l) as (c1 & c2 & -> & Hb & _).
  pose proof (byte_of_hex_byte_hex b) as Hbyte. rewrite Hb in Hbyte.
  cbn [bytes_of_hex]. rewrite Hbyte, IH. reflexivity.
Qed.

(** X1: the hash of a file is the hexadecimal rendering of its digest: two
    characters a byte, all of them lowercase hexadecimal digits, and read
    back as hexadecimal, two characters a byte, they give the digest. *)
Theorem X1_hash_is_lowercase_hex (fileData : list byte) :
  String.length (calculateFileHash sha256 fileData)
  = (2 * length (sha256 fileData))%nat
  ∧ forallb hex_char (list_ascii_of_string (calculateFileHash sha256 fileData)) = true
  ∧ bytes_of_hex (calculateFileHash sha256 fileData) = Some (sha256 fileData).
Proof.
  unfold calculateFileHash.
  split_and!;
    [apply hex_of_bytes_length | apply hex_of_bytes_chars | apply bytes_of_hex_hex_of_bytes].
Qed.

Lemma hex_of_bytes_inj (l1 l2 : list byte) :
  hex_of_bytes l1 = hex_of_bytes l2 → l1 = l2.
Proof.
  revert l2. induction l1 as [|b1 l1 IH]; intros [|b2 l2] H.
  - reflexivity.
  - destruct (hex_of_bytes_cons_chars b2 l2) as (c1 & c2 & Heq & _). rewrite Heq in H.
    discriminate.
  - destruct (hex_of_bytes_cons_chars b1 l1) as (c1 & c2 & Heq & _). rewrite Heq in H.
    discriminate.
  - destruct (hex_of_bytes_cons_chars b1 l1) as (c1 & c2 & Heq1 & Hb1 & _).
    destruct (hex_of_bytes_cons_chars b2 l2) as (d1 & d2 & Heq2 & Hb2 & _).
    rewrite Heq1, Heq2 in H. injection H as -> -> Htl.
    f_equal; [|apply IH; exact Htl].
    pose proof (byte_of_hex_byte_hex b1) as R1. pose proof (byte_of_hex_byte_hex b2) as R2.
    rewrite Hb1 in R1. rewrite Hb2 in R2. congruence.
Qed.

(** X2: the hexadecimal rendering adds no collision: two files get the same
    hash exactly when their digests are equal. *)
Theorem X2_hash_faithful_to_digest (data1 data2 : list byte) :
  calculateFileHash sha256 data1 = calculateFileHash sha256 data2
  ↔ sha256 data1 = sha256 data2.
Proof.
  unfold calculateFileHash. split; [apply hex_of_bytes_inj | intros ->; reflexivity].
Qed.

Lemma startsWith_hex (sig l : list byte) :
  startsWith (hex_of_bytes l) (hex_of_bytes sig) = bytes_prefix sig l.
Proof.
  unfold startsWith. revert l. induction sig as [|s sig IH]; intros l.
  - simpl. destruct (hex_of_bytes l); reflexivity.
  - destruct (hex_of_bytes_cons_chars s sig) as (c1 & c2 & -> & Hs & _).
    destruct l as [|b l]; [reflexivity|].
    destruct (hex_of_bytes_cons_chars b l) as (d1 & d2 & -> & Hb & _).
    simpl. rewrite IH.
    destruct (Byte.eqb s b) eqn:Heq.
    + apply Byte.byte_dec_bl in Heq. subst b. rewrite Hs in Hb. injection Hb as <- <-.
      destruct (ascii_dec c1 c1); [|congruence]. destruct (ascii_dec c2 c2); [|congruence].
      reflexivity.
    + simpl. destruct (ascii_dec c1 d1) as [->|]; [|reflexivity].
      destruct (ascii_dec c2 d2) as [->|]; [|reflexivity].
      exfalso. rewrite <- Hb in Hs.
      pose proof (byte_of_hex_byte_hex s) as R1. pose proof (byte_of_hex_byte_hex b) as R2.
      rewrite Hs in R1. rewrite R1 in R2. injection R2 as R2.
      rewrite (Byte.byte_dec_lb R2) in Heq. discriminate.
Qed.
End HexRendering.

(** ** Detection of the content type *)

Section MimeDetection.

Lemma bytes_prefix_firstn (sig : list byte) :
  ∀ n buffer, (length sig ≤ n)%nat →
  bytes_prefix sig (firstn n buffer) = bytes_prefix sig buffer.
Proof.
  induction sig as [|s sig IH]; intros n buffer Hn; [reflexivity|].
  destruct n as [|n]; [simpl in Hn; lia|].
  destruct buffer as [|b buffer]; [reflexivity|].
  simpl. rewrite IH by (simpl in Hn; lia). reflexivity.
Qed.

Lemma startsWith_signature (sig buffer : list byte) :
  (length sig ≤ 4)%nat →
  startsWith (hex_of_bytes (firstn 4 buffer)) (hex_of_bytes sig) = bytes_prefix sig buffer.
Proof. intros Hn. rewrite startsWith_hex. apply bytes_prefix_firstn. exact Hn. Qed.

(** X3: detection reads bytes, not text: a buffer of fewer than four bytes
    is [application/octet-stream], and a longer one has the type of the
    first of the five signatures it begins with (so the three bytes of a
    JPEG signature alone are not enough). *)
Theorem X3_mime_detection_by_signature (buffer : list byte) :
  getMimeTypeFromBuffer buffer
  = if (length buffer <? 4)%nat then "application/octet-stream"
    else detect_by_magic_number magic_numbers buffer.
Proof.
  unfold getMimeTypeFromBuffer. destruct (length buffer <? 4)%nat; [reflexivity|].
  cbv zeta. unfold magic_numbers, detect_by_magic_number.
  rewrite <- (startsWith_signature [x89; x50; x4e; x47]) by (simpl; lia).
  rewrite <- (startsWith_signature [xff; xd8; xff]) by (simpl; lia).
  rewrite <- (startsWith_signature [x47; x49; x46; x38]) by (simpl; lia).
  rewrite <- (startsWith_signature [x25; x50; x44; x46]) by (simpl; lia).
  rewrite <- (startsWith_signature [x50; x4b; x03; x04]) by (simpl; lia).
  reflexivity.
Qed.

Lemma prefix_split_head (sep : ascii) (s : string) :
  String.prefix (split_head sep s) s = true.
Proof.
  induction s as [|c s IH]; [reflexivity|].
  simpl. destruct (Ascii.eqb c sep); [reflexivity|].
  simpl. destruct (ascii_dec c c); [exact IH | congruence].
Qed.

(** X4: no false alarm: a file declared with the very type its bytes are
    detected as logs no warning. *)
Theorem X4_honest_declaration_never_warns (name : string) (data : list byte) :
  mime_warning {| file_name := name; file_type := getMimeTypeFromBuffer data;
                  file_data := data |} = [].
Proof.
  unfold mime_warning, mime_mismatch, startsWith. simpl.
  rewrite prefix_split_head. rewrite andb_false_r. reflexivity.
Qed.

End MimeDetection.

(** ** The rate limiter *)

Section RateLimit.

Variable sha256 : list byte → list byte.

(** X5: an upload by a caller who has used up the window's requests is
    answered 429 and changes nothing at all, whatever it carries; the text
    of the answer names 2 requests whatever the caller's own limit is. *)
Theorem X5_rate_limited_upload_changes_nothing now user req st q :
  req_auth req = Authenticated user →
  kv_quota st !! au_id user = Some q →
  now - last_request_time q < 1000 →
  rate_limit q ≤ request_count q →
  upload sha256 now req st
  = (JsonError 429 "Rate limit exceeded. Maximum 2 requests per second.", st).
Proof.
  intros Hauth Hq Hwin Hcount.
  unfold upload, try_catch, upload_handler. rewrite Hauth.
  unfold bind at 1. unfold checkRateLimit, bind at 1, kv_get_quota. rewrite Hq.
  destruct (Z.leb_spec 1000 (now - last_request_time q)); [lia|].
  destruct (Z.leb_spec (rate_limit q) (request_count q)); [|lia].
  reflexivity.
Qed.

Lemma checkRateLimit_in_window now u st q :
  kv_quota st !! u = Some q →
  now - last_request_time q < 1000 →
  ∃ st' q',
    checkRateLimit now u st = (Next (0 <? rate_limit q - request_count q), st')
    ∧ kv_quota st' !! u = Some q'
    ∧ last_request_time q' = last_request_time q
    ∧ rate_limit q' = rate_limit q
    ∧ request_count q'
      = (if 0 <? rate_limit q - request_count q then request_count q + 1
         else request_count q).
Proof.
  intros Hq Hwin. unfold checkRateLimit, bind at 1, kv_get_quota. rewrite Hq.
  destruct (Z.leb_spec 1000 (now - last_request_time q)); [lia|].
  destruct (Z.leb_spec (rate_limit q) (request_count q));
    destruct (Z.ltb_spec 0 (rate_limit q - request_count q)); try lia.
  - exists st, q. auto.
  - eexists _, _. unfold bind, kv_set_quota, pure. split; [reflexivity|]. simpl.
    rewrite lookup_insert_eq. auto.
Qed.

(** X6: inside one window the limiter admits exactly the requests that fit:
    of the calls made less than a second after the window opened, call
    number [i] (from 0) is admitted exactly when [i] is below what is left
    of the caller's limit. *)
Theorem X6_window_admits_what_is_left nows u st q :
  kv_quota st !! u = Some q →
  Forall (λ now, now - last_request_time q < 1000) nows →
  fst (checkRateLimit_each nows u st)
  = Next (map (λ i, Z.of_nat i <? rate_limit q - request_count q)
            (seq 0 (length nows))).
Proof.
  revert st q. induction nows as [|now rest IH]; intros st q Hq Hall; [reflexivity|].
  inversion Hall as [|? ? Hnow Hrest]; subst.
  destruct (checkRateLimit_in_window now u st q Hq Hnow)
    as (st' & q' & Hcall & Hq' & Hlast & Hlim & Hcount).
  rewrite <- Hlast in Hrest. specialize (IH st' q' Hq' Hrest).
  simpl. unfold bind at 1. rewrite Hcall.
  unfold bind at 1. destruct (checkRateLimit_each rest u st') as [[answers| |] st''];
    simpl in IH; try discriminate.
  injection IH as ->. unfold pure. simpl. f_equal. f_equal.
  rewrite <- seq_shift, List.map_map. apply map_ext. intros i.
  rewrite Hlim, Hcount.
  destruct (Z.ltb_spec 0 (rate_limit q - request_count q));
    destruct (Z.ltb_spec (Z.of_nat i) (rate_limit q - (request_count q + 1)));
    destruct (Z.ltb_spec (Z.of_nat (S i)) (rate_limit q - request_count q));
    destruct (Z.ltb_spec (Z.of_nat i) (rate_limit q - request_count q));
    try reflexivity; lia.
Qed.

End RateLimit.

Lemma X5_rate_limited_upload_witness :
  upload sample_digest 500 (sample_request U1 []) (store_with_quota "u1" (quota_in_window 2))
  = (JsonError 429 "Rate limit exceeded. Maximum 2 requests per second.",
     store_with_quota "u1" (quota_in_window 2)).
Proof.
  apply (X5_rate_limited_upload_changes_nothing sample_digest 500 U1 _ _ (quota_in_window 2)).
  - reflexivity.
  - vm_compute. reflexivity.
  - simpl. lia.
  - vm_compute. discriminate.
Defined.

Lemma X6_window_witness :
  fst (checkRateLimit_each [100; 200; 300; 999] "u1"
         (store_with_quota "u1" (quota_in_window 0)))
  = Next [true; true; false; false].
Proof.
  apply (X6_window_admits_what_is_left [100; 200; 300; 999] "u1" _ (quota_in_window 0)).
  - vm_compute. reflexivity.
  - repeat constructor.
Defined.

(** ** File ids *)

Section FileIds.

Variable sha256 : list byte → list byte.

Lemma app_colon_inj (a : string) :
  ∀ b x y, colon_free a = true → colon_free b = true →
  (a ++ ":" ++ x = b ++ ":" ++ y)%string → a = b ∧ x = y.
Proof.
  unfold colon_free.
  induction a as [|c a IH]; intros [|d b] x y Ha Hb Heq; cbn in *.
  - injection Heq as Heq. auto.
  - injection Heq as <- _. cbn in Hb. discriminate.
  - injection Heq as -> _. cbn in Ha. discriminate.
  - injection Heq as -> Heq.
    apply andb_prop in Ha as [_ Ha]. apply andb_prop in Hb as [_ Hb].
    destruct (IH b x y Ha Hb Heq) as [-> ->]. auto.
Qed.

Lemma string_app_cancel (a x y : string) : (a ++ x = a ++ y)%string → x = y.
Proof. induction a as [|c a IH]; simpl; [auto | intros [= H]; auto]. Qed.

Lemma hex_char_not_colon (c : ascii) :
  hex_char c = true → negb (Ascii.eqb c ":") = true.
Proof.
  intros Hc. destruct (Ascii.eqb_spec c ":") as [->|]; [discriminate | reflexivity].
Qed.

Lemma hex_of_bytes_colon_free (l : list byte) : colon_free (hex_of_bytes l) = true.
Proof.
  unfold colon_free. pose proof (hex_of_bytes_chars l) as H.
  induction (list_ascii_of_string (hex_of_bytes l)) as [|c cs IH]; [reflexivity|].
  simpl in *. apply andb_prop in H as [Hc Hcs].
  rewrite (hex_char_not_colon c Hc), (IH Hcs). reflexivity.
Qed.

(** X7: an entry id tells the upload: two ids minted for the same owner
    (or for owners whose ids hold no colon, as the identity provider's do
    not) are equal only if owner, content digest and clock reading all
    agree. *)
Theorem X7_file_id_identifies_upload u1 u2 data1 data2 now1 now2 :
  u1 = u2 ∨ (colon_free u1 = true ∧ colon_free u2 = true) →
  make_file_id u1 (calculateFileHash sha256 data1) now1
  = make_file_id u2 (calculateFileHash sha256 data2) now2 →
  u1 = u2 ∧ sha256 data1 = sha256 data2 ∧ now1 = now2.
Proof.
  unfold make_file_id, calculateFileHash. intros Hu Heq.
  assert (u1 = u2 ∧ (hex_of_bytes (sha256 data1) ++ ":" ++ pretty now1
                     = hex_of_bytes (sha256 data2) ++ ":" ++ pretty now2)%string)
    as [-> Hrest].
  { destruct Hu as [->|[H1 H2]].
    - split; [reflexivity|]. apply string_app_cancel in Heq. injection Heq. auto.
    - apply (app_colon_inj u1 u2 _ _ H1 H2 Heq). }
  apply app_colon_inj in Hrest as [Hh Hnow]; try apply hex_of_bytes_colon_free.
  split; [reflexivity|]. split; [apply hex_of_bytes_inj; exact Hh|].
  apply (inj pretty) in Hnow. exact Hnow.
Qed.

End FileIds.

Lemma X7_file_id_witness :
  "u1" = "u1" ∧ sample_digest bytesB = sample_digest bytesB ∧ 1000 = 1000.
Proof.
  apply (X7_file_id_identifies_upload sample_digest "u1" "u1" bytesB bytesB 1000 1000).
  - right. split; reflexivity.
  - reflexivity.
Defined.

(** ** What an upload charges *)

Section UploadAccount.

Variable sha256 : list byte → list byte.

Lemma totalStorageUsed_from (files : list FileRef) :
  ∀ a, fold_left (λ sum f, if fr_is_deduplicated f then sum else sum + fr_size f) files a
       = a + totalStorageUsed files.
Proof.
  unfold totalStorageUsed. induction files as [|f files IH]; intros a; simpl; [lia|].
  rewrite IH. rewrite (IH (if fr_is_deduplicated f then 0 else 0 + fr_size f)).
  destruct (fr_is_deduplicated f); lia.
Qed.

Lemma totalStorageUsed_cons (f : FileRef) (files : list FileRef) :
  totalStorageUsed (f :: files)
  = (if fr_is_deduplicated f then 0 else fr_size f) + totalStorageUsed files.
Proof.
  unfold totalStorageUsed at 1. simpl. rewrite totalStorageUsed_from.
  destruct (fr_is_deduplicated f); lia.
Qed.

Lemma sizes_nonneg_insert st st' h e fid ref :
  kv_file st' = <[h := e]> (kv_file st) →
  kv_file_ref st' = <[fid := ref]> (kv_file_ref st) →
  0 ≤ fm_size e → 0 ≤ fr_size ref →
  sizes_nonneg st → sizes_nonneg st'.
Proof.
  intros F R He Hr [Hf Hrefs]. split.
  - intros h' f'. rewrite F. destruct (decide (h = h')) as [->|Hne].
    + rewrite lookup_insert_eq. intros [= <-]. exact He.
    + rewrite lookup_insert_ne by done. apply Hf.
  - intros fid' r'. rewrite R. destruct (decide (fid = fid')) as [->|Hne].
    + rewrite lookup_insert_eq. intros [= <-]. exact Hr.
    + rewrite lookup_insert_ne by done. apply Hrefs.
Qed.

Lemma sizes_nonneg_kept st st' :
  kv_file st' = kv_file st → kv_file_ref st' = kv_file_ref st →
  sizes_nonneg st → sizes_nonneg st'.
Proof. unfold sizes_nonneg. intros -> ->. auto. Qed.

Ltac account_tac :=
  eexists; split; [reflexivity|]; simpl;
  split; [reflexivity|]; split; [lia|]; split; [lia|];
  intros Hsz;
  eapply sizes_nonneg_insert;
    [simpl; rewrite ?insert_insert_eq; reflexivity | reflexivity | simpl | simpl | exact Hsz];
  try lia;
  match goal with
  | H : kv_file _ !! _ = Some _ |- _ => apply (proj1 Hsz) in H; simpl in H; lia
  end.

Lemma upload_file_account user userData quotaData tags folderId isPublic tot ups it st :
  match upload_file sha256 user userData quotaData tags folderId isPublic tot ups it st with
  | (Next p, st') =>
      ∃ ref, snd p = (ups ++ [ref])%list
        ∧ fr_filename ref = file_name (item_file it)
        ∧ fst p = tot + (if fr_is_deduplicated ref then 0 else fr_size ref)
        ∧ within_limit quotaData (fst p)
        ∧ (sizes_nonneg st → sizes_nonneg st')
  | (Return r, st') => is_error r ∧ (sizes_nonneg st → sizes_nonneg st')
  | (Throw _, st') => sizes_nonneg st → sizes_nonneg st'
  end.
Proof.
  unfold upload_file, quota_exceeded_response. unfold_handlers.
  repeat (case_match; simpl in *; simplify_eq).
  all: try (split; [exact I|]).
  all: try (apply sizes_nonneg_kept; reflexivity).
  all: unfold within_limit.
  all: repeat match goal with
       | H : (_ <? _) = false |- _ => apply Z.ltb_ge in H
       end.
  all: account_tac.
Qed.


Lemma client_upload_file_account userId quota options tot ups it st :
  match client_upload_file sha256 userId quota options tot ups it st with
  | (Next p, st') =>
      ∃ ref, snd p = (ups ++ [ref])%list
        ∧ fr_filename ref = file_name (item_file it)
        ∧ fst p = tot + (if fr_is_deduplicated ref then 0 else fr_size ref)
        ∧ within_limit (Some quota) (fst p)
        ∧ (sizes_nonneg st → sizes_nonneg st')
  | (Return r, st') => is_error r ∧ (sizes_nonneg st → sizes_nonneg st')
  | (Throw _, st') => sizes_nonneg st → sizes_nonneg st'
  end.
Proof.
  unfold client_upload_file. unfold_handlers.
  repeat (case_match; simpl in *; simplify_eq).
  all: try (split; [exact I|]).
  all: try (apply sizes_nonneg_kept; reflexivity).
  all: unfold within_limit.
  all: repeat match goal with
       | H : (_ <? _) = false |- _ => apply Z.ltb_ge in H
       end.
  all: account_tac.
Qed.

Lemma upload_loop_account user userData quotaData tags folderId isPublic files :
  ∀ tot ups st,
  (files = [] → within_limit quotaData tot) →
  match upload_loop sha256 user userData quotaData tags folderId isPublic files tot ups st with
  | (Next p, st') =>
      ∃ refs, snd p = (ups ++ refs)%list
        ∧ map fr_filename refs = map (λ it, file_name (item_file it)) files
        ∧ fst p = tot + totalStorageUsed refs
        ∧ within_limit quotaData (fst p)
        ∧ (sizes_nonneg st → sizes_nonneg st')
  | (Return r, st') => is_error r ∧ (sizes_nonneg st → sizes_nonneg st')
  | (Throw _, st') => sizes_nonneg st → sizes_nonneg st'
  end.
Proof.
  induction files as [|it rest IH]; intros tot ups st Hempty.
  - simpl. exists []. rewrite app_nil_r. unfold totalStorageUsed. simpl.
    split; [reflexivity|]. split; [reflexivity|]. split; [lia|].
    split; [apply Hempty; reflexivity | auto].
  - change (upload_loop sha256 user userData quotaData tags folderId isPublic (it :: rest) tot ups)
      with (bind (upload_file sha256 user userData quotaData tags folderId isPublic tot ups it)
              (λ p, upload_loop sha256 user userData quotaData tags folderId isPublic
                      rest (fst p) (snd p))).
    unfold bind.
    pose proof (upload_file_account user userData quotaData tags folderId
                  isPublic tot ups it st) as Hstep.
    destruct (upload_file _ _ _ _ _ _ _ _ _ _ _) as [[p| |] st1]; [|exact Hstep..].
    destruct Hstep as (ref & Hups & Hname & Htot & Hlim & Hsz).
    specialize (IH (fst p) (snd p) st1 (λ _, Hlim)).
    destruct (upload_loop _ _ _ _ _ _ _ _ _ _ _) as [[p'| |] st2]; [|tauto..].
    destruct IH as (refs & Hups' & Hnames & Htot' & Hlim' & Hsz').
    exists (ref :: refs). rewrite Hups', Hups, <- app_assoc. simpl.
    rewrite Hname, Hnames, totalStorageUsed_cons.
    split; [reflexivity|]. split; [reflexivity|]. split; [lia|]. auto.
Qed.

Lemma client_upload_loop_account userId quota options files :
  ∀ tot ups st,
  (files = [] → within_limit (Some quota) tot) →
  match client_upload_loop sha256 userId quota options files tot ups st with
  | (Next p, st') =>
      ∃ refs, snd p = (ups ++ refs)%list
        ∧ map fr_filename refs = map (λ it, file_name (item_file it)) files
        ∧ fst p = tot + totalStorageUsed refs
        ∧ within_limit (Some quota) (fst p)
        ∧ (sizes_nonneg st → sizes_nonneg st')
  | (Return r, st') => is_error r ∧ (sizes_nonneg st → sizes_nonneg st')
  | (Throw _, st') => sizes_nonneg st → sizes_nonneg st'
  end.
Proof.
  induction files as [|it rest IH]; intros tot ups st Hempty.
  - simpl. exists []. rewrite app_nil_r. unfold totalStorageUsed. simpl.
    split; [reflexivity|]. split; [reflexivity|]. split; [lia|].
    split; [apply Hempty; reflexivity | auto].
  - change (client_upload_loop sha256 userId quota options (it :: rest) tot ups)
      with (bind (client_upload_file sha256 userId quota options tot ups it)
              (λ p, client_upload_loop sha256 userId quota options rest (fst p) (snd p))).
    unfold bind.
    pose proof (client_upload_file_account userId quota options tot ups it st) as Hstep.
    destruct (client_upload_file _ _ _ _ _ _ _ _) as [[p| |] st1]; [|exact Hstep..].
    destruct Hstep as (ref & Hups & Hname & Htot & Hlim & Hsz).
    specialize (IH (fst p) (snd p) st1 (λ _, Hlim)).
    destruct (client_upload_loop _ _ _ _ _ _ _ _) as [[p'| |] st2]; [|tauto..].
    destruct IH as (refs & Hups' & Hnames & Htot' & Hlim' & Hsz').
    exists (ref :: refs). rewrite Hups', Hups, <- app_assoc. simpl.
    rewrite Hname, Hnames, totalStorageUsed_cons.
    split; [reflexivity|]. split; [reflexivity|]. split; [lia|]. auto.
Qed.

(** X9: what a successful upload charges.  The answer lists one entry per
    file of the request, in order and under the file's name; the caller's
    [storage_used] grows by exactly the bytes of the entries not flagged as
    deduplicated (counting from 0 for a caller without quota record), and
    ends within the caller's limit, whatever it was before. *)
Theorem X9_upload_charges_new_content now req st user files st' :
  req_auth req = Authenticated user →
  upload sha256 now req st = (OkFiles files, st') →
  map fr_filename files = map (λ it, file_name (item_file it)) (req_files req)
  ∧ ∃ q', kv_quota st' !! au_id user = Some q'
      ∧ storage_used q'
        = match kv_quota st !! au_id user with
          | Some q => storage_used q
          | None => 0
          end + totalStorageUsed files
      ∧ storage_used q' ≤ storage_limit q'.
Proof.
  intros Hauth. unfold upload, try_catch, upload_handler. rewrite Hauth.
  destruct (checkRateLimit_outcome now (au_id user) st)
    as (b & st1 & q1 & Hrl & _ & _ & _ & _ & _ & _ & Hq1 & _ & Hused).
  unfold bind at 1. rewrite Hrl.
  assert (storage_used q1
          = match kv_quota st !! au_id user with Some q => storage_used q | None => 0 end)
    as Hused1 by (destruct (kv_quota st !! au_id user); tauto).
  rewrite <- Hused1. clear Hused Hused1.
  destruct b; simpl; [|discriminate].
  destruct (req_tags req) as [|msg|tags]; unfold bind at 1; unfold pure at 1, throw;
    simpl; try discriminate.
  all: destruct (req_files req) as [|it rest] eqn:Hfiles; [discriminate|].
  all: rewrite <- Hfiles.
  all: unfold bind at 1, kv_get_user; unfold bind at 1, kv_get_quota; rewrite Hq1.
  all: unfold bind at 1.
  all: match goal with
       | |- context [upload_loop sha256 ?us ?ud ?qd ?tg ?fo ?pu ?fs 0 [] ?s1] =>
           assert (fs = [] → within_limit qd 0) as Hne
             by (intros Hnil; rewrite Hfiles in Hnil; discriminate);
           pose proof (upload_loop_account us ud qd tg fo pu fs 0 [] s1 Hne) as Hloop;
           pose proof (upload_loop_outcome sha256 us ud qd tg fo pu fs 0 [] s1) as Hrel
       end.
  all: cbv zeta in Hrel; destruct Hrel as [(_ & Q2 & _) _].
  all: destruct (upload_loop _ _ _ _ _ _ _ _ _ _ _) as [[p|r|] st2]; simpl;
         try discriminate;
         [|destruct Hloop as [Herr _]; destruct r; try contradiction; discriminate].
  all: destruct Hloop as (refs & Hups & Hnames & Htot & Hlim & _).
  all: unfold_handlers; simpl; intros [= <- <-]; simpl in *.
  all: rewrite Hups; split; [exact Hnames|].
  all: eexists; split; [apply lookup_insert_eq|]; simpl; split; lia.
Qed.

End UploadAccount.

Lemma X9_upload_charges_witness :
  map fr_filename (answer_files (fst (upload sample_digest 5000 batch_A_then_C
                                        store_first_upload)))
  = map (λ it, file_name (item_file it)) (req_files batch_A_then_C)
  ∧ ∃ q', kv_quota (snd (upload sample_digest 5000 batch_A_then_C store_first_upload))
            !! au_id U2 = Some q'
      ∧ storage_used q'
        = match kv_quota store_first_upload !! au_id U2 with
          | Some q => storage_used q
          | None => 0
          end + totalStorageUsed
                  (answer_files (fst (upload sample_digest 5000 batch_A_then_C
                                        store_first_upload)))
      ∧ storage_used q' ≤ storage_limit q'.
Proof.
  apply (X9_upload_charges_new_content sample_digest 5000 batch_A_then_C
           store_first_upload U2).
  - reflexivity.
  - vm_compute. reflexivity.
Defined.

(** ** Quota records stay within their limit *)

Section Budget.

Variable sha256 : list byte → list byte.

Lemma quota_within_insert (m : gmap string Quota) u q st' :
  (∀ u' q', m !! u' = Some q' →
     storage_used q' ≤ storage_limit q' ∧ storage_limit q' = DEFAULT_STORAGE_LIMIT
     ∧ rate_limit q' = DEFAULT_RATE_LIMIT) →
  storage_used q ≤ storage_limit q → storage_limit q = DEFAULT_STORAGE_LIMIT →
  rate_limit q = DEFAULT_RATE_LIMIT →
  kv_quota st' = <[u := q]> m → quota_within st'.
Proof.
  intros Hm H1 H2 H3 Heq u' q'. rewrite Heq.
  destruct (decide (u = u')) as [->|Hne].
  - rewrite lookup_insert_eq. intros [= <-]. auto.
  - rewrite lookup_insert_ne by done. apply Hm.
Qed.

Lemma default_limit_pos : 0 ≤ DEFAULT_STORAGE_LIMIT.
Proof. unfold DEFAULT_STORAGE_LIMIT. lia. Qed.

Lemma checkRateLimit_within now u st :
  quota_within st → quota_within (snd (checkRateLimit now u st)).
Proof.
  intros Hw. unfold checkRateLimit. unfold_handlers.
  destruct (kv_quota st !! u) as [q|] eqn:Hq; simpl.
  - destruct (Hw u q Hq) as (H1 & H2 & H3).
    repeat case_match; simpl; try exact Hw.
    all: eapply quota_within_insert; [exact Hw | | | | reflexivity]; simpl; auto.
  - eapply quota_within_insert; [exact Hw | | | | reflexivity]; simpl; auto.
    apply default_limit_pos.
Qed.

Lemma signup_budget now body created st :
  budget_inv st → budget_inv (snd (signup now body created st)).
Proof.
  intros [Hw Hsz]. unfold signup, try_catch, signup_handler. unfold_handlers.
  destruct (_ || _); simpl; [split; assumption|].
  destruct created as [msg|userId]; simpl; [split; assumption|].
  split; [|exact Hsz].
  eapply quota_within_insert; [exact Hw | | | | reflexivity]; simpl; auto.
  apply default_limit_pos.
Qed.

Lemma upload_budget now req st :
  budget_inv st → budget_inv (snd (upload sha256 now req st)).
Proof.
  intros [Hw Hsz]. unfold upload, try_catch, upload_handler.
  destruct (req_auth req) as [| |user]; simpl; [split; assumption..|].
  pose proof (checkRateLimit_within now (au_id user) st Hw) as Hw1.
  destruct (checkRateLimit_outcome now (au_id user) st)
    as (b & st1 & q1 & Hrl & _ & F1 & R1 & _ & _ & _ & Hq1 & _ & _).
  rewrite Hrl in Hw1. simpl in Hw1.
  assert (sizes_nonneg st1) as Hsz1 by (eapply sizes_nonneg_kept; eauto).
  unfold bind at 1. rewrite Hrl.
  destruct b; simpl; [|split; assumption].
  destruct (req_tags req) as [|msg|tags]; unfold bind at 1; unfold pure at 1, throw;
    simpl; try (split; assumption).
  all: destruct (req_files req) as [|it rest] eqn:Hfiles; [split; assumption|].
  all: rewrite <- Hfiles.
  all: unfold bind at 1, kv_get_user; unfold bind at 1, kv_get_quota; rewrite Hq1.
  all: unfold bind at 1.
  all: match goal with
       | |- context [upload_loop sha256 ?us ?ud ?qd ?tg ?fo ?pu ?fs 0 [] ?s1] =>
           assert (fs = [] → within_limit qd 0) as Hne
             by (intros Hnil; rewrite Hfiles in Hnil; discriminate);
           pose proof (upload_loop_account sha256 us ud qd tg fo pu fs 0 [] s1 Hne) as Hloop;
           pose proof (upload_loop_outcome sha256 us ud qd tg fo pu fs 0 [] s1) as Hrel
       end.
  all: cbv zeta in Hrel; destruct Hrel as [(_ & Q2 & _) _].
  all: destruct (upload_loop _ _ _ _ _ _ _ _ _ _ _) as [[p|r|] st2]; simpl in *.
  all: try (split; [unfold quota_within; rewrite Q2; exact Hw1 | tauto]).
  all: destruct Hloop as (refs & _ & _ & _ & Hlim & Hsz2).
  all: unfold_handlers; simpl.
  all: destruct (Hw1 _ _ Hq1) as (_ & H2 & H3).
  all: split; [|apply Hsz2; exact Hsz1].
  all: eapply (quota_within_insert (kv_quota st2)); [rewrite Q2; exact Hw1 | | | | reflexivity];
         simpl; auto.
Qed.

Lemma sizes_nonneg_removed st (files : gmap string FileMeta) fileId h fd n :
  sizes_nonneg st →
  kv_file st !! h = Some fd →
  (files = delete h (kv_file st)
   ∨ files = <[h := with_reference_count fd n]> (kv_file st)
   ∨ files = kv_file st) →
  (∀ h' f, files !! h' = Some f → 0 ≤ fm_size f)
  ∧ (∀ fid r, delete fileId (kv_file_ref st) !! fid = Some r → 0 ≤ fr_size r).
Proof.
  intros [Hf Hr] Hfd Hfiles. split.
  - intros h' f. destruct Hfiles as [->|[->| ->]].
    + rewrite lookup_delete_Some. intros [_ H]. eapply Hf, H.
    + destruct (decide (h = h')) as [->|Hne].
      * rewrite lookup_insert_eq. intros [= <-]. simpl. eapply Hf, Hfd.
      * rewrite lookup_insert_ne by done. apply Hf.
    + apply Hf.
  - intros fid r. rewrite lookup_delete_Some. intros [_ H]. eapply Hr, H.
Qed.

Lemma refund_within (q : Quota) (size : Z) :
  storage_used q ≤ storage_limit q → storage_limit q = DEFAULT_STORAGE_LIMIT →
  0 ≤ size →
  Z.max 0 (storage_used q - size) ≤ storage_limit q.
Proof. intros H1 H2 H3. pose proof default_limit_pos. lia. Qed.

Lemma delete_budget auth fileId st :
  budget_inv st → budget_inv (snd (delete_file auth fileId st)).
Proof.
  intros [Hw Hsz]. unfold delete_file, try_catch, delete_handler.
  destruct auth as [| |user]; simpl; [split; assumption..|].
  unfold_handlers.
  destruct (kv_file_ref st !! fileId) as [ref|] eqn:Href; simpl; [|split; assumption].
  destruct (String.eqb (fr_uploader_id ref) (au_id user)) eqn:Hown; simpl;
    [|split; assumption].
  assert (0 ≤ fr_size ref) as Hsize by (eapply (proj2 Hsz), Href).
  destruct (kv_file st !! fr_hash ref) as [fd|] eqn:Hfd; simpl.
  - destruct (fm_reference_count fd - 1 <=? 0) eqn:Hrc; simpl.
    + destruct (kv_quota st !! au_id user) as [q|] eqn:Hq; simpl; rewrite ?Hrc; simpl.
      * destruct (Hw _ _ Hq) as (H1 & H2 & H3). split.
        -- eapply quota_within_insert; [exact Hw | | | | reflexivity]; simpl; auto.
           apply refund_within; assumption.
        -- apply (sizes_nonneg_removed st _ fileId _ fd 0 Hsz Hfd). auto.
      * split; [exact Hw|].
        apply (sizes_nonneg_removed st _ fileId _ fd 0 Hsz Hfd). auto.
    + destruct (kv_quota st !! au_id user) as [q|] eqn:Hq; simpl; rewrite ?Hrc; simpl.
      all: split; [exact Hw|].
      all: apply (sizes_nonneg_removed st _ fileId _ fd (fm_reference_count fd - 1) Hsz Hfd).
      all: auto.
  - destruct (kv_quota st !! au_id user) as [q|] eqn:Hq; simpl.
    all: split; [exact Hw|].
    all: destruct Hsz as [Hf Hr]; split; [exact Hf|].
    all: intros fid r; simpl; rewrite lookup_delete_Some; intros [_ H]; eapply Hr, H.
Qed.

Lemma getUserQuota_within now u st :
  quota_within st →
  ∃ q st',
    getUserQuota now u st = (Next q, st')
    ∧ kv_file st' = kv_file st ∧ kv_file_ref st' = kv_file_ref st
    ∧ kv_quota st' !! u = Some q
    ∧ quota_within st'.
Proof.
  intros Hw. unfold getUserQuota. unfold_handlers.
  destruct (kv_quota st !! u) as [q|] eqn:Hq; simpl.
  - exists q, st. auto.
  - eexists _, _. split; [reflexivity|]. simpl. do 2 (split; [reflexivity|]).
    split; [apply lookup_insert_eq|].
    eapply quota_within_insert; [exact Hw | | | | reflexivity]; simpl; auto.
    apply default_limit_pos.
Qed.

Lemma uploadFilesClientSide_budget userId now files options st :
  budget_inv st →
  budget_inv (snd (uploadFilesClientSide sha256 userId now files options st)).
Proof.
  intros [Hw Hsz]. unfold uploadFilesClientSide, run_client, uploadFilesClientSide_body.
  destruct userId as [userId|]; simpl; [|split; assumption].
  destruct (getUserQuota_within now userId st Hw) as (q & st1 & Hg & F & R & Hq & Hw1).
  unfold bind at 1. rewrite Hg.
  assert (sizes_nonneg st1) as Hsz1 by (eapply sizes_nonneg_kept; eauto).
  destruct (Hw1 _ _ Hq) as (H1 & H2 & H3).
  assert (files = [] → within_limit (Some q) 0) as Hne by (intros _; simpl; lia).
  unfold bind at 1.
  pose proof (client_upload_loop_account sha256 userId q options files 0 [] st1 Hne) as Hloop.
  pose proof (client_upload_loop_outcome sha256 userId q options files 0 [] st1) as Hrel.
  cbv zeta in Hrel. destruct Hrel as [(_ & Q2 & _) _].
  destruct (client_upload_loop _ _ _ _ _ _ _ _) as [[p|r|] st2]; simpl in *.
  - destruct Hloop as (refs & _ & _ & _ & Hlim & Hsz2).
    unfold_handlers. simpl. split; [|apply Hsz2; exact Hsz1].
    eapply (quota_within_insert (kv_quota st2)); [rewrite Q2; exact Hw1 | | | | reflexivity];
         simpl; auto.
  - split; [unfold quota_within; rewrite Q2; exact Hw1 | tauto].
  - split; [unfold quota_within; rewrite Q2; exact Hw1 | tauto].
Qed.

Lemma deleteFileClientSide_budget userId now fileId st :
  budget_inv st → budget_inv (snd (deleteFileClientSide userId now fileId st)).
Proof.
  intros [Hw Hsz].
  unfold deleteFileClientSide, run_client, deleteFileClientSide_body.
  destruct userId as [userId|]; simpl; [|split; assumption].
  unfold_handlers.
  destruct (kv_file_ref st !! fileId) as [ref|] eqn:Href; simpl; [|split; assumption].
  destruct (String.eqb (fr_uploader_id ref) userId) eqn:Hown; simpl;
    [|split; assumption].
  assert (0 ≤ fr_size ref) as Hsize by (eapply (proj2 Hsz), Href).
  destruct (kv_file st !! fr_hash ref) as [fd|] eqn:Hfd; simpl;
    [destruct (fm_reference_count fd - 1 <=? 0) eqn:Hrc; simpl|].
  all: match goal with
       | |- context [getUserQuota ?n ?u ?s] =>
           destruct (getUserQuota_within n u s Hw) as (q & st2 & Hg & F & R & Hq & Hw2)
       end.
  all: rewrite Hg; simpl in *; rewrite ?Hrc; simpl.
  all: destruct (Hw2 _ _ Hq) as (H1 & H2 & H3).
  all: split;
         [first [exact Hw2
                | eapply quota_within_insert; [exact Hw2 | | | | reflexivity]; simpl; auto;
                  apply refund_within; assumption]|].
  all: unfold sizes_nonneg; rewrite F, R; simpl.
  1: apply (sizes_nonneg_removed st _ fileId _ fd 0 Hsz Hfd); auto.
  1: apply (sizes_nonneg_removed st _ fileId _ fd (fm_reference_count fd - 1) Hsz Hfd); auto.
  destruct Hsz as [Hf Hr]; split; [exact Hf|].
  intros fid r; simpl; rewrite lookup_delete_Some; intros [_ H]; eapply Hr, H.
Qed.

Lemma budget_step op st : budget_inv st → budget_inv (step sha256 op st).
Proof.
  destruct op; simpl.
  - apply signup_budget.
  - apply upload_budget.
  - apply delete_budget.
  - apply uploadFilesClientSide_budget.
  - apply deleteFileClientSide_budget.
Qed.

Lemma budget_empty : budget_inv empty_store.
Proof.
  split; [intros u q|split; [intros h f|intros fid r]]; simpl;
    rewrite lookup_empty; discriminate.
Qed.

(** X10: in every store a history of requests leads to, each quota record
    is within its limit, and limit and rate are still the defaults (10 MB,
    2 requests a second): no route changes them. *)
Theorem X10_storage_used_within_limit st u q :
  reachable sha256 st → kv_quota st !! u = Some q →
  storage_used q ≤ storage_limit q
  ∧ storage_limit q = DEFAULT_STORAGE_LIMIT
  ∧ rate_limit q = DEFAULT_RATE_LIMIT.
Proof.
  intros Hreach. revert u q.
  assert (budget_inv st) as [Hw _]; [|exact Hw].
  induction Hreach as [|op st _ IH]; [apply budget_empty | apply budget_step, IH].
Qed.

End Budget.

Lemma X10_storage_used_witness :
  storage_used (fresh_quota_charged "u1" 5) ≤ storage_limit (fresh_quota_charged "u1" 5)
  ∧ storage_limit (fresh_quota_charged "u1" 5) = DEFAULT_STORAGE_LIMIT
  ∧ rate_limit (fresh_quota_charged "u1" 5) = DEFAULT_RATE_LIMIT.
Proof.
  apply (X10_storage_used_within_limit sample_digest store_first_upload "u1").
  - apply (reachable_run sample_digest history_first_upload empty_store).
    apply reachable_empty.
  - vm_compute. reflexivity.
Defined.

(** ** Upload and delete, step by step *)

Section ExactSteps.

Variable sha256 : list byte → list byte.

(** The upload route past its checks: what is left is the loop and the
    quota update, run on the store the rate limiter leaves. *)
Lemma upload_after_rate_limit now req st user st1 q1 :
  req_auth req = Authenticated user →
  checkRateLimit now (au_id user) st = (Next true, st1) →
  kv_quota st1 !! au_id user = Some q1 →
  tags_well_formed (req_tags req) →
  req_files req ≠ [] →
  upload sha256 now req st
  = try_catch "Upload error:"
      (p <- upload_loop sha256 user (kv_user st1 !! au_id user) (Some q1)
              (tags_of (req_tags req)) (req_folder_id req) (req_is_public req)
              (req_files req) 0 [] ;;
       kv_set_quota (au_id user) (with_storage_used q1 (storage_used q1 + fst p)) ;;;
       pure (OkFiles (snd p))) st1.
Proof.
  intros Hauth Hrl Hq1 Htags Hfiles.
  unfold upload, upload_handler, try_catch. rewrite Hauth.
  unfold bind at 1. rewrite Hrl. simpl.
  destruct (req_tags req) as [|msg|tags]; simpl in Htags; [|contradiction|].
  all: unfold bind at 1, pure at 1.
  all: destruct (req_files req) as [|it rest] eqn:Hfs; [contradiction|].
  all: unfold bind at 1, kv_get_user; unfold bind at 1, kv_get_quota; rewrite Hq1.
  all: reflexivity.
Qed.

(** A loop iteration that stores new content, field by field. *)
Lemma upload_file_new_stored user userData quotaData tags folderId isPublic tot ups it st :
  let file := item_file it in
  let h := calculateFileHash sha256 (file_data file) in
  let size := Z.of_nat (length (file_data file)) in
  let mime := js_or (file_type file) (getMimeTypeFromBuffer (file_data file)) in
  kv_file st !! h = None →
  bucket st !! h = None →
  item_fault it = None →
  quota_allows quotaData tot size →
  ∃ ref e st',
    upload_file sha256 user userData quotaData tags folderId isPublic tot ups it st
      = (Next (tot + size, (ups ++ [ref])%list), st')
    ∧ fr_id ref = make_file_id (au_id user) h (item_now it)
    ∧ fr_hash ref = h ∧ fr_size ref = size ∧ fr_uploader_id ref = au_id user
    ∧ fm_reference_count e = 1 ∧ fm_storage_path e = h ∧ fm_size e = size
    ∧ kv_user st' = kv_user st ∧ kv_quota st' = kv_quota st
    ∧ kv_file st' = <[h := e]> (kv_file st)
    ∧ kv_file_ref st' = <[fr_id ref := ref]> (kv_file_ref st)
    ∧ bucket st' = <[h := (mime, file_data file)]> (bucket st)
    ∧ storage_calls st' = (storage_calls st ++ [StorageUpload h])%list.
Proof.
  intros file h size mime He Hb Hfault Hq. apply quota_allows_guard in Hq.
  unfold upload_file. fold file. fold h. fold mime. fold size. unfold_handlers.
  rewrite Hfault.
  destruct quotaData as [q|]; [fold size in Hq; rewrite Hq|]; simpl.
  all: destruct (mime_mismatch _ _); simpl; rewrite He; simpl; rewrite Hb; simpl.
  all: eexists _, _, _; split; [reflexivity|]; simpl.
  all: rewrite ?insert_insert_eq.
  all: repeat split; reflexivity.
Qed.

(** A loop iteration on content that is already stored, field by field. *)
Lemma upload_file_duplicate_entry user userData quotaData tags folderId isPublic tot ups
    it st e :
  let file := item_file it in
  let h := calculateFileHash sha256 (file_data file) in
  kv_file st !! h = Some e →
  quota_allows quotaData tot (Z.of_nat (length (file_data file))) →
  ∃ ref st',
    upload_file sha256 user userData quotaData tags folderId isPublic tot ups it st
      = (Next (tot, (ups ++ [ref])%list), st')
    ∧ fr_id ref = make_file_id (au_id user) h (item_now it)
    ∧ fr_hash ref = h ∧ fr_size ref = fm_size e ∧ fr_uploader_id ref = au_id user
    ∧ kv_user st' = kv_user st ∧ kv_quota st' = kv_quota st
    ∧ kv_file st' = <[h := with_reference_count e (fm_reference_count e + 1)]> (kv_file st)
    ∧ kv_file_ref st' = <[fr_id ref := ref]> (kv_file_ref st)
    ∧ bucket st' = bucket st ∧ storage_calls st' = storage_calls st.
Proof.
  intros file h He Hq. apply quota_allows_guard in Hq.
  unfold upload_file. fold file. fold h. unfold_handlers.
  destruct quotaData as [q|]; [rewrite Hq|]; simpl.
  all: destruct (mime_mismatch _ _); simpl; rewrite He; simpl.
  all: eexists _, _; split; [reflexivity|]; simpl.
  all: repeat split; reflexivity.
Qed.

(** A delete by the uploader of an entry whose content record exists. *)
Lemma delete_file_owned user fileId ref fd q st :
  kv_file_ref st !! fileId = Some ref →
  fr_uploader_id ref = au_id user →
  kv_file st !! fr_hash ref = Some fd →
  kv_quota st !! au_id user = Some q →
  ∃ st',
    delete_file (Authenticated user) fileId st
      = (OkMessage "File deleted successfully", st')
    ∧ kv_user st' = kv_user st
    ∧ kv_file_ref st' = delete fileId (kv_file_ref st)
    ∧ if fm_reference_count fd - 1 <=? 0
      then kv_file st' = delete (fr_hash ref) (kv_file st)
           ∧ bucket st' = delete (fm_storage_path fd) (bucket st)
           ∧ kv_quota st'
             = <[au_id user :=
                   with_storage_used q (Z.max 0 (storage_used q - fr_size ref))]>
                 (kv_quota st)
           ∧ storage_calls st'
             = (storage_calls st ++ [StorageRemove (fm_storage_path fd)])%list
      else kv_file st'
           = <[fr_hash ref := with_reference_count fd (fm_reference_count fd - 1)]>
               (kv_file st)
           ∧ bucket st' = bucket st ∧ kv_quota st' = kv_quota st
           ∧ storage_calls st' = storage_calls st.
Proof.
  intros Href Hown Hfd Hq.
  unfold delete_file, try_catch, delete_handler. unfold_handlers.
  rewrite Href. simpl. rewrite Hown, String.eqb_refl. simpl. rewrite Hfd. simpl.
  destruct (fm_reference_count fd - 1 <=? 0) eqn:Hrc; simpl; rewrite Hq; simpl;
    rewrite ?Hrc; simpl.
  all: eexists; split; [reflexivity|]; simpl; repeat split; reflexivity.
Qed.

Lemma with_storage_used_back (q : Quota) (n : Z) :
  with_storage_used (with_storage_used q n) (storage_used q) = q.
Proof. destruct q. reflexivity. Qed.

(** X11: uploading new content and then deleting the entry undoes the
    upload: users, content records, entries and bucket are as before, and
    the quota table is as the rate limiter left it, so the bytes charged are
    refunded in full. *)
Theorem X11_upload_then_delete_restores now req st user it q :
  let h := calculateFileHash sha256 (file_data (item_file it)) in
  let fileId := make_file_id (au_id user) h (item_now it) in
  let st' := snd (upload sha256 now req st) in
  let st'' := snd (delete_file (Authenticated user) fileId st') in
  req_auth req = Authenticated user →
  req_files req = [it] →
  tags_well_formed (req_tags req) →
  item_fault it = None →
  fst (checkRateLimit now (au_id user) st) = Next true →
  kv_quota st !! au_id user = Some q →
  0 ≤ storage_used q →
  storage_used q + Z.of_nat (length (file_data (item_file it))) ≤ storage_limit q →
  kv_file st !! h = None →
  bucket st !! h = None →
  kv_file_ref st !! fileId = None →
  (∃ ref, fst (upload sha256 now req st) = OkFiles [ref] ∧ fr_id ref = fileId)
  ∧ fst (delete_file (Authenticated user) fileId st')
    = OkMessage "File deleted successfully"
  ∧ kv_user st'' = kv_user st
  ∧ kv_file st'' = kv_file st
  ∧ kv_file_ref st'' = kv_file_ref st
  ∧ bucket st'' = bucket st
  ∧ kv_quota st'' = kv_quota (snd (checkRateLimit now (au_id user) st))
  ∧ storage_calls st'' = (storage_calls st ++ [StorageUpload h; StorageRemove h])%list.
Proof.
  intros h fileId st' st'' Hauth Hfiles Htags Hfault Hrl Hq Hused Hroom Hnew Hobj Hfresh.
  destruct (checkRateLimit_outcome now (au_id user) st)
    as (b & st1 & q1 & Heq & U1 & F1 & R1 & B1 & S1 & _ & Hq1 & _ & Hq1used).
  rewrite Heq in Hrl. simpl in Hrl. injection Hrl as ->.
  rewrite Hq in Hq1used. destruct Hq1used as [Hu1 Hl1].
  assert (quota_allows (Some q1) 0 (Z.of_nat (length (file_data (item_file it)))))
    as Hallow by (simpl; lia).
  destruct (upload_file_new_stored user (kv_user st1 !! au_id user) (Some q1)
              (tags_of (req_tags req)) (req_folder_id req) (req_is_public req) 0 [] it st1)
    as (ref & e & st2 & Hstep & Hid & Hh & Hsize & Hown & Hrc & Hpath & _
        & U2 & Q2 & F2 & R2 & B2 & S2); auto.
  { rewrite F1. exact Hnew. }
  { rewrite B1. exact Hobj. }
  fold h in Hstep, Hid, Hh, F2, B2, S2, Hpath. fold fileId in Hid.
  assert (upload sha256 now req st
          = (OkFiles [ref],
             {| kv_user := kv_user st2;
                kv_quota := <[au_id user :=
                                with_storage_used q1
                                  (storage_used q1
                                   + (0 + Z.of_nat (length (file_data (item_file it)))))]>
                              (kv_quota st2);
                kv_file := kv_file st2; kv_file_ref := kv_file_ref st2;
                bucket := bucket st2; storage_calls := storage_calls st2;
                console := console st2 |})) as Hup.
  { rewrite (upload_after_rate_limit now req st user st1 q1 Hauth Heq Hq1 Htags)
      by (rewrite Hfiles; discriminate).
    rewrite Hfiles. unfold try_catch. unfold bind at 1.
    rewrite (upload_loop_single sha256), Hstep. reflexivity. }
  subst st''. subst st'. rewrite Hup. simpl.
  split; [exists ref; auto|].
  match goal with
  | |- context [delete_file ?a ?f ?s] =>
      destruct (delete_file_owned user f ref e
                  (with_storage_used q1
                     (storage_used q1 + (0 + Z.of_nat (length (file_data (item_file it))))))
                  s)
        as (st3 & Hdel & U3 & R3 & Hlast)
  end; simpl.
  { rewrite R2, Hid. apply lookup_insert_eq. }
  { exact Hown. }
  { rewrite Hh, F2. apply lookup_insert_eq. }
  { apply lookup_insert_eq. }
  rewrite Hdel. simpl.
  rewrite Hrc in Hlast. simpl in Hlast. destruct Hlast as (F3 & B3 & Q3 & S3).
  simpl in *. rewrite Heq. simpl.
  split; [reflexivity|].
  split; [rewrite U3, U2, U1; reflexivity|].
  split; [rewrite F3, Hh, F2, F1; apply delete_insert_id; exact Hnew|].
  split; [rewrite R3, R2, Hid, R1; apply delete_insert_id; exact Hfresh|].
  split; [rewrite B3, Hpath, B2, B1; apply delete_insert_id; exact Hobj|].
  split.
  - rewrite Q3, Q2, insert_insert_eq, Hsize.
    replace (Z.max 0 _) with (storage_used q1) by (simpl; lia).
    rewrite with_storage_used_back. apply insert_id. exact Hq1.
  - rewrite S3, S2, S1, Hpath, <- app_assoc. reflexivity.
Qed.


(** X8: two files of one batch with the same bytes, handled within the same
    millisecond, get the same entry id.  The answer lists two entries, the
    ledger holds one, and the content record counts two references; once
    that entry is deleted the content is still stored, still counted once
    and still charged, with no entry of this upload left to delete. *)
Theorem X8_same_millisecond_duplicate now req st user it1 it2 q :
  let h := calculateFileHash sha256 (file_data (item_file it1)) in
  let size := Z.of_nat (length (file_data (item_file it1))) in
  let fileId := make_file_id (au_id user) h (item_now it1) in
  let st' := snd (upload sha256 now req st) in
  let st'' := snd (delete_file (Authenticated user) fileId st') in
  req_auth req = Authenticated user →
  req_files req = [it1; it2] →
  file_data (item_file it2) = file_data (item_file it1) →
  item_now it2 = item_now it1 →
  tags_well_formed (req_tags req) →
  item_fault it1 = None →
  fst (checkRateLimit now (au_id user) st) = Next true →
  kv_quota st !! au_id user = Some q →
  storage_used q + size + size ≤ storage_limit q →
  kv_file st !! h = None →
  bucket st !! h = None →
  kv_file_ref st !! fileId = None →
  (∃ ref1 ref2, fst (upload sha256 now req st) = OkFiles [ref1; ref2]
     ∧ fr_id ref1 = fileId ∧ fr_id ref2 = fileId
     ∧ kv_file_ref st' = <[fileId := ref2]> (kv_file_ref st))
  ∧ fm_reference_count <$> kv_file st' !! h = Some 2
  ∧ fst (delete_file (Authenticated user) fileId st')
    = OkMessage "File deleted successfully"
  ∧ kv_file_ref st'' = kv_file_ref st
  ∧ fm_reference_count <$> kv_file st'' !! h = Some 1
  ∧ is_Some (bucket st'' !! h)
  ∧ storage_used <$> kv_quota st'' !! au_id user = Some (storage_used q + size).
Proof.
  intros h size fileId st' st'' Hauth Hfiles Hdata Hclock Htags Hfault Hrl Hq Hroom
    Hnew Hobj Hfresh.
  destruct (checkRateLimit_outcome now (au_id user) st)
    as (b & st1 & q1 & Heq & U1 & F1 & R1 & B1 & S1 & _ & Hq1 & _ & Hq1used).
  rewrite Heq in Hrl. simpl in Hrl. injection Hrl as ->.
  rewrite Hq in Hq1used. destruct Hq1used as [Hu1 Hl1].
  assert (0 ≤ size) as Hsize0 by (unfold size; lia).
  assert (quota_allows (Some q1) 0 size) as Hallow1 by (simpl; lia).
  destruct (upload_file_new_stored user (kv_user st1 !! au_id user) (Some q1)
              (tags_of (req_tags req)) (req_folder_id req) (req_is_public req) 0 [] it1 st1)
    as (ref1 & e & st2 & Hstep1 & Hid1 & Hh1 & Hsize1 & Hown1 & Hrc & Hpath & _
        & U2 & Q2 & F2 & R2 & B2 & S2); auto.
  { rewrite F1. exact Hnew. }
  { rewrite B1. exact Hobj. }
  fold h in Hstep1, Hid1, Hh1, F2, B2, S2, Hpath. fold fileId in Hid1.
  fold size in Hstep1, Hsize1.
  assert (kv_file st2 !! calculateFileHash sha256 (file_data (item_file it2)) = Some e)
    as He2 by (rewrite Hdata, F2; apply lookup_insert_eq).
  assert (quota_allows (Some q1) (0 + size)
            (Z.of_nat (length (file_data (item_file it2))))) as Hallow2.
  { rewrite Hdata. fold size. simpl. lia. }
  destruct (upload_file_duplicate_entry user (kv_user st1 !! au_id user) (Some q1)
              (tags_of (req_tags req)) (req_folder_id req) (req_is_public req)
              (0 + size) [ref1] it2 st2 e He2 Hallow2)
    as (ref2 & st3 & Hstep2 & Hid2 & Hh2 & _ & Hown2 & U3 & Q3 & F3 & R3 & B3 & S3).
  rewrite Hdata, Hclock in Hid2. fold h in Hid2. fold fileId in Hid2.
  rewrite Hdata in F3, Hh2. fold h in F3, Hh2.
  assert (upload sha256 now req st
          = (OkFiles [ref1; ref2],
             {| kv_user := kv_user st3;
                kv_quota := <[au_id user :=
                                with_storage_used q1 (storage_used q1 + (0 + size))]>
                              (kv_quota st3);
                kv_file := kv_file st3; kv_file_ref := kv_file_ref st3;
                bucket := bucket st3; storage_calls := storage_calls st3;
                console := console st3 |})) as Hup.
  { rewrite (upload_after_rate_limit now req st user st1 q1 Hauth Heq Hq1 Htags)
      by (rewrite Hfiles; discriminate).
    rewrite Hfiles. unfold try_catch. unfold bind at 1.
    change (upload_loop sha256 user (kv_user st1 !! au_id user) (Some q1)
              (tags_of (req_tags req)) (req_folder_id req) (req_is_public req)
              [it1; it2] 0 [])
      with (bind (upload_file sha256 user (kv_user st1 !! au_id user) (Some q1)
                    (tags_of (req_tags req)) (req_folder_id req) (req_is_public req)
                    0 [] it1)
              (λ p, bind (upload_file sha256 user (kv_user st1 !! au_id user) (Some q1)
                            (tags_of (req_tags req)) (req_folder_id req)
                            (req_is_public req) (fst p) (snd p) it2)
                      (λ p', pure (fst p', snd p')))).
    unfold bind at 1. rewrite Hstep1. unfold bind at 1. simpl fst. simpl snd.
    simpl app. rewrite Hstep2. reflexivity. }
  subst st''. subst st'. rewrite Hup. simpl.
  assert (kv_file_ref st3 = <[fileId := ref2]> (kv_file_ref st)) as Hrefs.
  { rewrite R3, Hid2, R2, Hid1, insert_insert_eq, R1. reflexivity. }
  assert (kv_file st3 = <[h := with_reference_count e (fm_reference_count e + 1)]>
                          (kv_file st)) as Hrecs.
  { rewrite F3, F2, insert_insert_eq, F1. reflexivity. }
  split; [exists ref1, ref2; auto|].
  split; [rewrite Hrecs, lookup_insert_eq; simpl; rewrite Hrc; reflexivity|].
  match goal with
  | |- context [delete_file ?a ?f ?s] =>
      destruct (delete_file_owned user f ref2
                  (with_reference_count e (fm_reference_count e + 1))
                  (with_storage_used q1 (storage_used q1 + (0 + size))) s)
        as (st4 & Hdel & U4 & R4 & Hlast)
  end; simpl.
  { rewrite Hrefs. apply lookup_insert_eq. }
  { exact Hown2. }
  { rewrite Hh2, Hrecs. apply lookup_insert_eq. }
  { apply lookup_insert_eq. }
  rewrite Hdel. simpl.
  rewrite Hrc in Hlast. simpl in Hlast. destruct Hlast as (F4 & B4 & Q4 & S4).
  simpl in *.
  split; [reflexivity|].
  split; [rewrite R4, Hrefs; apply delete_insert_id; exact Hfresh|].
  split; [rewrite F4, Hh2, Hrecs, insert_insert_eq, lookup_insert_eq; simpl;
          rewrite ?Hrc; reflexivity|].
  split; [rewrite B4, B3, B2; rewrite lookup_insert_eq; eauto|].
  rewrite Q4, lookup_insert_eq. simpl. f_equal. lia.
Qed.

End ExactSteps.

Lemma X11_upload_then_delete_witness :
  kv_file (snd (delete_file (Authenticated U1) idB1
                  (snd (upload sample_digest 1000 first_upload store_signed_up))))
  = kv_file store_signed_up
  ∧ kv_file_ref (snd (delete_file (Authenticated U1) idB1
                        (snd (upload sample_digest 1000 first_upload store_signed_up))))
    = kv_file_ref store_signed_up
  ∧ bucket (snd (delete_file (Authenticated U1) idB1
                   (snd (upload sample_digest 1000 first_upload store_signed_up))))
    = bucket store_signed_up
  ∧ kv_quota (snd (delete_file (Authenticated U1) idB1
                     (snd (upload sample_digest 1000 first_upload store_signed_up))))
    = kv_quota (snd (checkRateLimit 1000 "u1" store_signed_up)).
Proof.
  destruct (X11_upload_then_delete_restores sample_digest 1000 first_upload
              store_signed_up U1 (sample_file "b.png" "image/png" bytesB 1000)
              (fresh_quota "u1"))
    as (_ & _ & _ & HF & HR & HB & HQ & _).
  - reflexivity.
  - reflexivity.
  - exact I.
  - reflexivity.
  - vm_compute. reflexivity.
  - vm_compute. reflexivity.
  - simpl. lia.
  - vm_compute. discriminate.
  - vm_compute. reflexivity.
  - vm_compute. reflexivity.
  - vm_compute. reflexivity.
  - split; [exact HF|]. split; [exact HR|]. split; [exact HB | exact HQ].
Defined.

Lemma X8_same_millisecond_witness :
  fm_reference_count <$>
    kv_file (snd (upload sample_digest 1000 upload_B_twice store_signed_up)) !! hashB
  = Some 2
  ∧ kv_file_ref (snd (delete_file (Authenticated U1) idB1
                        (snd (upload sample_digest 1000 upload_B_twice store_signed_up))))
    = kv_file_ref store_signed_up
  ∧ fm_reference_count <$>
      kv_file (snd (delete_file (Authenticated U1) idB1
                      (snd (upload sample_digest 1000 upload_B_twice store_signed_up))))
        !! hashB
    = Some 1
  ∧ storage_used <$>
      kv_quota (snd (delete_file (Authenticated U1) idB1
                       (snd (upload sample_digest 1000 upload_B_twice store_signed_up))))
        !! "u1"
    = Some (0 + 5).
Proof.
  destruct (X8_same_millisecond_duplicate sample_digest 1000 upload_B_twice
              store_signed_up U1 (sample_file "b.png" "image/png" bytesB 1000)
              (sample_file "b-copy.png" "image/png" bytesB 1000) (fresh_quota "u1"))
    as (_ & H2 & _ & HR & H1 & _ & HQ).
  - reflexivity.
  - reflexivity.
  - reflexivity.
  - reflexivity.
  - exact I.
  - reflexivity.
  - vm_compute. reflexivity.
  - vm_compute. reflexivity.
  - vm_compute. discriminate.
  - vm_compute. reflexivity.
  - vm_compute. reflexivity.
  - vm_compute. reflexivity.
  - split; [exact H2|]. split; [exact HR|]. split; [exact H1 | exact HQ].
Defined.

(** ** Download, share and user info *)

Section Sharing.

Lemma nrefs_insert_same_hash h fid r r' (m : gmap string FileRef) :
  m !! fid = Some r → fr_hash r' = fr_hash r →
  nrefs h (<[fid := r']> m) = nrefs h m.
Proof.
  intros Hm Hh. unfold nrefs. rewrite map_filter_insert. simpl.
  destruct (decide (fr_hash r' = h)) as [Heq|Hne].
  - rewrite map_size_insert.
    rewrite (map_lookup_filter_Some_2 _ m fid r Hm) by (simpl; congruence).
    reflexivity.
  - rewrite map_filter_delete, map_size_delete.
    destruct (filter _ m !! fid) as [r0|] eqn:Hf; [|reflexivity].
    apply map_lookup_filter_Some in Hf as [Hf1 Hf2]. simpl in Hf2.
    rewrite Hm in Hf1. injection Hf1 as <-. congruence.
Qed.

Lemma download_granted_answer fileId ref url w :
  fst (download_granted fileId ref (inr url) w)
  = DownloadUrl url (fr_filename ref) (fr_mime_type ref) (fr_size ref).
Proof. reflexivity. Qed.

(** X12: sharing grants the download.  Once the uploader has shared an
    entry with the holder of an address the table lists, that holder's
    download is answered with the signed URL; before, with the entry
    private and no share record, the same download was answered 403. *)
Theorem X12_share_then_download now owner reader body allUsers target ref url w :
  kv_file_ref (w_store w) !! share_file_id body = Some ref →
  fr_uploader_id ref = au_id owner →
  shared_with_user_email body ≠ EmptyString →
  find (λ u, String.eqb (u_email u) (shared_with_user_email body)) allUsers
  = Some target →
  u_id target = au_id reader →
  fst (share_file now (Authenticated owner) body allUsers w)
  = OkMessage "File shared successfully"
  ∧ fst (download_file (Authenticated reader) (share_file_id body) (inr url)
           (snd (share_file now (Authenticated owner) body allUsers w)))
    = DownloadUrl url (fr_filename ref) (fr_mime_type ref) (fr_size ref)
  ∧ (fr_is_public ref = false → au_id reader ≠ au_id owner →
     kv_get_share (shareKey (share_file_id body) (au_id reader)) w = None →
     download_file (Authenticated reader) (share_file_id body) (inr url) w
     = (DownloadError 403 "Access denied", w)).
Proof.
  intros Href Hown Hmail Hfind Htarget.
  assert (String.eqb (shared_with_user_email body) EmptyString = false) as Hmail'
    by (apply String.eqb_neq; exact Hmail).
  unfold share_file. rewrite Href, Hown, String.eqb_refl, Hmail', Hfind. simpl.
  split; [reflexivity|]. split.
  - unfold download_file, kv_get_share, kv_set_share, kv_set_file_ref, with_store.
    rewrite Htarget.
    destruct (share_is_public body); simpl.
    + rewrite lookup_insert_eq. reflexivity.
    + rewrite Href, lookup_insert_eq.
      destruct (negb (fr_is_public ref) && _); reflexivity.
  - intros Hpriv Hne Hnone. unfold download_file. rewrite Href, Hpriv, Hown, Hnone.
    assert (String.eqb (au_id owner) (au_id reader) = false) as ->
      by (apply String.eqb_neq; congruence).
    reflexivity.
Qed.

(** X13: a share that fails half-way has already published.  Asked to make
    an entry public and to share it with an address nobody holds, the route
    answers 404 "User not found", and the entry is public from then on: any
    caller's download of it is answered with the signed URL. *)
Theorem X13_failed_share_still_publishes now owner body allUsers ref w :
  kv_file_ref (w_store w) !! share_file_id body = Some ref →
  fr_uploader_id ref = au_id owner →
  share_is_public body = true →
  shared_with_user_email body ≠ EmptyString →
  find (λ u, String.eqb (u_email u) (shared_with_user_email body)) allUsers = None →
  fst (share_file now (Authenticated owner) body allUsers w)
  = JsonError 404 "User not found"
  ∧ kv_file_ref (w_store (snd (share_file now (Authenticated owner) body allUsers w)))
      !! share_file_id body
    = Some (with_is_public ref true)
  ∧ ∀ reader url,
      fst (download_file (Authenticated reader) (share_file_id body) (inr url)
             (snd (share_file now (Authenticated owner) body allUsers w)))
      = DownloadUrl url (fr_filename ref) (fr_mime_type ref) (fr_size ref).
Proof.
  intros Href Hown Hpub Hmail Hfind.
  assert (String.eqb (shared_with_user_email body) EmptyString = false) as Hmail'
    by (apply String.eqb_neq; exact Hmail).
  unfold share_file. rewrite Href, Hown, String.eqb_refl, Hpub, Hmail', Hfind. simpl.
  split; [reflexivity|].
  split; [apply lookup_insert_eq|].
  intros reader url. unfold download_file. simpl. rewrite lookup_insert_eq. reflexivity.
Qed.

(** X14: what has been opened up stays open.  Neither a share request nor
    a download ever makes a public entry private or removes a share record,
    whoever sends it and whatever it asks. *)
Theorem X14_sharing_is_never_withdrawn now auth body allUsers fileId signed w :
  sharing_kept w (snd (share_file now auth body allUsers w))
  ∧ sharing_kept w (snd (download_file auth fileId signed w)).
Proof.
  unfold sharing_kept. split.
  - unfold share_file, kv_set_share, with_store, kv_set_file_ref.
    repeat (case_match; simpl in *; simplify_eq).
    all: split; [intros fid ref0 Hfid Hp | intros key Hkey]; simpl.
    all: try solve [eauto].
    all: try (destruct (decide (share_file_id body = fid)) as [->|Hne];
              [rewrite lookup_insert_eq; eauto | rewrite lookup_insert_ne by done; eauto]).
    all: rewrite lookup_insert_is_Some;
         match goal with
         | |- ?k = ?j ∨ _ => destruct (decide (k = j)); auto
         end.
  - unfold download_file, download_granted, with_store, kv_set_file_ref.
    repeat (case_match; simpl in *; simplify_eq).
    all: split; [intros fid ref0 Hfid Hp | intros key Hkey]; simpl.
    all: try solve [eauto].
    all: destruct (decide (fileId = fid)) as [->|Hne];
           [rewrite lookup_insert_eq; simplify_eq; eauto
           | rewrite lookup_insert_ne by done; eauto].
Qed.

(** X15: a download counts and does nothing else: users, quotas, content
    records, bucket and share records are as before, every other entry is
    as before, each content has as many entries as before, and the ledgers'
    invariants are kept. *)
Theorem X15_download_only_counts auth fileId signed w :
  let w' := snd (download_file auth fileId signed w) in
  kv_user (w_store w') = kv_user (w_store w)
  ∧ kv_quota (w_store w') = kv_quota (w_store w)
  ∧ kv_file (w_store w') = kv_file (w_store w)
  ∧ bucket (w_store w') = bucket (w_store w)
  ∧ storage_calls (w_store w') = storage_calls (w_store w)
  ∧ w_share w' = w_share w
  ∧ (∀ fid, fid ≠ fileId →
       kv_file_ref (w_store w') !! fid = kv_file_ref (w_store w) !! fid)
  ∧ (∀ ref', kv_file_ref (w_store w') !! fileId = Some ref' →
       ∃ ref, kv_file_ref (w_store w) !! fileId = Some ref
         ∧ (ref' = ref
            ∨ ref' = with_download_count ref (fr_download_count ref + 1)))
  ∧ (∀ h, nrefs h (kv_file_ref (w_store w')) = nrefs h (kv_file_ref (w_store w)))
  ∧ (vault_inv (w_store w) → vault_inv (w_store w')).
Proof.
  cbv zeta.
  assert (∀ st', kv_quota st' = kv_quota (w_store w) → kv_file st' = kv_file (w_store w) →
            (∀ h, nrefs h (kv_file_ref st') = nrefs h (kv_file_ref (w_store w))) →
            vault_inv (w_store w) → vault_inv st') as Hinv.
  { intros st' Q F N [Hq Hrc]. split.
    - unfold quota_nonneg. rewrite Q. exact Hq.
    - intros h. specialize (Hrc h). rewrite F, N. exact Hrc. }
  assert (∀ r, kv_file_ref (w_store w) !! fileId = Some r →
    let w' := snd (download_granted fileId r signed w) in
    kv_user (w_store w') = kv_user (w_store w)
    ∧ kv_quota (w_store w') = kv_quota (w_store w)
    ∧ kv_file (w_store w') = kv_file (w_store w)
    ∧ bucket (w_store w') = bucket (w_store w)
    ∧ storage_calls (w_store w') = storage_calls (w_store w)
    ∧ w_share w' = w_share w
    ∧ (∀ fid, fid ≠ fileId →
         kv_file_ref (w_store w') !! fid = kv_file_ref (w_store w) !! fid)
    ∧ (∀ ref', kv_file_ref (w_store w') !! fileId = Some ref' →
         ∃ ref, kv_file_ref (w_store w) !! fileId = Some ref
           ∧ (ref' = ref
              ∨ ref' = with_download_count ref (fr_download_count ref + 1)))
    ∧ (∀ h, nrefs h (kv_file_ref (w_store w')) = nrefs h (kv_file_ref (w_store w)))
    ∧ (vault_inv (w_store w) → vault_inv (w_store w'))) as Hgranted.
  { intros r Hr. cbv zeta. unfold download_granted.
    destruct signed as [msg|url]; simpl.
    - split_and!; auto. intros ref' H. eauto.
    - assert (∀ h, nrefs h (<[fileId := with_download_count r (fr_download_count r + 1)]>
                              (kv_file_ref (w_store w)))
                   = nrefs h (kv_file_ref (w_store w))) as N
        by (intros h; apply (nrefs_insert_same_hash h fileId r); [exact Hr | reflexivity]).
      split_and!; auto.
      + intros fid Hne. apply lookup_insert_ne. congruence.
      + intros ref'. rewrite lookup_insert_eq. intros [= <-]. eauto. }
  unfold download_file.
  destruct auth as [| |user]; simpl.
  1, 2: split_and!; auto; intros ref' H; eauto.
  destruct (kv_file_ref (w_store w) !! fileId) as [r|] eqn:Hr; simpl.
  2: split_and!; auto; intros ref' H; simpl in H; congruence.
  destruct (negb (fr_is_public r) && _); [|apply Hgranted; reflexivity].
  destruct (kv_get_share _ _); [apply Hgranted; reflexivity|].
  split_and!; auto. intros ref' H. simpl in H. exists r. split; [reflexivity|].
  left. congruence.
Qed.

(** X16: the browser-side download checks nothing.  For a private entry,
    a caller who did not upload it and holds no share record is refused by
    the edge function, with nothing changed; the browser-side path, which
    never asks who calls, hands out the signed URL and counts a download. *)
Theorem X16_client_download_skips_access_check reader fileId ref url w :
  kv_file_ref (w_store w) !! fileId = Some ref →
  fr_is_public ref = false →
  fr_uploader_id ref ≠ au_id reader →
  kv_get_share (shareKey fileId (au_id reader)) w = None →
  download_file (Authenticated reader) fileId (inr url) w
  = (DownloadError 403 "Access denied", w)
  ∧ fst (downloadFileClientSide fileId (inr url) (w_store w))
    = DownloadResolved url (fr_filename ref) (fr_mime_type ref) (fr_size ref)
  ∧ fr_download_count <$>
      kv_file_ref (snd (downloadFileClientSide fileId (inr url) (w_store w))) !! fileId
    = Some (fr_download_count ref + 1).
Proof.
  intros Href Hpriv Hown Hnone.
  apply String.eqb_neq in Hown.
  unfold download_file, downloadFileClientSide. rewrite Href, Hpriv, Hown, Hnone. simpl.
  rewrite lookup_insert_eq. auto.
Qed.

Lemma js_or_nonempty (a b : string) : b ≠ EmptyString → js_or a b ≠ EmptyString.
Proof.
  unfold js_or. intros Hb. destruct (String.eqb_spec a EmptyString); auto.
Qed.

(** X17: the user route creates a record once and never rewrites one.  For
    a caller without record it stores one under the caller's id, with a
    name that is never empty, and creates no quota record; asking again,
    whatever the identity provider then says of the caller, answers with the
    stored record and changes nothing. *)
Theorem X17_user_record_created_once user profile profile' st :
  (∃ u, fst (get_user (Authenticated user) profile st) = UserInfo u
     ∧ kv_user (snd (get_user (Authenticated user) profile st)) !! au_id user = Some u
     ∧ match kv_user st !! au_id user with
       | Some u0 => u = u0
       | None => u_id u = au_id user ∧ u_name u ≠ EmptyString
       end)
  ∧ kv_quota (snd (get_user (Authenticated user) profile st)) = kv_quota st
  ∧ get_user (Authenticated user) profile' (snd (get_user (Authenticated user) profile st))
    = (fst (get_user (Authenticated user) profile st),
       snd (get_user (Authenticated user) profile st)).
Proof.
  unfold get_user. destruct (kv_user st !! au_id user) as [u0|] eqn:Hu; simpl.
  - rewrite Hu. split; [exists u0; auto | auto].
  - rewrite lookup_insert_eq. split; [|auto].
    eexists. split; [reflexivity|]. split; [reflexivity|]. simpl.
    split; [reflexivity|]. apply js_or_nonempty. discriminate.
Qed.

(** X18: the two limiters agree.  The browser-side [checkRateLimit] gives
    the answer the edge function's gives, and for a caller with a quota
    record it leaves the same store. *)
Theorem X18_limiters_agree now0 now userId st :
  fst (FileOperations.checkRateLimit now0 now userId st)
  = fst (checkRateLimit now userId st)
  ∧ (is_Some (kv_quota st !! userId) →
     FileOperations.checkRateLimit now0 now userId st = checkRateLimit now userId st).
Proof.
  unfold FileOperations.checkRateLimit, checkRateLimit, getUserQuota. unfold_handlers.
  destruct (kv_quota st !! userId) as [q|] eqn:Hq; simpl.
  - repeat case_match; auto.
  - split; [|intros [? ?]; discriminate].
    repeat case_match; simpl in *; auto.
Qed.

(** X19: only uploads count against the rate limit.  Delete, download,
    share and the user route leave the limiter's fields of every quota
    record as they were. *)
Theorem X19_only_uploads_are_rate_limited :
  (∀ auth fileId st, rate_fields_kept st (snd (delete_file auth fileId st)))
  ∧ (∀ auth fileId signed w,
       rate_fields_kept (w_store w) (w_store (snd (download_file auth fileId signed w))))
  ∧ (∀ now auth body allUsers w,
       rate_fields_kept (w_store w) (w_store (snd (share_file now auth body allUsers w))))
  ∧ (∀ auth profile st, rate_fields_kept st (snd (get_user auth profile st))).
Proof.
  split; [|split; [|split]].
  - intros auth fileId st. unfold delete_file, try_catch, delete_handler.
    destruct auth as [| |user]; simpl; [intros u; reflexivity..|].
    unfold_handlers.
    repeat (case_match; simpl in *; simplify_eq).
    all: intros u; simpl; try reflexivity.
    all: destruct (decide (au_id user = u)) as [<-|Hne];
           [rewrite lookup_insert_eq | rewrite lookup_insert_ne by done; reflexivity].
    all: match goal with
         | H : kv_quota _ !! _ = Some _ |- _ => simpl in H; rewrite H
         end.
    all: reflexivity.
  - intros auth fileId signed w. unfold download_file, download_granted.
    repeat (case_match; simpl in *; simplify_eq); intros k; reflexivity.
  - intros now auth body allUsers w. unfold share_file.
    repeat (case_match; simpl in *; simplify_eq); intros k; reflexivity.
  - intros auth profile st. unfold get_user.
    repeat (case_match; simpl in *; simplify_eq); intros k; reflexivity.
Qed.

End Sharing.

Lemma X12_share_then_download_witness :
  fst (share_file 2000 (Authenticated U1) (share_B_with "u2@vault.test" false)
         sample_users world_first_upload)
  = OkMessage "File shared successfully"
  ∧ fst (download_file (Authenticated U2) idB1 (inr "https://signed.test/b")
           (snd (share_file 2000 (Authenticated U1) (share_B_with "u2@vault.test" false)
                   sample_users world_first_upload)))
    = DownloadUrl "https://signed.test/b" "b.png" "image/png" 5
  ∧ download_file (Authenticated U2) idB1 (inr "https://signed.test/b") world_first_upload
    = (DownloadError 403 "Access denied", world_first_upload).
Proof.
  assert (∃ ref, kv_file_ref store_first_upload !! idB1 = Some ref
                 ∧ fr_uploader_id ref = "u1" ∧ fr_is_public ref = false
                 ∧ fr_filename ref = "b.png" ∧ fr_mime_type ref = "image/png"
                 ∧ fr_size ref = 5)
    as (ref & Href & Hown & Hpriv & Hname & Hmime & Hsize).
  { eexists. split; [vm_compute; reflexivity|]. repeat split; reflexivity. }
  destruct (X12_share_then_download 2000 U1 U2 (share_B_with "u2@vault.test" false)
              sample_users
              {| u_id := "u2"; u_email := "u2@vault.test"; u_name := "u2";
                 u_is_admin := false; u_created_at := 0 |}
              ref "https://signed.test/b" world_first_upload)
    as (Hshare & Hdown & Hbefore).
  - exact Href.
  - exact Hown.
  - simpl. discriminate.
  - reflexivity.
  - reflexivity.
  - split; [exact Hshare|]. split.
    + rewrite <- Hname, <- Hmime, <- Hsize. exact Hdown.
    + apply Hbefore; [exact Hpriv | simpl; discriminate | reflexivity].
Defined.

Lemma X13_failed_share_witness :
  fst (share_file 2000 (Authenticated U1) (share_B_with "nobody@vault.test" true)
         sample_users world_first_upload)
  = JsonError 404 "User not found"
  ∧ fst (download_file (Authenticated U2) idB1 (inr "https://signed.test/b")
           (snd (share_file 2000 (Authenticated U1)
                   (share_B_with "nobody@vault.test" true)
                   sample_users world_first_upload)))
    = DownloadUrl "https://signed.test/b" "b.png" "image/png" 5.
Proof.
  assert (∃ ref, kv_file_ref store_first_upload !! idB1 = Some ref
                 ∧ fr_uploader_id ref = "u1"
                 ∧ fr_filename ref = "b.png" ∧ fr_mime_type ref = "image/png"
                 ∧ fr_size ref = 5)
    as (ref & Href & Hown & Hname & Hmime & Hsize).
  { eexists. split; [vm_compute; reflexivity|]. repeat split; reflexivity. }
  destruct (X13_failed_share_still_publishes 2000 U1
              (share_B_with "nobody@vault.test" true) sample_users ref world_first_upload)
    as (Hshare & _ & Hdown).
  - exact Href.
  - exact Hown.
  - reflexivity.
  - simpl. discriminate.
  - reflexivity.
  - split; [exact Hshare|].
    rewrite <- Hname, <- Hmime, <- Hsize. apply Hdown.
Defined.

Lemma X16_client_download_witness :
  download_file (Authenticated U2) idB1 (inr "https://signed.test/b") world_first_upload
  = (DownloadError 403 "Access denied", world_first_upload)
  ∧ fst (downloadFileClientSide idB1 (inr "https://signed.test/b") store_first_upload)
    = DownloadResolved "https://signed.test/b" "b.png" "image/png" 5.
Proof.
  assert (∃ ref, kv_file_ref store_first_upload !! idB1 = Some ref
                 ∧ fr_uploader_id ref = "u1" ∧ fr_is_public ref = false
                 ∧ fr_filename ref = "b.png" ∧ fr_mime_type ref = "image/png"
                 ∧ fr_size ref = 5)
    as (ref & Href & Hown & Hpriv & Hname & Hmime & Hsize).
  { eexists. split; [vm_compute; reflexivity|]. repeat split; reflexivity. }
  destruct (X16_client_download_skips_access_check U2 idB1 ref "https://signed.test/b"
              world_first_upload)
    as (Hserver & Hclient & _).
  - exact Href.
  - exact Hpriv.
  - rewrite Hown. simpl. discriminate.
  - reflexivity.
  - split; [exact Hserver|].
    rewrite <- Hname, <- Hmime, <- Hsize. exact Hclient.
Defined.

(** ** Content addressing *)

Section Addressing.

Variable sha256 : list byte → list byte.

Lemma addressing_inv_added st st' h e fid ref :
  kv_file st' = <[h := e]> (kv_file st) →
  kv_file_ref st' = <[fid := ref]> (kv_file_ref st) →
  (bucket st' = bucket st
   ∨ ∃ ct data, bucket st' = <[h := (ct, data)]> (bucket st)
                ∧ calculateFileHash sha256 data = h) →
  fm_hash e = h → fm_storage_path e = h →
  fr_id ref = fid →
  (∃ now, fid = make_file_id (fr_uploader_id ref) (fr_hash ref) now) →
  fr_storage_path ref = fr_hash ref →
  addressing_inv sha256 st → addressing_inv sha256 st'.
Proof.
  intros F R B He1 He2 Hr1 Hr2 Hr3 (Hb & Hf & Hrefs). split; [|split].
  - intros p ct data. destruct B as [-> | (ct0 & data0 & -> & Hh)]; [apply Hb|].
    destruct (decide (h = p)) as [<-|Hne].
    + rewrite lookup_insert_eq. intros [= <- <-]. exact Hh.
    + rewrite lookup_insert_ne by done. apply Hb.
  - intros h' f. rewrite F. destruct (decide (h = h')) as [<-|Hne].
    + rewrite lookup_insert_eq. intros [= <-]. auto.
    + rewrite lookup_insert_ne by done. apply Hf.
  - intros fid' r. rewrite R. destruct (decide (fid = fid')) as [<-|Hne].
    + rewrite lookup_insert_eq. intros [= <-]. auto.
    + rewrite lookup_insert_ne by done. apply Hrefs.
Qed.

Lemma addressing_inv_kept st st' :
  kv_file st' = kv_file st → kv_file_ref st' = kv_file_ref st →
  bucket st' = bucket st →
  addressing_inv sha256 st → addressing_inv sha256 st'.
Proof.
  unfold addressing_inv, bucket_addressed, records_keyed, entries_keyed.
  intros -> -> ->. auto.
Qed.

Ltac addressing_tac :=
  intros Hinv;
  eapply addressing_inv_added;
    [simpl; rewrite ?insert_insert_eq; reflexivity
    | reflexivity
    | simpl; first [left; reflexivity | right; eexists _, _; split; reflexivity]
    | simpl | simpl | reflexivity | eexists; reflexivity | simpl | exact Hinv];
  try reflexivity;
  match goal with
  | H : kv_file _ !! _ = Some _ |- _ =>
      apply (proj1 (proj2 Hinv)) in H; destruct H as [? ?]; congruence
  end.

Lemma upload_file_addressing user userData quotaData tags folderId isPublic tot ups it st :
  addressing_inv sha256 st →
  addressing_inv sha256
    (snd (upload_file sha256 user userData quotaData tags folderId isPublic tot ups it st)).
Proof.
  unfold upload_file. unfold_handlers.
  repeat (case_match; simpl in *; simplify_eq).
  all: try (apply addressing_inv_kept; reflexivity).
  all: addressing_tac.
Qed.

Lemma client_upload_file_addressing userId quota options tot ups it st :
  addressing_inv sha256 st →
  addressing_inv sha256
    (snd (client_upload_file sha256 userId quota options tot ups it st)).
Proof.
  unfold client_upload_file. unfold_handlers.
  repeat (case_match; simpl in *; simplify_eq).
  all: try (apply addressing_inv_kept; reflexivity).
  all: addressing_tac.
Qed.


Lemma upload_loop_addressing user userData quotaData tags folderId isPublic files :
  ∀ tot ups st,
  addressing_inv sha256 st →
  addressing_inv sha256
    (snd (upload_loop sha256 user userData quotaData tags folderId isPublic files
            tot ups st)).
Proof.
  induction files as [|it rest IH]; intros tot ups st Hinv; [exact Hinv|].
  change (upload_loop sha256 user userData quotaData tags folderId isPublic (it :: rest) tot ups)
    with (bind (upload_file sha256 user userData quotaData tags folderId isPublic tot ups it)
            (λ p, upload_loop sha256 user userData quotaData tags folderId isPublic
                    rest (fst p) (snd p))).
  unfold bind.
  pose proof (upload_file_addressing user userData quotaData tags folderId isPublic
                tot ups it st Hinv) as Hstep.
  destruct (upload_file _ _ _ _ _ _ _ _ _ _ _) as [[p| |] st1]; simpl in *;
    [apply IH; exact Hstep | exact Hstep..].
Qed.

Lemma client_upload_loop_addressing userId quota options files :
  ∀ tot ups st,
  addressing_inv sha256 st →
  addressing_inv sha256
    (snd (client_upload_loop sha256 userId quota options files tot ups st)).
Proof.
  induction files as [|it rest IH]; intros tot ups st Hinv; [exact Hinv|].
  change (client_upload_loop sha256 userId quota options (it :: rest) tot ups)
    with (bind (client_upload_file sha256 userId quota options tot ups it)
            (λ p, client_upload_loop sha256 userId quota options rest (fst p) (snd p))).
  unfold bind.
  pose proof (client_upload_file_addressing userId quota options tot ups it st Hinv)
    as Hstep.
  destruct (client_upload_file _ _ _ _ _ _ _ _) as [[p| |] st1]; simpl in *;
    [apply IH; exact Hstep | exact Hstep..].
Qed.

Lemma upload_addressing now req st :
  addressing_inv sha256 st → addressing_inv sha256 (snd (upload sha256 now req st)).
Proof.
  intros Hinv. unfold upload, try_catch, upload_handler.
  destruct (req_auth req) as [| |user]; simpl; [exact Hinv..|].
  destruct (checkRateLimit_outcome now (au_id user) st)
    as (b & st1 & q1 & Hrl & _ & F1 & R1 & B1 & _ & _ & Hq1 & _ & _).
  assert (addressing_inv sha256 st1) as Hinv1
    by (apply (addressing_inv_kept st); assumption).
  unfold bind at 1. rewrite Hrl.
  destruct b; simpl; [|exact Hinv1].
  destruct (req_tags req) as [|msg|tags]; unfold bind at 1; unfold pure at 1, throw;
    simpl; try exact Hinv1.
  all: destruct (req_files req) as [|it rest] eqn:Hfiles; [exact Hinv1|].
  all: unfold bind at 1, kv_get_user; unfold bind at 1, kv_get_quota; rewrite Hq1.
  all: unfold bind at 1.
  all: match goal with
       | |- context [upload_loop sha256 ?us ?ud ?qd ?tg ?fo ?pu ?fs 0 [] ?s1] =>
           pose proof (upload_loop_addressing us ud qd tg fo pu fs 0 [] s1 Hinv1) as Hloop
       end.
  all: destruct (upload_loop _ _ _ _ _ _ _ _ _ _ _) as [[p|r|] st2]; simpl in *.
  all: exact Hloop.
Qed.

Lemma uploadFilesClientSide_addressing userId now files options st :
  addressing_inv sha256 st →
  addressing_inv sha256 (snd (uploadFilesClientSide sha256 userId now files options st)).
Proof.
  intros Hinv. unfold uploadFilesClientSide, run_client, uploadFilesClientSide_body.
  destruct userId as [userId|]; simpl; [|exact Hinv].
  destruct (getUserQuota_outcome now userId st) as (q & st1 & Hg & _ & F & R & B & _ & _).
  assert (addressing_inv sha256 st1) as Hinv1
    by (apply (addressing_inv_kept st); assumption).
  unfold bind at 1. rewrite Hg. unfold bind at 1.
  pose proof (client_upload_loop_addressing userId q options files 0 [] st1 Hinv1) as Hloop.
  destruct (client_upload_loop _ _ _ _ _ _ _ _) as [[p|r|] st2]; simpl in *; exact Hloop.
Qed.

Lemma addressing_inv_removed st st' :
  (∀ h f, kv_file st' !! h = Some f →
     ∃ f0, kv_file st !! h = Some f0 ∧ fm_hash f = fm_hash f0
           ∧ fm_storage_path f = fm_storage_path f0) →
  (∀ fid r, kv_file_ref st' !! fid = Some r → kv_file_ref st !! fid = Some r) →
  (∀ p v, bucket st' !! p = Some v → bucket st !! p = Some v) →
  addressing_inv sha256 st → addressing_inv sha256 st'.
Proof.
  intros F R B (Hb & Hf & Hrefs). split; [|split].
  - intros p ct data H. eapply Hb, B, H.
  - intros h f H. destruct (F h f H) as (f0 & H0 & -> & ->). apply Hf, H0.
  - intros fid r H. apply Hrefs, R, H.
Qed.

Ltac removed_tac :=
  let k' := fresh "k" in
  let v' := fresh "v" in
  let H' := fresh "H" in
  let Hne := fresh "Hne" in
  apply addressing_inv_removed; simpl;
  [ intros k' v';
    first [ rewrite lookup_delete_Some; intros [_ H']; eauto
          | match goal with
            | |- <[?k := _]> _ !! _ = _ → _ =>
                destruct (decide (k = k')) as [<-|Hne];
                [rewrite lookup_insert_eq; intros [= <-]; eauto
                | rewrite lookup_insert_ne by done; eauto]
            end
          | eauto ]
  | intros k' v'; first [rewrite lookup_delete_Some; intros [_ H']; exact H' | auto]
  | intros k' v'; first [rewrite lookup_delete_Some; intros [_ H']; exact H' | auto] ].

Lemma delete_addressing auth fileId st :
  addressing_inv sha256 st → addressing_inv sha256 (snd (delete_file auth fileId st)).
Proof.
  unfold delete_file, try_catch, delete_handler.
  destruct auth as [| |user]; simpl; [auto..|].
  unfold_handlers.
  repeat (case_match; simpl in *; simplify_eq); try done.
  all: removed_tac.
Qed.

Lemma deleteFileClientSide_addressing userId now fileId st :
  addressing_inv sha256 st →
  addressing_inv sha256 (snd (deleteFileClientSide userId now fileId st)).
Proof.
  unfold deleteFileClientSide, run_client, deleteFileClientSide_body, getUserQuota.
  destruct userId as [userId|]; simpl; [|auto].
  unfold_handlers.
  repeat (case_match; simpl in *; simplify_eq); try done.
  all: removed_tac.
Qed.

Lemma signup_addressing now body created st :
  addressing_inv sha256 st → addressing_inv sha256 (snd (signup now body created st)).
Proof.
  unfold signup, try_catch, signup_handler. unfold_handlers.
  repeat (case_match; simpl in *; simplify_eq); auto.
Qed.

Lemma addressing_step op st :
  addressing_inv sha256 st → addressing_inv sha256 (step sha256 op st).
Proof.
  destruct op; simpl.
  - apply signup_addressing.
  - apply upload_addressing.
  - apply delete_addressing.
  - apply uploadFilesClientSide_addressing.
  - apply deleteFileClientSide_addressing.
Qed.

Lemma addressing_reachable st : reachable sha256 st → addressing_inv sha256 st.
Proof.
  induction 1 as [|op st _ IH]; [|apply addressing_step, IH].
  split; [|split]; intros ? ? ?; simpl; rewrite ?lookup_empty; discriminate.
Qed.

(** X20: the bucket is content-addressed.  In every store a history of
    requests leads to, the bytes stored under a path hash to that path:
    nothing is ever stored under another content's name, and no object is
    overwritten with other bytes. *)
Theorem X20_bucket_is_content_addressed st path contentType data :
  reachable sha256 st →
  bucket st !! path = Some (contentType, data) →
  calculateFileHash sha256 data = path.
Proof.
  intros Hreach. apply (proj1 (addressing_reachable st Hreach)).
Qed.

(** X21: entries sit under the id minted for them.  In every store a
    history of requests leads to, an entry is stored under its own id, that
    id is one minted for the entry's uploader and hash (at some clock
    reading), and the entry names the object of its hash as its storage
    path. *)
Theorem X21_entries_sit_under_their_id st fileId ref :
  reachable sha256 st →
  kv_file_ref st !! fileId = Some ref →
  fr_id ref = fileId
  ∧ (∃ now, fileId = make_file_id (fr_uploader_id ref) (fr_hash ref) now)
  ∧ fr_storage_path ref = fr_hash ref.
Proof.
  intros Hreach. apply (proj2 (proj2 (addressing_reachable st Hreach))).
Qed.

End Addressing.

Lemma X20_bucket_witness :
  bucket store_shared !! hashB = Some ("image/png", bytesB)
  ∧ calculateFileHash sample_digest bytesB = hashB.
Proof.
  assert (bucket store_shared !! hashB = Some ("image/png", bytesB)) as Hobj
    by (vm_compute; reflexivity).
  split; [exact Hobj|].
  apply (X20_bucket_is_content_addressed sample_digest store_shared hashB "image/png").
  - apply (reachable_run sample_digest history_shared empty_store). apply reachable_empty.
  - exact Hobj.
Defined.

Lemma X21_entries_witness :
  ∃ ref, kv_file_ref store_shared !! idB2 = Some ref
    ∧ fr_id ref = idB2
    ∧ (∃ now, idB2 = make_file_id (fr_uploader_id ref) (fr_hash ref) now)
    ∧ fr_storage_path ref = fr_hash ref.
Proof.
  assert (∃ ref, kv_file_ref store_shared !! idB2 = Some ref) as [ref Href]
    by (eexists; vm_compute; reflexivity).
  exists ref. split; [exact Href|].
  apply (X21_entries_sit_under_their_id sample_digest store_shared idB2 ref).
  - apply (reachable_run sample_digest history_shared empty_store). apply reachable_empty.
  - exact Href.
Defined.

(** ** The last delete, and the browser-side upload *)

Section LastDelete.

Variable sha256 : list byte → list byte.

(** X22: the delete that drops the last reference refunds the caller, and
    nobody else.  The content record and the stored object go, the entry
    goes, the caller's [storage_used] falls by the entry's size (never below
    0), and every other quota record is as before: whoever was charged for
    the content when it was first uploaded is not refunded by it. *)
Theorem X22_last_delete_refunds_the_caller user fileId ref fd q st :
  kv_file_ref st !! fileId = Some ref →
  fr_uploader_id ref = au_id user →
  kv_file st !! fr_hash ref = Some fd →
  fm_reference_count fd ≤ 1 →
  kv_quota st !! au_id user = Some q →
  ∃ st',
    delete_file (Authenticated user) fileId st
      = (OkMessage "File deleted successfully", st')
    ∧ kv_file st' !! fr_hash ref = None
    ∧ bucket st' !! fm_storage_path fd = None
    ∧ kv_file_ref st' !! fileId = None
    ∧ kv_quota st' !! au_id user
      = Some (with_storage_used q (Z.max 0 (storage_used q - fr_size ref)))
    ∧ (∀ u, u ≠ au_id user → kv_quota st' !! u = kv_quota st !! u).
Proof.
  intros Href Hown Hfd Hrc Hq.
  destruct (delete_file_owned user fileId ref fd q st Href Hown Hfd Hq)
    as (st' & Hdel & _ & R & Hlast).
  destruct (Z.leb_spec (fm_reference_count fd - 1) 0); [|lia].
  destruct Hlast as (F & B & Q & _).
  exists st'. split; [exact Hdel|].
  rewrite F, B, R, Q, !lookup_delete_eq, lookup_insert_eq.
  repeat split; auto.
  intros u Hne. apply lookup_insert_ne. congruence.
Qed.

(** X23: what a successful browser-side upload charges: one entry per file,
    in order and under the file's name; the caller's [storage_used] grows by
    exactly the bytes of the entries not flagged as deduplicated (from 0 for
    a caller whose quota record it has to create); and after a batch of at
    least one file it is within the caller's limit. *)
Theorem X23_client_upload_charges_new_content userId now files options st answer st' :
  uploadFilesClientSide sha256 (Some userId) now files options st
  = (Resolved (OkFiles answer), st') →
  map fr_filename answer = map (λ it, file_name (item_file it)) files
  ∧ ∃ q', kv_quota st' !! userId = Some q'
      ∧ storage_used q'
        = match kv_quota st !! userId with
          | Some q => storage_used q
          | None => 0
          end + totalStorageUsed answer
      ∧ (files ≠ [] → storage_used q' ≤ storage_limit q').
Proof.
  unfold uploadFilesClientSide, run_client, uploadFilesClientSide_body.
  assert (∃ q st1, getUserQuota now userId st = (Next q, st1)
            ∧ storage_used q
              = match kv_quota st !! userId with Some q => storage_used q | None => 0 end)
    as (q & st1 & Hg & Hused).
  { unfold getUserQuota. unfold_handlers.
    destruct (kv_quota st !! userId) as [q0|]; simpl; eexists _, _; split; reflexivity. }
  rewrite <- Hused. unfold bind at 1. rewrite Hg. unfold bind at 1.
  destruct files as [|it rest].
  - simpl. unfold_handlers. simpl. intros [= <- <-]. simpl.
    split; [reflexivity|]. eexists. split; [apply lookup_insert_eq|]. simpl.
    unfold totalStorageUsed. simpl. split; [lia | congruence].
  - assert (it :: rest = [] → within_limit (Some q) 0) as Hne by discriminate.
    pose proof (client_upload_loop_account sha256 userId q options (it :: rest) 0 [] st1 Hne)
      as Hloop.
    destruct (client_upload_loop _ _ _ _ _ _ _ _) as [[p|r|] st2]; simpl.
    + destruct Hloop as (refs & Hups & Hnames & Htot & Hlim & _).
      unfold_handlers. simpl. intros [= <- <-]. simpl in *.
      rewrite Hups. split; [exact Hnames|].
      eexists. split; [apply lookup_insert_eq|]. simpl. split; [lia | intros _; lia].
    + destruct Hloop as [Herr _]. destruct r; try contradiction; discriminate.
    + discriminate.
Qed.

End LastDelete.

Lemma X22_last_delete_witness :
  storage_used <$> kv_quota store_after_first_delete !! "u1" = Some 5
  ∧ fst (delete_file (Authenticated U2) idB2 store_after_first_delete)
    = OkMessage "File deleted successfully"
  ∧ bucket (snd (delete_file (Authenticated U2) idB2 store_after_first_delete)) !! hashB
    = None
  ∧ storage_used <$>
      kv_quota (snd (delete_file (Authenticated U2) idB2 store_after_first_delete)) !! "u1"
    = Some 5.
Proof.
  assert (storage_used <$> kv_quota store_after_first_delete !! "u1" = Some 5) as Hu1
    by (vm_compute; reflexivity).
  assert (∃ ref fd q,
            kv_file_ref store_after_first_delete !! idB2 = Some ref
            ∧ fr_uploader_id ref = "u2" ∧ fr_hash ref = hashB
            ∧ kv_file store_after_first_delete !! hashB = Some fd
            ∧ fm_reference_count fd = 1 ∧ fm_storage_path fd = hashB
            ∧ kv_quota store_after_first_delete !! "u2" = Some q)
    as (ref & fd & q & Href & Hown & Hh & Hfd & Hrc & Hpath & Hq).
  { eexists _, _, _. split; [vm_compute; reflexivity|].
    split; [reflexivity|]. split; [reflexivity|].
    split; [vm_compute; reflexivity|].
    split; [reflexivity|]. split; [reflexivity|]. vm_compute. reflexivity. }
  destruct (X22_last_delete_refunds_the_caller U2 idB2 ref fd q store_after_first_delete)
    as (st' & Hdel & _ & Hobj & _ & _ & Hothers).
  - exact Href.
  - exact Hown.
  - rewrite Hh. exact Hfd.
  - rewrite Hrc. lia.
  - exact Hq.
  - rewrite Hdel. simpl. split; [exact Hu1|]. split; [reflexivity|].
    split; [rewrite <- Hpath; exact Hobj|].
    rewrite (Hothers "u1") by (simpl; discriminate). exact Hu1.
Defined.

Lemma X23_client_upload_witness :
  map fr_filename
    (resolved_files
       (fst (uploadFilesClientSide sample_digest (Some "u2") 5000
               (req_files batch_A_then_C) no_options store_first_upload)))
  = ["a.bin"; "c.bin"]
  ∧ ∃ q', kv_quota (snd (uploadFilesClientSide sample_digest (Some "u2") 5000
                           (req_files batch_A_then_C) no_options store_first_upload))
            !! "u2" = Some q'
      ∧ storage_used q' = 10.
Proof.
  destruct (X23_client_upload_charges_new_content sample_digest "u2" 5000
              (req_files batch_A_then_C) no_options store_first_upload
              (resolved_files
                 (fst (uploadFilesClientSide sample_digest (Some "u2") 5000
                         (req_files batch_A_then_C) no_options store_first_upload)))
              (snd (uploadFilesClientSide sample_digest (Some "u2") 5000
                      (req_files batch_A_then_C) no_options store_first_upload)))
    as (Hnames & q' & Hq' & Hused & _).
  - vm_compute. reflexivity.
  - split; [exact Hnames|]. exists q'. split; [exact Hq'|].
    rewrite Hused. vm_compute. reflexivity.
Defined.

(** ** The browser-side share *)

Section ClientShare.

(** X24: the browser-side share never shares with anyone.  Given an
    address, it is rejected whether or not a user holds that address, and
    it writes no share record; asked by the uploader to publish as well, it
    has published the entry by the time it fails. *)
Theorem X24_client_share_by_address_never_shares referenceError userId fileId isPublic
    email users w :
  email ≠ EmptyString →
  (∃ msg, fst (shareFileClientSide referenceError userId fileId isPublic email users w)
          = Rejected msg)
  ∧ w_share (snd (shareFileClientSide referenceError userId fileId isPublic email users w))
    = w_share w
  ∧ (∀ ref, kv_file_ref (w_store w) !! fileId = Some ref →
       userId = Some (fr_uploader_id ref) → isPublic = true →
       kv_file_ref
         (w_store (snd (shareFileClientSide referenceError userId fileId isPublic email
                          users w))) !! fileId
       = Some (with_is_public ref true)).
Proof.
  intros Hmail. apply String.eqb_neq in Hmail.
  unfold shareFileClientSide. rewrite Hmail. simpl.
  split; [|split].
  - repeat case_match; eauto.
  - repeat case_match; reflexivity.
  - intros ref Href -> ->. rewrite Href, String.eqb_refl. simpl.
    destruct (find _ users); simpl; apply lookup_insert_eq.
Qed.

End ClientShare.

Lemma X24_client_share_witness :
  fst (shareFileClientSide "user is not defined" (Some "u1") idB1 false "u2@vault.test"
         sample_users world_first_upload)
  = Rejected "user is not defined"
  ∧ w_share (snd (shareFileClientSide "user is not defined" (Some "u1") idB1 false
                    "u2@vault.test" sample_users world_first_upload))
    = w_share world_first_upload.
Proof.
  destruct (X24_client_share_by_address_never_shares "user is not defined" (Some "u1")
              idB1 false "u2@vault.test" sample_users world_first_upload)
    as (_ & Hshare & _).
  - discriminate.
  - split; [vm_compute; reflexivity | exact Hshare].
Defined.

(** * Requests in flight and requests handled alone *)

Section Alone.

Variable sha256 : list byte → list byte.

Lemma atomically_sbind {A B} (p : Steps A) (k : A → Steps B) :
  ∀ st, atomically (sbind p k) st = bind (atomically p) (λ a, atomically (k a)) st.
Proof.
  induction p as [a|r|msg|l p IH|X c k' IH]; intros st; simpl; try reflexivity.
  - unfold bind at 1 2 3. unfold console_log. apply IH.
  - unfold bind at 1 2 3. destruct (c st) as [[x| |] st1]; [apply IH | reflexivity..].
Qed.

Lemma bind_cong {A B} (m1 m2 : Handler A) (k1 k2 : A → Handler B) st :
  (∀ st, m1 st = m2 st) → (∀ a st, k1 a st = k2 a st) →
  bind m1 k1 st = bind m2 k2 st.
Proof.
  intros Hm Hk. unfold bind. rewrite Hm.
  destruct (m2 st) as [[a| |] st1]; [apply Hk | reflexivity..].
Qed.

Lemma alone_try_steps label (p : Steps Response) :
  ∀ st, alone (try_steps label p) st = try_catch label (atomically p) st.
Proof.
  unfold alone, try_catch.
  induction p as [a|r|msg|l p IH|X c k' IH]; intros st; simpl; try reflexivity.
  - unfold bind, console_log. apply IH.
  - unfold bind, caught. destruct (c st) as [[x| |] st1]; [apply IH | reflexivity..].
Qed.

Lemma checkRateLimit_steps_alone now userId st :
  atomically (checkRateLimit_steps now userId) st = checkRateLimit now userId st.
Proof.
  unfold checkRateLimit_steps, checkRateLimit, call. simpl. unfold_handlers.
  repeat (case_match; simpl in *; simplify_eq); reflexivity.
Qed.

Lemma upload_file_steps_alone user userData quotaData tags folderId isPublic tot ups it st :
  atomically (upload_file_steps sha256 user userData quotaData tags folderId isPublic
                tot ups it) st
  = upload_file sha256 user userData quotaData tags folderId isPublic tot ups it st.
Proof.
  unfold upload_file_steps, upload_file, call. unfold_handlers.
  repeat (case_match; simpl in *; unfold_handlers; simplify_eq); reflexivity.
Qed.


Lemma upload_loop_steps_alone user userData quotaData tags folderId isPublic files :
  ∀ tot ups st,
  atomically (upload_loop_steps sha256 user userData quotaData tags folderId isPublic
                files tot ups) st
  = upload_loop sha256 user userData quotaData tags folderId isPublic files tot ups st.
Proof.
  induction files as [|it rest IH]; intros tot ups st; [reflexivity|].
  change (upload_loop sha256 user userData quotaData tags folderId isPublic (it :: rest) tot ups)
    with (bind (upload_file sha256 user userData quotaData tags folderId isPublic tot ups it)
            (λ p, upload_loop sha256 user userData quotaData tags folderId isPublic
                    rest (fst p) (snd p))).
  cbn [upload_loop_steps]. rewrite atomically_sbind.
  apply bind_cong; [apply upload_file_steps_alone|].
  intros p st1. apply IH.
Qed.

Lemma upload_handler_steps_alone now req st :
  atomically (upload_handler_steps sha256 now req) st = upload_handler sha256 now req st.
Proof.
  unfold upload_handler_steps, upload_handler.
  destruct (req_auth req) as [| |user]; try reflexivity.
  rewrite atomically_sbind. apply bind_cong; [apply checkRateLimit_steps_alone|].
  intros allowed st1. destruct allowed; cbn [negb]; [|reflexivity].
  rewrite atomically_sbind. apply bind_cong.
  { intros st2. destruct (req_tags req); reflexivity. }
  intros tags st2. destruct (req_files req) as [|it rest]; [reflexivity|].
  unfold call. cbn [atomically sbind].
  apply bind_cong; [reflexivity|]. intros userData st3.
  apply bind_cong; [reflexivity|]. intros quotaData st4.
  rewrite atomically_sbind. apply bind_cong; [apply upload_loop_steps_alone|].
  intros p st5. rewrite atomically_sbind. apply bind_cong.
  { intros st6. destruct quotaData; reflexivity. }
  intros [] st6. reflexivity.
Qed.

(** The upload route in flight, given all its turns in a row, is the upload
    route handled alone. *)
Lemma upload_steps_alone now req st :
  alone (upload_steps sha256 now req) st = upload sha256 now req st.
Proof.
  unfold upload_steps, upload. rewrite alone_try_steps. unfold try_catch.
  rewrite upload_handler_steps_alone. reflexivity.
Qed.

Lemma delete_handler_steps_alone auth fileId st :
  atomically (delete_handler_steps auth fileId) st = delete_handler auth fileId st.
Proof.
  unfold delete_handler_steps, delete_handler, call. unfold_handlers.
  repeat (case_match; simpl in *; unfold_handlers; simplify_eq); reflexivity.
Qed.

(** The same for the delete route. *)
Lemma delete_steps_alone auth fileId st :
  alone (delete_steps auth fileId) st = delete_file auth fileId st.
Proof.
  unfold delete_steps, delete_file. rewrite alone_try_steps. unfold try_catch.
  rewrite delete_handler_steps_alone. reflexivity.
Qed.

End Alone.

(** * Requests handled one after another *)

Section Served.

Variable sha256 : list byte → list byte.

Lemma ledgers_quiet_same st st' :
  kv_quota st' = kv_quota st → kv_file st' = kv_file st → bucket st' = bucket st →
  kv_file_ref st' = kv_file_ref st → ledgers_quiet st st'.
Proof. unfold ledgers_quiet. intros -> -> -> ->. auto. Qed.

Lemma ledgers_quiet_rewritten st st' fid r r' :
  kv_quota st' = kv_quota st → kv_file st' = kv_file st → bucket st' = bucket st →
  kv_file_ref st' = <[fid := r']> (kv_file_ref st) →
  kv_file_ref st !! fid = Some r → fr_hash r' = fr_hash r →
  ledgers_quiet st st'.
Proof.
  intros Q F B R Hr Hh. unfold ledgers_quiet. rewrite R. split_and!; auto.
  - intros h. apply (nrefs_insert_same_hash h fid r); assumption.
  - intros fid' Hnone. apply lookup_insert_None. split; [exact Hnone | congruence].
Qed.

Lemma ledgers_quiet_inv st st' : ledgers_quiet st st' → vault_inv st → vault_inv st'.
Proof.
  intros (Q & F & _ & N & _) [Hq Hrc]. split.
  - unfold quota_nonneg. rewrite Q. exact Hq.
  - intros h. specialize (Hrc h). rewrite F, N. exact Hrc.
Qed.

Ltac quiet_tac :=
  first [ apply ledgers_quiet_same; reflexivity
        | eapply ledgers_quiet_rewritten;
            [reflexivity | reflexivity | reflexivity | reflexivity | eassumption
            | reflexivity] ].

Lemma download_file_quiet auth fileId signed w :
  ledgers_quiet (w_store w) (w_store (snd (download_file auth fileId signed w))).
Proof.
  unfold download_file, download_granted.
  repeat (case_match; simpl in *; simplify_eq); quiet_tac.
Qed.

Lemma downloadFileClientSide_quiet fileId signed st :
  ledgers_quiet st (snd (downloadFileClientSide fileId signed st)).
Proof.
  unfold downloadFileClientSide.
  repeat (case_match; simpl in *; simplify_eq); quiet_tac.
Qed.

Lemma share_file_quiet now auth body allUsers w :
  ledgers_quiet (w_store w) (w_store (snd (share_file now auth body allUsers w))).
Proof.
  unfold share_file.
  repeat (case_match; simpl in *; simplify_eq); quiet_tac.
Qed.

Lemma shareFileClientSide_quiet referenceError userId fileId isPublic email users w :
  ledgers_quiet (w_store w)
    (w_store (snd (shareFileClientSide referenceError userId fileId isPublic email
                     users w))).
Proof.
  unfold shareFileClientSide.
  repeat (case_match; simpl in *; simplify_eq); quiet_tac.
Qed.

Lemma get_user_quiet auth profile st : ledgers_quiet st (snd (get_user auth profile st)).
Proof.
  unfold get_user.
  repeat (case_match; simpl in *; simplify_eq); quiet_tac.
Qed.

(** A request is an upload, delete or signup, or leaves the ledgers quiet. *)
Lemma serve_outcome req w :
  match req with
  | DoOp op => w_store (serve sha256 req w) = step sha256 op (w_store w)
  | _ => ledgers_quiet (w_store w) (w_store (serve sha256 req w))
  end.
Proof.
  destruct req; simpl.
  - reflexivity.
  - apply download_file_quiet.
  - apply downloadFileClientSide_quiet.
  - apply share_file_quiet.
  - apply shareFileClientSide_quiet.
  - apply get_user_quiet.
Qed.

Lemma vault_inv_serve req w :
  vault_inv (w_store w) → vault_inv (w_store (serve sha256 req w)).
Proof.
  intros Hinv. pose proof (serve_outcome req w) as Hout.
  destruct req; try (eapply ledgers_quiet_inv; [exact Hout | exact Hinv]).
  rewrite Hout. apply vault_inv_step. exact Hinv.
Qed.

Lemma served_inv w : served sha256 w → vault_inv (w_store w).
Proof.
  induction 1 as [|req w _ IH]; [apply vault_inv_empty | apply vault_inv_serve, IH].
Qed.

Lemma served_serve_all reqs w : served sha256 w → served sha256 (serve_all sha256 reqs w).
Proof.
  revert w. induction reqs as [|req reqs IH]; intros w H; simpl; [exact H|].
  apply IH. constructor. exact H.
Qed.

Lemma absent_serve req fileId w :
  kv_file_ref (w_store w) !! fileId = None → fileId ∉ request_mints sha256 req →
  kv_file_ref (w_store (serve sha256 req w)) !! fileId = None.
Proof.
  intros Habs Hfresh. pose proof (serve_outcome req w) as Hout.
  destruct req; try (destruct Hout as (_ & _ & _ & _ & Hkeep); apply Hkeep; exact Habs).
  rewrite Hout. apply absent_step; assumption.
Qed.

Lemma absent_serve_all later fileId w :
  kv_file_ref (w_store w) !! fileId = None →
  fileId ∉ concat (map (request_mints sha256) later) →
  kv_file_ref (w_store (serve_all sha256 later w)) !! fileId = None.
Proof.
  revert w. induction later as [|req later IH]; intros w Habs Hfresh; simpl in *;
    [exact Habs|].
  rewrite not_elem_of_app in Hfresh. destruct Hfresh as [H1 H2].
  apply IH; [apply absent_serve; assumption | exact H2].
Qed.

(** C7, as the code has it: with requests handled one after another, a
    remove that succeeded, on the server or from the browser, deleted the
    entry; through any later requests of any kind, as long as none of them
    is an upload that writes an entry under the very same id again, every
    later remove of that id answers 404 "File not found" (the browser-side
    delete rejects with "File not found") and changes nothing. *)
Theorem C7_remove_succeeds_at_most_once fileId w st' later user now :
  (∃ auth msg, delete_file auth fileId (w_store w) = (OkMessage msg, st'))
  ∨ (∃ userId now0 r,
       deleteFileClientSide userId now0 fileId (w_store w) = (Resolved r, st')) →
  fileId ∉ concat (map (request_mints sha256) later) →
  delete_file (Authenticated user) fileId
    (w_store (serve_all sha256 later (with_store st' w)))
  = (JsonError 404 "File not found",
     w_store (serve_all sha256 later (with_store st' w)))
  ∧ deleteFileClientSide (Some (au_id user)) now fileId
      (w_store (serve_all sha256 later (with_store st' w)))
    = (Rejected "File not found",
       w_store (serve_all sha256 later (with_store st' w))).
Proof.
  intros Hok Hfresh.
  pose proof (removed_entry_absent fileId (w_store w) st' Hok) as Habs.
  pose proof (absent_serve_all later fileId (with_store st' w) Habs Hfresh) as Habs''.
  split; [apply delete_file_absent | apply deleteFileClientSide_absent]; exact Habs''.
Qed.

(** C5, as the code has it: with requests handled one after another, of
    whatever kind, a request deletes the content record of hash [h], and
    likewise the stored object, exactly when it is a remove that takes the
    record's reference count to 0; and in the store it leaves, every entry
    still has its content record. *)
Theorem C5_reclamation_safety w req h :
  served sha256 w →
  (is_Some (kv_file (w_store w) !! h) →
     (kv_file (w_store (serve sha256 req w)) !! h = None
      ↔ request_drops_last_reference req h w))
  ∧ (is_Some (bucket (w_store w) !! h) →
     (bucket (w_store (serve sha256 req w)) !! h = None
      ↔ request_drops_last_reference req h w))
  ∧ (∀ fid ref,
       kv_file_ref (w_store (serve sha256 req w)) !! fid = Some ref → fr_hash ref = h →
       is_Some (kv_file (w_store (serve sha256 req w)) !! h)).
Proof.
  intros Hserved. pose proof (served_inv w Hserved) as Hinv.
  pose proof (serve_outcome req w) as Hout.
  assert (∀ st', ledgers_quiet (w_store w) st' →
    (is_Some (kv_file (w_store w) !! h) → (kv_file st' !! h = None ↔ False))
    ∧ (is_Some (bucket (w_store w) !! h) → (bucket st' !! h = None ↔ False))
    ∧ (∀ fid ref, kv_file_ref st' !! fid = Some ref → fr_hash ref = h →
         is_Some (kv_file st' !! h))) as Hquiet.
  { intros st' Hq. pose proof (ledgers_quiet_inv _ _ Hq Hinv) as [_ Hrc'].
    destruct Hq as (_ & F & B & _ & _). rewrite F, B. split_and!.
    - intros [x Hx]. rewrite Hx. split; [discriminate | contradiction].
    - intros [x Hx]. rewrite Hx. split; [discriminate | contradiction].
    - intros fid ref Href Hh. specialize (Hrc' h). rewrite F in Hrc'.
      pose proof (nrefs_pos h fid ref _ Href Hh) as Hpos.
      destruct (kv_file (w_store w) !! h); [eauto | lia]. }
  destruct req; try (apply Hquiet; exact Hout).
  rewrite Hout. apply (reclamation_step sha256). exact Hinv.
Qed.

End Served.

(** * The claims on reclamation and on removing twice, at concrete inputs *)

(** C5, witness: after two uploads of B, a download, a share and U1's
    remove, U2 removes the last entry for B; the content record and the
    stored object are deleted. *)
Lemma C5_reclamation_safety_witness :
  served sample_digest world_after_first_delete
  ∧ is_Some (kv_file (w_store world_after_first_delete) !! hashB)
  ∧ is_Some (bucket (w_store world_after_first_delete) !! hashB)
  ∧ request_drops_last_reference (DoOp (Delete (Authenticated U2) idB2)) hashB
      world_after_first_delete
  ∧ kv_file (w_store (serve sample_digest (DoOp (Delete (Authenticated U2) idB2))
                        world_after_first_delete)) !! hashB = None
  ∧ bucket (w_store (serve sample_digest (DoOp (Delete (Authenticated U2) idB2))
                       world_after_first_delete)) !! hashB = None.
Proof.
  assert (served sample_digest world_after_first_delete) as Hserved.
  { apply served_serve_all. constructor. }
  assert (is_Some (kv_file (w_store world_after_first_delete) !! hashB)) as Hrec.
  { eexists. vm_compute. reflexivity. }
  assert (is_Some (bucket (w_store world_after_first_delete) !! hashB)) as Hobj.
  { eexists. vm_compute. reflexivity. }
  assert (request_drops_last_reference (DoOp (Delete (Authenticated U2) idB2)) hashB
            world_after_first_delete) as Hlast.
  { do 3 eexists. split_and!; [vm_compute; reflexivity .. | reflexivity]. }
  destruct (C5_reclamation_safety sample_digest world_after_first_delete
              (DoOp (Delete (Authenticated U2) idB2)) hashB Hserved) as (H1 & H2 & _).
  split_and!; [exact Hserved | exact Hrec | exact Hobj | exact Hlast
              | apply (H1 Hrec), Hlast | apply (H2 Hobj), Hlast].
Defined.

(** C5, counterexample: U1 and U2 upload B while each other's request is
    in flight, and both read "no record for B" before either writes it.
    Both uploads are answered with their entry, the record of B counts 1
    reference, and two entries carry its hash.  U1's remove then takes the
    count to 0 and deletes the record and the stored object while U2's
    entry still references them. *)
Lemma C5_racing_uploads_counterexample :
  map answered_ids (fst (interleave race_schedule racing_uploads store_signed_up))
    = [Some [id_race_1]; Some [id_race_2]]
  ∧ fm_reference_count <$> kv_file store_raced !! hashB = Some 1
  ∧ fr_hash <$> kv_file_ref store_raced !! id_race_1 = Some hashB
  ∧ fr_hash <$> kv_file_ref store_raced !! id_race_2 = Some hashB
  ∧ fst (delete_file (Authenticated U1) id_race_1 store_raced)
    = OkMessage "File deleted successfully"
  ∧ kv_file (snd (delete_file (Authenticated U1) id_race_1 store_raced)) !! hashB = None
  ∧ bucket (snd (delete_file (Authenticated U1) id_race_1 store_raced)) !! hashB = None
  ∧ fr_hash <$> kv_file_ref (snd (delete_file (Authenticated U1) id_race_1 store_raced))
                  !! id_race_2 = Some hashB.
Proof. vm_compute. split_and!; reflexivity. Qed.

(** C7, witness: U1 removes their entry; after U2 downloaded and removed
    theirs and U1 uploaded B anew at another clock reading, removing the old
    id again answers 404, on the server and from the browser. *)
Lemma C7_remove_twice_witness :
  delete_file (Authenticated U1) idB1
    (w_store (serve_all sample_digest later_visits
                (with_store (snd (delete_file (Authenticated U1) idB1 store_shared))
                   world_shared)))
  = (JsonError 404 "File not found",
     w_store (serve_all sample_digest later_visits
                (with_store (snd (delete_file (Authenticated U1) idB1 store_shared))
                   world_shared)))
  ∧ deleteFileClientSide (Some (au_id U1)) 9500 idB1
      (w_store (serve_all sample_digest later_visits
                  (with_store (snd (delete_file (Authenticated U1) idB1 store_shared))
                     world_shared)))
    = (Rejected "File not found",
       w_store (serve_all sample_digest later_visits
                  (with_store (snd (delete_file (Authenticated U1) idB1 store_shared))
                     world_shared))).
Proof.
  apply (C7_remove_succeeds_at_most_once sample_digest idB1 world_shared
           (snd (delete_file (Authenticated U1) idB1 store_shared)) later_visits U1 9500).
  - left. exists (Authenticated U1), "File deleted successfully".
    vm_compute. reflexivity.
  - apply (bool_decide_unpack _). vm_compute. exact I.
Defined.

(** C7, counterexample, in two ways.  One after another: U1 removes
    [idB1] and uploads the same bytes again within the millisecond of the
    first upload; the new entry gets the id [idB1], and a second remove of
    [idB1] reports success.  In flight together: two removes of
    [idB1] both read the entry before either deletes it, and both report
    success. *)
Lemma C7_second_remove_succeeds_counterexample :
  fst (delete_file (Authenticated U1) idB1 store_first_upload)
    = OkMessage "File deleted successfully"
  ∧ op_mints sample_digest (Upload 1000 first_upload) = [idB1]
  ∧ fst (delete_file (Authenticated U1) idB1
           (step sample_digest (Upload 1000 first_upload)
              (snd (delete_file (Authenticated U1) idB1 store_first_upload))))
    = OkMessage "File deleted successfully"
  ∧ map answer_of (fst (interleave double_delete_schedule double_delete
                          store_first_upload))
    = [Some (OkMessage "File deleted successfully");
       Some (OkMessage "File deleted successfully")].
Proof. vm_compute. split_and!; reflexivity. Qed.
